(** * transis [util.js]: type classification and cycle-safe deep equality

    A shallow embedding of [type], [eq], [arrayEq], [objectEq] and
    [detectRecursion] (with [seen], [mark], [unmark] and the module-level
    [seenObjects] list) of [src/util.js], together with the default [eq]
    method of [RynoObject] (the second part of the same source file).

    JavaScript values live in a heap of objects, so that arrays and
    objects can refer to themselves and to one another.  The comparison
    only reads the heap; the one piece of state it mutates is
    [seenObjects], which is threaded through every function that touches it.
    Recursion of [eq] is bounded by a fuel argument: one unit per nested
    call of [eq], i.e. the fuel is the depth of the JavaScript call chain
    that the engine's stack has room for.  A run that needs more is cut where
    the stack runs out ([OutOfFuel]), with [seenObjects] as it is then.

    What the model covers: primitives, objects of every built-in kind with
    own data properties (enumerable or not) and a prototype chain, the
    built-in methods [util.js] reaches ([hasOwnProperty], [valueOf]), and
    the exceptions they raise.  Outside it: accessor properties and proxies,
    modified built-in prototypes, the bodies of user functions (calling one
    ends the run as [Foreign]), and the way the [RangeError] of an exhausted
    stack unwinds.  The limits of the engine are parameters: the depth of the
    stack (the fuel) and the number of arguments a call takes
    ([max_arguments] of module [Path]).

    The other functions of [util.js] follow: the string helpers [camelize],
    [underscore] and [capitalize] (module [Strings]) and [getPath] (module
    [Path]), which builds arrays and so threads the heap.  The rest of
    [RynoObject] ([extend], [prop], [init], [getProp], [setProp]) works
    through accessor properties, closures and the [Emitter] mixin, and is
    not modelled. *)

From Stdlib Require Import List String Ascii Bool Arith PeanoNat ZArith Lia.
From Stdlib Require Import DecimalString.
From Stdlib Require Import Floats.SpecFloat.
Import ListNotations.
Local Open Scope string_scope.
Local Open Scope list_scope.

(** ** JavaScript values *)

Module JS.

Definition loc := nat.

(** Built-in functions that [util.js] can end up calling through property
    lookup.  They live outside the modelled heap and are identified by name. *)
Inductive native :=
| NHasOwnProperty      (* Object.prototype.hasOwnProperty *)
| NObjectValueOf       (* Object.prototype.valueOf *)
| NNumberValueOf       (* Number.prototype.valueOf *)
| NStringValueOf       (* String.prototype.valueOf *)
| NBooleanValueOf      (* Boolean.prototype.valueOf *)
| NDateValueOf.        (* Date.prototype.valueOf *)

(** Numbers are IEEE-754 doubles: [S754_nan] is [NaN], [S754_zero true] is [-0]. *)
Inductive value :=
| VUndefined
| VNull
| VBool (b : bool)
| VNumber (x : spec_float)
| VString (s : string)
| VSymbol (id : nat)
| VNative (f : native)
| VRef (l : loc).

Definition NaN : value := VNumber S754_nan.

(** Bodies of function objects.  [RynoObject_eq] is [RynoObject.prototype.eq]:
    [function(other) { return this === other; }].  Any other function is
    [Opaque]: calling it leaves the modelled code. *)
Inductive fn_code := RynoObject_eq | Opaque.

Record regexp := mkRegExp {
  re_source : string;
  re_global : bool;
  re_ignoreCase : bool;
  re_multiline : bool;
  re_sticky : bool;
  re_unicode : bool;
  re_dotAll : bool }.

(** The internal slots of an object, by kind. [IOther tag] is any other object
    whose [Object.prototype.toString] tag is [tag] (host objects, errors,
    objects with a [Symbol.toStringTag]). *)
Inductive internal :=
| IObject
| IArray (len : nat)
| IArguments (len : nat)
| IFunction (code : fn_code)
| IString (s : string)
| INumber (x : spec_float)
| IBoolean (b : bool)
| IDate (time : spec_float)
| IRegExp (r : regexp)
| IOther (tag : string).

(** Data properties only: accessors are outside the model. *)
Record property := data { p_value : value; p_enumerable : bool }.

Inductive proto_ref :=
| ProtoNull                (* no prototype: Object.create(null) *)
| ProtoBuiltin             (* the unmodified built-in prototype of the object's kind *)
| ProtoObj (l : loc).      (* an object of the heap *)

(** Own properties are kept in the order [Object.keys] lists them.  Array
    elements are the properties named by their index. *)
Record object := mkObject {
  o_internal : internal;
  o_proto : proto_ref;
  o_props : list (string * property) }.

Definition heap := list object.

Definition lookup (h : heap) (l : loc) : option object := nth_error h l.

(** How a run of the modelled code ends. [Foreign]: control reached something
    the model does not interpret (an [Opaque] function, a dangling reference).
    [OutOfFuel]: the call chain got deeper than the fuel allows; the engine
    raises a [RangeError] there.  How that error unwinds depends on the
    engine and is not modelled: the run is cut where the stack ran out. *)
Inductive outcome (A : Type) :=
| Ret (x : A)
| Throw (e : string)
| Foreign
| OutOfFuel.
Arguments Ret {A} x.
Arguments Throw {A} e.
Arguments Foreign {A}.
Arguments OutOfFuel {A}.

Definition bind {A B} (m : outcome A) (k : A -> outcome B) : outcome B :=
  match m with
  | Ret x => k x
  | Throw e => Throw e
  | Foreign => Foreign
  | OutOfFuel => OutOfFuel
  end.

Definition TypeError : string := "TypeError".
Definition RangeError : string := "RangeError".

(** *** Operators *)

Definition native_eqb (f g : native) : bool :=
  match f, g with
  | NHasOwnProperty, NHasOwnProperty | NObjectValueOf, NObjectValueOf
  | NNumberValueOf, NNumberValueOf | NStringValueOf, NStringValueOf
  | NBooleanValueOf, NBooleanValueOf | NDateValueOf, NDateValueOf => true
  | _, _ => false
  end.

(** [a === b] *)
Definition strict_eq (a b : value) : bool :=
  match a, b with
  | VUndefined, VUndefined => true
  | VNull, VNull => true
  | VBool x, VBool y => Bool.eqb x y
  | VNumber x, VNumber y => SFeqb x y
  | VString x, VString y => String.eqb x y
  | VSymbol x, VSymbol y => Nat.eqb x y
  | VNative f, VNative g => native_eqb f g
  | VRef l, VRef l' => Nat.eqb l l'
  | _, _ => false
  end.

(** Truthiness, as used by [if], [!] and [&&]. *)
Definition to_boolean (v : value) : bool :=
  match v with
  | VUndefined | VNull => false
  | VBool b => b
  | VNumber x => match x with S754_nan | S754_zero _ => false | _ => true end
  | VString s => negb (String.eqb s "")
  | VSymbol _ | VNative _ | VRef _ => true
  end.

(** *** Properties *)

Definition index_key (i : nat) : string := NilEmpty.string_of_uint (Nat.to_uint i).

Definition number_of_nat (n : nat) : spec_float :=
  binary_normalize 53 1024 (Z.of_nat n) 0 false.

Fixpoint string_chars (i : nat) (s : string) : list (string * property) :=
  match s with
  | EmptyString => []
  | String c s' => (index_key i, data (VString (String c EmptyString)) true)
                   :: string_chars (S i) s'
  end.

Definition hidden (v : value) : property := data v false.

(** The own properties an object has because of its kind.  They are data
    properties of the object itself, as in ES5, and are not enumerable,
    except the characters of a [String]. *)
Definition exotic_props (i : internal) : list (string * property) :=
  match i with
  | IArray n | IArguments n => [("length", hidden (VNumber (number_of_nat n)))]
  | IString s =>
      string_chars 0 s ++ [("length", hidden (VNumber (number_of_nat (String.length s))))]
  | IRegExp r =>
      [("source", hidden (VString (re_source r)));
       ("global", hidden (VBool (re_global r)));
       ("ignoreCase", hidden (VBool (re_ignoreCase r)));
       ("multiline", hidden (VBool (re_multiline r)));
       ("sticky", hidden (VBool (re_sticky r)));
       ("unicode", hidden (VBool (re_unicode r)));
       ("dotAll", hidden (VBool (re_dotAll r)))]
  | _ => []
  end.

Definition own_props (o : object) : list (string * property) :=
  exotic_props (o_internal o) ++ o_props o.

Fixpoint assoc (key : string) (ps : list (string * property)) : option property :=
  match ps with
  | [] => None
  | (k, p) :: ps' => if String.eqb k key then Some p else assoc key ps'
  end.

(** The result of [Object.prototype.toString.call(o)] is ["[object " ++ tag ++ "]"]. *)
Inductive jsclass :=
| CObject | CArray | CArguments | CFunction | CString | CNumber | CBoolean
| CDate | CRegExp | COther (tag : string).

Definition class_of_internal (i : internal) : jsclass :=
  match i with
  | IObject => CObject
  | IArray _ => CArray
  | IArguments _ => CArguments
  | IFunction _ => CFunction
  | IString _ => CString
  | INumber _ => CNumber
  | IBoolean _ => CBoolean
  | IDate _ => CDate
  | IRegExp _ => CRegExp
  | IOther tag => COther tag
  end.

Definition class_tag (c : jsclass) : string :=
  match c with
  | CObject => "Object"
  | CArray => "Array"
  | CArguments => "Arguments"
  | CFunction => "Function"
  | CString => "String"
  | CNumber => "Number"
  | CBoolean => "Boolean"
  | CDate => "Date"
  | CRegExp => "RegExp"
  | COther tag => tag
  end.

(** What the unmodified built-in prototype chain of a kind answers for the
    property names [util.js] looks up through it ([objectId], [eq],
    [hasOwnProperty], [valueOf]); other names are not modelled and read as
    [undefined]. *)
Definition builtin_get (c : jsclass) (key : string) : value :=
  if String.eqb key "hasOwnProperty" then VNative NHasOwnProperty
  else if String.eqb key "valueOf" then
    VNative match c with
            | CNumber => NNumberValueOf
            | CString => NStringValueOf
            | CBoolean => NBooleanValueOf
            | CDate => NDateValueOf
            | _ => NObjectValueOf
            end
  else VUndefined.

Section Heap.
Variable h : heap.

(** [o[key]] on an object: own properties first, then the prototype chain.
    A chain visits each heap object at most once, hence the bound. *)
Fixpoint get_from (n : nat) (l : loc) (key : string) : value :=
  match n with
  | 0 => VUndefined
  | S n' =>
      match lookup h l with
      | None => VUndefined
      | Some o =>
          match assoc key (own_props o) with
          | Some p => p_value p
          | None =>
              match o_proto o with
              | ProtoNull => VUndefined
              | ProtoBuiltin => builtin_get (class_of_internal (o_internal o)) key
              | ProtoObj l' => get_from n' l' key
              end
          end
      end
  end.

(** [v[key]] / [v.key].  The source never reads a property of [null] or
    [undefined]: every such access is behind a guard. *)
Definition get (v : value) (key : string) : value :=
  match v with
  | VRef l => get_from (List.length h) l key
  | VString s =>
      match assoc key (exotic_props (IString s)) with
      | Some p => p_value p
      | None => builtin_get CString key
      end
  | VNumber _ => builtin_get CNumber key
  | VBool _ => builtin_get CBoolean key
  | VSymbol _ => builtin_get (COther "Symbol") key
  | VNative _ => builtin_get CFunction key
  | VUndefined | VNull => VUndefined
  end.

Definition has_own (v : value) (key : string) : bool :=
  match v with
  | VRef l =>
      match lookup h l with
      | Some o => match assoc key (own_props o) with Some _ => true | None => false end
      | None => false
      end
  | VString s =>
      match assoc key (exotic_props (IString s)) with Some _ => true | None => false end
  | _ => false
  end.

Definition enumerable_keys (ps : list (string * property)) : list string :=
  map fst (filter (fun kp => p_enumerable (snd kp)) ps).

(** [Object.keys(v)] (ES2015: primitives are coerced to objects). *)
Definition Object_keys (v : value) : outcome (list string) :=
  match v with
  | VUndefined | VNull => Throw TypeError
  | VRef l =>
      match lookup h l with
      | Some o => Ret (enumerable_keys (own_props o))
      | None => Foreign
      end
  | VString s => Ret (enumerable_keys (exotic_props (IString s)))
  | _ => Ret []
  end.

Definition class_of (v : value) : option jsclass :=
  match v with
  | VRef l => option_map (fun o => class_of_internal (o_internal o)) (lookup h l)
  | VString _ => Some CString
  | VNumber _ => Some CNumber
  | VBool _ => Some CBoolean
  | VSymbol _ => Some (COther "Symbol")
  | VNative _ => Some CFunction
  | VUndefined => Some (COther "Undefined")
  | VNull => Some (COther "Null")
  end.

(** [Object.prototype.toString.call(v)] *)
Definition toString_call (v : value) : option string :=
  option_map (fun c => ("[object " ++ class_tag c ++ "]")%string) (class_of v).

(** [Array.isArray(v)] *)
Definition isArray (v : value) : bool :=
  match v with
  | VRef l => match lookup h l with
              | Some (mkObject (IArray _) _ _) => true
              | _ => false
              end
  | _ => false
  end.

(** [a.length] of an array. *)
Definition array_length (v : value) : nat :=
  match v with
  | VRef l => match lookup h l with
              | Some (mkObject (IArray n) _ _) => n
              | _ => 0
              end
  | _ => 0
  end.

(** [typeof v === 'function'] *)
Definition is_function (v : value) : bool :=
  match v with
  | VNative _ => true
  | VRef l => match lookup h l with
              | Some (mkObject (IFunction _) _ _) => true
              | _ => false
              end
  | _ => false
  end.

(** *** Calls *)

Definition call_native (f : native) (this : value) (args : list value) : outcome value :=
  match f with
  | NHasOwnProperty =>
      match this with
      | VUndefined | VNull => Throw TypeError
      | _ => match args with
             | VString key :: _ => Ret (VBool (has_own this key))
             | _ => Foreign
             end
      end
  | NObjectValueOf =>
      match this with
      | VUndefined | VNull => Throw TypeError
      | VRef _ | VNative _ => Ret this
      | _ => Foreign
      end
  | NNumberValueOf =>
      match this with
      | VNumber x => Ret (VNumber x)
      | VRef l => match lookup h l with
                  | Some (mkObject (INumber x) _ _) => Ret (VNumber x)
                  | Some _ => Throw TypeError
                  | None => Foreign
                  end
      | _ => Throw TypeError
      end
  | NStringValueOf =>
      match this with
      | VString s => Ret (VString s)
      | VRef l => match lookup h l with
                  | Some (mkObject (IString s) _ _) => Ret (VString s)
                  | Some _ => Throw TypeError
                  | None => Foreign
                  end
      | _ => Throw TypeError
      end
  | NBooleanValueOf =>
      match this with
      | VBool b => Ret (VBool b)
      | VRef l => match lookup h l with
                  | Some (mkObject (IBoolean b) _ _) => Ret (VBool b)
                  | Some _ => Throw TypeError
                  | None => Foreign
                  end
      | _ => Throw TypeError
      end
  | NDateValueOf =>
      match this with
      | VRef l => match lookup h l with
                  | Some (mkObject (IDate t) _ _) => Ret (VNumber t)
                  | Some _ => Throw TypeError
                  | None => Foreign
                  end
      | _ => Throw TypeError
      end
  end.

Definition call_code (c : fn_code) (this : value) (args : list value) : outcome value :=
  match c with
  | RynoObject_eq => Ret (VBool (strict_eq this (nth 0 args VUndefined)))
  | Opaque => Foreign
  end.

(** [f.call(this, ...args)]; calling a non-function is a [TypeError]. *)
Definition call (f this : value) (args : list value) : outcome value :=
  match f with
  | VNative n => call_native n this args
  | VRef l =>
      match lookup h l with
      | Some (mkObject (IFunction c) _ _) => call_code c this args
      | Some _ => Throw TypeError
      | None => Foreign
      end
  | _ => Throw TypeError
  end.

(** [this.name(...args)] *)
Definition invoke (this : value) (name : string) (args : list value) : outcome value :=
  call (get this name) this args.

End Heap.
End JS.

(** ** [util.js] *)

Module Util.
Import JS.

(** [var seenObjects = [];] - a list of pairs [[o1, o2]]. *)
Definition seenObjects := list (value * value).

(** [seen(o1, o2)] *)
Fixpoint seen (s : seenObjects) (o1 o2 : value) : bool :=
  match s with
  | [] => false
  | (x, y) :: s' =>
      if strict_eq x o1 && strict_eq y o2 then true else seen s' o1 o2
  end.

(** [mark(o1, o2)]: [seenObjects.push([o1, o2])] *)
Definition mark (o1 o2 : value) (s : seenObjects) : seenObjects := s ++ [(o1, o2)].

(** [unmark(o1, o2)]: splice out the first matching pair, if any. *)
Fixpoint unmark (o1 o2 : value) (s : seenObjects) : seenObjects :=
  match s with
  | [] => []
  | (x, y) :: s' =>
      if strict_eq x o1 && strict_eq y o2 then s' else (x, y) :: unmark o1 o2 s'
  end.

(** A computation that may update [seenObjects]. The list is returned on
    every exit, also when an exception propagates; with [OutOfFuel] it is
    the list at the moment the stack ran out. *)
Definition M (A : Type) := seenObjects -> outcome A * seenObjects.

(** [detectRecursion(o1, o2, f)].  [f] is a closure: [R] is the type of the
    variables it captures and assigns (the [r] of [arrayEq] and [objectEq]),
    [r0] their value before the call.  The result pairs the returned boolean
    with the captured variables afterwards.
    [try { f(); } finally { unmark(o1, o2); }] unmarks when [f] returns and
    when it raises.  [unmark(o1, o2)] is a call itself: where the stack has
    run out it fails like the call that exhausted it, and the pair stays.
    The run is cut there: [OutOfFuel] comes with [seenObjects] as it was when
    the stack ran out, the pairs of the comparisons in progress still in it.
    Which of the enclosing [finally] blocks find room again for their
    [unmark] while the error unwinds depends on the engine, and is not
    modelled. *)
Definition detectRecursion {R} (o1 o2 : value) (f : R -> M R) (r0 : R) : M (bool * R) :=
  fun s =>
    if seen s o1 o2 then (Ret (true, r0), s)
    else
      let s1 := mark o1 o2 s in
      let '(res, s2) := f r0 s1 in
      match res with
      | OutOfFuel => (OutOfFuel, s2)
      | _ => (bind res (fun r => Ret (false, r)), unmark o1 o2 s2)
      end.

(** [detectRecursion(o1, f)]: with two arguments, [o2] is [undefined]. *)
Definition detectRecursion1 {R} (o1 : value) (f : R -> M R) (r0 : R) : M (bool * R) :=
  detectRecursion o1 VUndefined f r0.

(** The strings [type] returns. *)
Inductive type_tag :=
| TNull | TUndefined | TNaN | TArray | TArguments | TFunction | TString
| TNumber | TBoolean | TDate | TRegExp | TObject | TUnknown.

Definition type_name (t : type_tag) : string :=
  match t with
  | TNull => "null"
  | TUndefined => "undefined"
  | TNaN => "NaN"
  | TArray => "array"
  | TArguments => "arguments"
  | TFunction => "function"
  | TString => "string"
  | TNumber => "number"
  | TBoolean => "boolean"
  | TDate => "date"
  | TRegExp => "regexp"
  | TObject => "object"
  | TUnknown => "unknown"
  end.

Definition type_tag_eqb (s t : type_tag) : bool :=
  match s, t with
  | TNull, TNull | TUndefined, TUndefined | TNaN, TNaN | TArray, TArray
  | TArguments, TArguments | TFunction, TFunction | TString, TString
  | TNumber, TNumber | TBoolean, TBoolean | TDate, TDate | TRegExp, TRegExp
  | TObject, TObject | TUnknown, TUnknown => true
  | _, _ => false
  end.

(** The loop shared by [arrayEq] and [objectEq]:
    [for (...) { if (!test(k)) { r = false; break; } }], run with [r] as
    the captured variable. *)
Fixpoint for_each {K} (test : K -> M bool) (ks : list K) (r : bool) : M bool :=
  fun s =>
    match ks with
    | [] => (Ret r, s)
    | k :: ks' =>
        match test k s with
        | (Ret true, s') => for_each test ks' r s'
        | (Ret false, s') => (Ret false, s')
        | (Throw e, s') => (Throw e, s')
        | (Foreign, s') => (Foreign, s')
        | (OutOfFuel, s') => (OutOfFuel, s')
        end
    end.

Section Heap.
Variable h : heap.

(** The [switch (toString.call(o))] of [type], falling through to
    [return 'unknown']. *)
Definition type_switch (o : value) (str : string) : outcome type_tag :=
  if String.eqb str "[object Array]" then Ret TArray
  else if String.eqb str "[object Arguments]" then Ret TArguments
  else if String.eqb str "[object Function]" then Ret TFunction
  else if String.eqb str "[object String]" then Ret TString
  else if String.eqb str "[object Number]" then Ret TNumber
  else if String.eqb str "[object Boolean]" then Ret TBoolean
  else if String.eqb str "[object Date]" then Ret TDate
  else if String.eqb str "[object RegExp]" then Ret TRegExp
  else if String.eqb str "[object Object]" then
    bind (invoke h o "hasOwnProperty" [VString "callee"]) (fun c =>
    if to_boolean c then Ret TArguments else Ret TObject)
  else Ret TUnknown.

(** [type(o)] *)
Definition type (o : value) : outcome type_tag :=
  if strict_eq o VNull then Ret TNull
  else if strict_eq o VUndefined then Ret TUndefined
  else if negb (strict_eq o o) then Ret TNaN
  else
    match toString_call h o with
    | None => Foreign
    | Some str => type_switch o str
    end.

(** [a && a.objectId && typeof a.eq === 'function'] *)
Definition is_delegate (a : value) : bool :=
  to_boolean a && to_boolean (get h a "objectId") && is_function h (get h a "eq").

(** The truth value of what a nested [eq] returned, as [if (!eq(...))]
    tests it. *)
Definition truthy (m : M value) : M bool :=
  fun s => let '(res, s') := m s in (bind res (fun v => Ret (to_boolean v)), s').

Section Rec.
(** The recursive calls of [eq] made from [arrayEq] and [objectEq]. *)
Variable eq : value -> value -> M value.

(** The test of the loop of [arrayEq]: [eq(a[i], b[i])], as a condition. *)
Definition arrayEq_test (a b : value) (i : nat) : M bool :=
  truthy (eq (get h a (index_key i)) (get h b (index_key i))).

(** [arrayEq(a, b)] *)
Definition arrayEq (a b : value) : M bool :=
  fun s =>
    if negb (isArray h a) || negb (isArray h b) then (Ret false, s)
    else if negb (Nat.eqb (array_length h a) (array_length h b)) then (Ret false, s)
    else
      let f := for_each (arrayEq_test a b) (seq 0 (array_length h a)) in
      let '(res, s') := detectRecursion a b f true s in
      (bind res (fun '(_, r) => Ret r), s').

(** The tests of the loop of [objectEq]:
    [b.hasOwnProperty(key)], then [eq(a[key], b[key])]. *)
Definition objectEq_test (a b : value) (key : string) : M bool :=
  fun s =>
    match invoke h b "hasOwnProperty" [VString key] with
    | Ret c =>
        if negb (to_boolean c) then (Ret false, s)
        else truthy (eq (get h a key) (get h b key)) s
    | Throw e => (Throw e, s)
    | Foreign => (Foreign, s)
    | OutOfFuel => (OutOfFuel, s)
    end.

(** [objectEq(a, b)] *)
Definition objectEq (a b : value) : M bool :=
  fun s =>
    match Object_keys h a with
    | Ret akeys =>
        match Object_keys h b with
        | Ret bkeys =>
            if negb (Nat.eqb (List.length akeys) (List.length bkeys)) then (Ret false, s)
            else
              let f := for_each (objectEq_test a b) akeys in
              let '(res, s') := detectRecursion a b f true s in
              (bind res (fun '(_, r) => Ret r), s')
        | Throw e => (Throw e, s)
        | Foreign => (Foreign, s)
        | OutOfFuel => (OutOfFuel, s)
        end
    | Throw e => (Throw e, s)
    | Foreign => (Foreign, s)
    | OutOfFuel => (OutOfFuel, s)
    end.

Definition pure {A} (m : outcome A) : M A := fun s => (m, s).

Definition boolean (m : M bool) : M value :=
  fun s => let '(res, s') := m s in (bind res (fun r => Ret (VBool r)), s').

(** The body of [eq(a, b)]. *)
Definition eq_body (a b : value) : M value :=
  if strict_eq a b then pure (Ret (VBool true))
  else if is_delegate a then pure (invoke h a "eq" [b])
  else
    match type a with
    | Ret atype =>
        match type b with
        | Ret btype =>
            if negb (type_tag_eqb atype btype) then pure (Ret (VBool false))
            else
              match atype with
              | TBoolean | TString | TDate | TNumber =>
                  pure (bind (invoke h a "valueOf" []) (fun x =>
                        bind (invoke h b "valueOf" []) (fun y =>
                        Ret (VBool (strict_eq x y)))))
              | TRegExp =>
                  pure (Ret (VBool
                    (strict_eq (get h a "source") (get h b "source") &&
                     strict_eq (get h a "global") (get h b "global") &&
                     strict_eq (get h a "multiline") (get h b "multiline") &&
                     strict_eq (get h a "ignoreCase") (get h b "ignoreCase"))))
              | TArray => boolean (arrayEq a b)
              | TObject => boolean (objectEq a b)
              | _ => pure (Ret (VBool false))
              end
        | Throw e => pure (Throw e)
        | Foreign => pure Foreign
        | OutOfFuel => pure OutOfFuel
        end
    | Throw e => pure (Throw e)
    | Foreign => pure Foreign
    | OutOfFuel => pure OutOfFuel
    end.

End Rec.

(** [eq(a, b)], with [fuel] bounding the depth of nested calls. *)
Fixpoint eq (fuel : nat) (a b : value) : M value :=
  match fuel with
  | 0 => pure OutOfFuel
  | S fuel' => eq_body (eq fuel') a b
  end.

(** The exported [arrayEq] and [objectEq], whose nested calls go to [eq]. *)
Definition arrayEq_top (fuel : nat) : value -> value -> M bool := arrayEq (eq fuel).
Definition objectEq_top (fuel : nat) : value -> value -> M bool := objectEq (eq fuel).

End Heap.
End Util.

(** ** Building heaps

    Literals of the source language, used to write down concrete inputs. *)

Module Build.
Import JS.

Fixpoint elements (i : nat) (vs : list value) : list (string * property) :=
  match vs with
  | [] => []
  | v :: vs' => (index_key i, data v true) :: elements (S i) vs'
  end.

(** [[v0, v1, ...]] *)
Definition array (vs : list value) : object :=
  mkObject (IArray (List.length vs)) ProtoBuiltin (elements 0 vs).

Definition fields (kvs : list (string * value)) : list (string * property) :=
  map (fun kv => (fst kv, data (snd kv) true)) kvs.

(** [{k0: v0, k1: v1, ...}] *)
Definition plain (kvs : list (string * value)) : object :=
  mkObject IObject ProtoBuiltin (fields kvs).

Definition num (n : nat) : value := VNumber (number_of_nat n).


(** [new RegExp(source, flags)]: each flag letter sets its bit, wherever it
    stands in [flags]. *)
Fixpoint has_flag (c : ascii) (flags : string) : bool :=
  match flags with
  | EmptyString => false
  | String d flags' => Ascii.eqb c d || has_flag c flags'
  end.

Definition RegExp (source flags : string) : object :=
  mkObject
    (IRegExp (mkRegExp source (has_flag "g" flags) (has_flag "i" flags)
                (has_flag "m" flags) (has_flag "y" flags) (has_flag "u" flags)
                (has_flag "s" flags)))
    ProtoBuiltin [].

(** [new Date(NaN)] and the like. *)
Definition Date (time : spec_float) : object := mkObject (IDate time) ProtoBuiltin [].

(** [Object.create(null)] *)
Definition bare : object := mkObject IObject ProtoNull [].

End Build.

(** ** [util.js]: [camelize], [underscore], [capitalize]

    A string is the sequence of its UTF-16 code units; the model holds the
    strings whose code units are below 256, one [ascii] each.  The regular
    expressions of the three functions test ASCII classes and [\s] only, and
    copy every other code unit. *)

Module Strings.
Import JS.

Definition code (c : ascii) : nat := nat_of_ascii c.

Definition between (lo hi : nat) (c : ascii) : bool :=
  Nat.leb lo (code c) && Nat.leb (code c) hi.

(** [[a-z]], [[A-Z]], [\d], [\w] and [\s] (of the code units below 256: tab
    to carriage return, space, no-break space). *)
Definition lower (c : ascii) : bool := between 97 122 c.
Definition upper (c : ascii) : bool := between 65 90 c.
Definition digit (c : ascii) : bool := between 48 57 c.
Definition word (c : ascii) : bool :=
  lower c || upper c || digit c || Ascii.eqb c "_".
Definition space (c : ascii) : bool :=
  between 9 13 c || Nat.eqb (code c) 32 || Nat.eqb (code c) 160.

(** [c.toUpperCase()] of an ASCII code unit. *)
Definition upcase (c : ascii) : ascii :=
  if lower c then ascii_of_nat (code c - 32) else c.

(** [c.toLowerCase()] of a code unit below 256: the capitals of ASCII and
    those of Latin-1 ([U+00C0] to [U+00DE] but the multiplication sign). *)
Definition downcase (c : ascii) : ascii :=
  if upper c || (between 192 222 c && negb (Nat.eqb (code c) 215))
  then ascii_of_nat (code c + 32) else c.

(** [s.toLowerCase()] *)
Fixpoint toLowerCase (s : string) : string :=
  match s with
  | EmptyString => EmptyString
  | String c s' => String (downcase c) (toLowerCase s')
  end.

(** [s.replace(/(?:[-_])(\w)/g, function(_, c) { return c ? c.toUpperCase() : ''; })]:
    the scan goes left to right; a match is a hyphen or underscore followed
    by a word character; it is replaced by that character in upper case and
    the scan resumes after it. *)
Fixpoint camelize_string (s : string) : string :=
  match s with
  | EmptyString => EmptyString
  | String c rest =>
      match rest with
      | String d rest' =>
          if (Ascii.eqb c "-" || Ascii.eqb c "_") && word d
          then String (upcase d) (camelize_string rest')
          else String c (camelize_string rest)
      | EmptyString => String c EmptyString
      end
  end.

(** [camelize(s)] *)
Definition camelize (s : value) : value :=
  match s with
  | VString str => VString (camelize_string str)
  | _ => s
  end.

(** [s.replace(/([a-z\d])([A-Z]+)/g, '$1_$2')]: a match starts at a
    lower-case letter or digit followed by a capital, and an underscore goes
    between the two.  The capitals of the match are copied; none of them can
    start a match, so the steps that follow copy them one by one. *)
Fixpoint separate_words (s : string) : string :=
  match s with
  | EmptyString => EmptyString
  | String c rest =>
      match rest with
      | String d _ =>
          if (lower c || digit c) && upper d
          then String c (String "_" (separate_words rest))
          else String c (separate_words rest)
      | EmptyString => String c EmptyString
      end
  end.

(** [s.replace(/[-\s]+/g, '_')]: the first character of a run of hyphens and
    white space becomes an underscore, the rest of the run ([in_run]) is
    dropped. *)
Fixpoint join_words (in_run : bool) (s : string) : string :=
  match s with
  | EmptyString => EmptyString
  | String c rest =>
      if Ascii.eqb c "-" || space c
      then if in_run then join_words true rest else String "_" (join_words true rest)
      else String c (join_words false rest)
  end.

Definition underscore_string (s : string) : string :=
  toLowerCase (join_words false (separate_words s)).

(** [underscore(s)] *)
Definition underscore (s : value) : value :=
  match s with
  | VString str => VString (underscore_string str)
  | _ => s
  end.

(** [s[0].toUpperCase()]: one code unit in upper case.  Outside ASCII the
    result can leave the strings of the model ([U+00FF] gives [U+0178]):
    the model stops there. *)
Definition toUpperCase_unit (c : ascii) : outcome string :=
  if Nat.ltb (code c) 128 then Ret (String (upcase c) EmptyString) else Foreign.

(** [capitalize(s)] *)
Definition capitalize (s : value) : outcome value :=
  match s with
  | VString (String c rest) =>
      bind (toUpperCase_unit c) (fun u => Ret (VString (u ++ rest)%string))
  | _ => Ret s
  end.

End Strings.

(** ** [util.js]: [getPath]

    [getPath] reads properties by name, whatever the name, and asks whether
    an array has a property ([head in o]).  Both go up the prototype chain
    into the built-in prototypes, whose properties depend on the engine:
    [builtin_has] says which names the built-in prototype chain of a kind
    defines.  Only [hasOwnProperty] and [valueOf] have a value in the model;
    reading another built-in member ends the run as [Foreign].
    [acc.push.apply(acc, y)] passes the elements of [y] as arguments, and an
    engine takes only so many: [max_arguments] of them.  [reduce] builds a new
    array, so the heap is threaded through. *)

Module Path.
Import JS.

(** [path.split('.')] *)
Fixpoint split (path : string) : list string :=
  match path with
  | EmptyString => [EmptyString]
  | String c rest =>
      if Ascii.eqb c "." then EmptyString :: split rest
      else match split rest with
           | seg :: segs => String c seg :: segs
           | [] => [String c EmptyString]
           end
  end.

(** Where the lookup of a property name ends. *)
Inductive slot :=
| Data (v : value)         (* at a property of an object of the heap *)
| Builtin (c : jsclass)    (* not in the heap: the built-in prototypes of [c] are next *)
| Missing                  (* the chain ended without it *)
| Unknown.                 (* at a dangling reference *)

Section Engine.
Variable builtin_has : jsclass -> string -> bool.
Variable max_arguments : nat.

Section Heap.
Variable h : heap.

Fixpoint find_from (n : nat) (l : loc) (key : string) : slot :=
  match n with
  | 0 => Unknown
  | S n' =>
      match lookup h l with
      | None => Unknown
      | Some o =>
          match assoc key (own_props o) with
          | Some p => Data (p_value p)
          | None =>
              match o_proto o with
              | ProtoNull => Missing
              | ProtoBuiltin => Builtin (class_of_internal (o_internal o))
              | ProtoObj l' => find_from n' l' key
              end
          end
      end
  end.

(** The lookup of [key] from [v].  [null] and [undefined] have no
    properties: reading one raises. *)
Definition find (v : value) (key : string) : outcome slot :=
  match v with
  | VUndefined | VNull => Throw TypeError
  | VRef l => Ret (find_from (List.length h) l key)
  | VString s =>
      Ret match assoc key (exotic_props (IString s)) with
          | Some p => Data (p_value p)
          | None => Builtin CString
          end
  | VNumber _ => Ret (Builtin CNumber)
  | VBool _ => Ret (Builtin CBoolean)
  | VSymbol _ => Ret (Builtin (COther "Symbol"))
  | VNative _ => Ret (Builtin CFunction)
  end.

(** Does the built-in prototype chain of [c] define [key]? *)
Definition builtin_defines (c : jsclass) (key : string) : bool :=
  match builtin_get c key with
  | VUndefined => builtin_has c key
  | _ => true
  end.

(** [v[key]] *)
Definition read (v : value) (key : string) : outcome value :=
  bind (find v key) (fun sl =>
  match sl with
  | Data x => Ret x
  | Builtin c =>
      match builtin_get c key with
      | VUndefined => if builtin_has c key then Foreign else Ret VUndefined
      | x => Ret x
      end
  | Missing => Ret VUndefined
  | Unknown => Foreign
  end).

(** [key in v]; a [TypeError] unless [v] is an object. *)
Definition has_property (v : value) (key : string) : outcome bool :=
  match v with
  | VRef _ =>
      bind (find v key) (fun sl =>
      match sl with
      | Data _ => Ret true
      | Builtin c => Ret (builtin_defines c key)
      | Missing => Ret false
      | Unknown => Foreign
      end)
  | _ => Throw TypeError
  end.

(** The elements [y[0]], ..., [y[y.length - 1]] that [acc.push.apply(acc, y)]
    pushes. *)
Fixpoint read_all (y : value) (keys : list string) : outcome (list value) :=
  match keys with
  | [] => Ret []
  | k :: keys' =>
      bind (read y k) (fun v => bind (read_all y keys') (fun vs => Ret (v :: vs)))
  end.

(** The function given to [reduce], called on one item [x].
    [acc.push.apply(acc, y)] raises a [RangeError] when [y] has more elements
    than the engine takes as arguments. *)
Definition gather (head : string) (acc : list value) (x : value) : outcome (list value) :=
  if negb (to_boolean x) then Ret acc
  else
    bind (read x head) (fun y =>
    if isArray h y
    then if Nat.ltb max_arguments (array_length h y) then Throw RangeError
         else bind (read_all y (map index_key (seq 0 (array_length h y)))) (fun ys =>
              Ret (acc ++ ys))
    else Ret (acc ++ [y])).

(** The loop of [Array.prototype.reduce]: over the indices the array has, in
    order. *)
Fixpoint reduce_loop (head : string) (o : value) (ks : list nat) (acc : list value)
  : outcome (list value) :=
  match ks with
  | [] => Ret acc
  | k :: ks' =>
      bind (has_property o (index_key k)) (fun present =>
      if present
      then bind (read o (index_key k)) (fun x =>
           bind (gather head acc x) (fun acc' => reduce_loop head o ks' acc'))
      else reduce_loop head o ks' acc)
  end.

(** [o.reduce(function(acc, x) {...}, [])]: [reduce] is looked up like any
    property.  It is [Array.prototype.reduce] when the lookup leaves the heap
    at an array; a property of the heap is someone else's function, or none. *)
Definition reduce (head : string) (o : value) : outcome (list value) :=
  bind (find o "reduce") (fun sl =>
  match sl with
  | Builtin CArray => reduce_loop head o (seq 0 (array_length h o)) []
  | Builtin c => if builtin_has c "reduce" then Foreign else Throw TypeError
  | Data f => if is_function h f then Foreign else Throw TypeError
  | Missing => Throw TypeError
  | Unknown => Foreign
  end).

(** One segment: the body of [_getPath] up to the test of [tail].  The array
    [reduce] returns is new: it goes at the end of the heap. *)
Definition segment (head : string) (o : value) : outcome (value * heap) :=
  if isArray h o then
    bind (has_property o head) (fun present =>
    if negb present
    then bind (reduce head o) (fun acc =>
         Ret (VRef (List.length h), h ++ [Build.array acc]))
    else bind (read o head) (fun v => Ret (v, h)))
  else bind (read o head) (fun v => Ret (v, h)).

End Heap.

(** [_getPath(o, pathSegments)] for [pathSegments = head :: tail] *)
Fixpoint resolve (head : string) (tail : list string) (o : value) (h : heap)
  : outcome (value * heap) :=
  if strict_eq o VNull || strict_eq o VUndefined then Ret (VUndefined, h)
  else
    bind (segment h head o) (fun '(o', h') =>
    match tail with
    | [] => Ret (o', h')
    | head' :: tail' =>
        if to_boolean o' then resolve head' tail' o' h' else Ret (VUndefined, h')
    end).

(** [_getPath(o, pathSegments)]; [pathSegments[0]] of an empty array is
    [undefined], which names the property ["undefined"]. *)
Definition _getPath (o : value) (pathSegments : list string) (h : heap)
  : outcome (value * heap) :=
  resolve (hd "undefined" pathSegments) (tl pathSegments) o h.

(** [getPath(o, path)] *)
Definition getPath (o : value) (path : string) (h : heap) : outcome (value * heap) :=
  _getPath o (split path) h.

End Engine.
End Path.

(** ** Vocabulary of the statements *)

Import JS Util.

(** A computation leaves [seenObjects] as it found it, however it ends. *)
Definition restores {A} (m : M A) : Prop := forall s, snd (m s) = s.

(** A computation that ends (it returns, raises or hands over to foreign
    code) leaves [seenObjects] as it found it.  Nothing is said of a run
    that exhausts the stack. *)
Definition settles {A} (m : M A) : Prop :=
  forall s, fst (m s) <> OutOfFuel -> snd (m s) = s.

(** The pairs of heap objects.  Those that [seenObjects] does not hold yet
    bound the number of composite comparisons that can still be nested. *)
Definition pairs (h : heap) : list (loc * loc) :=
  list_prod (seq 0 (List.length h)) (seq 0 (List.length h)).

(** A pair of heap objects that [seenObjects] does not hold. *)
Definition unseen (s : seenObjects) (p : loc * loc) : bool :=
  negb (seen s (VRef (fst p)) (VRef (snd p))).

(** How many pairs can still be marked. *)
Definition headroom (h : heap) (s : seenObjects) : nat :=
  List.length (filter (unseen s) (pairs h)).

(** A run that ended: it returned, threw, or handed control to foreign code. *)
Definition halted {A} (res : outcome A) : Prop := res <> OutOfFuel.


(** The property names through which [util.js] reaches other code. *)
Definition reserved (key : string) : bool :=
  String.eqb key "objectId" || String.eqb key "eq" ||
  String.eqb key "hasOwnProperty" || String.eqb key "valueOf".

(** A reference points into the heap. *)
Definition valid (h : heap) (v : value) : bool :=
  match v with
  | VRef l => Nat.ltb l (List.length h)
  | _ => true
  end.

(** No name occurs twice. *)
Fixpoint distinct (ks : list string) : bool :=
  match ks with
  | [] => true
  | k :: ks' => negb (existsb (String.eqb k) ks') && distinct ks'
  end.

(** An object as literals and constructors make it: the built-in prototype,
    own properties that are enumerable, hold values of the heap and have
    distinct names, none of them [reserved]. *)
Definition ordinary_object (h : heap) (o : object) : bool :=
  match o_proto o with ProtoBuiltin => true | _ => false end &&
  forallb (fun kp => negb (reserved (fst kp)) && p_enumerable (snd kp) &&
                     valid h (p_value (snd kp))) (o_props o) &&
  distinct (map fst (o_props o)).

(** A heap of ordinary objects. *)
Definition ordinary (h : heap) : bool := forallb (ordinary_object h) h.

(** A string of decimal digits, as the index keys are. *)
Fixpoint digits (s : string) : bool :=
  match s with
  | EmptyString => true
  | String c s' => (Nat.leb 48 (nat_of_ascii c) && Nat.leb (nat_of_ascii c) 57) && digits s'
  end.

(** A result that is a boolean, unless the fuel ran out. *)
Definition boolish (res : outcome value) : Prop :=
  res = OutOfFuel \/ exists r, res = Ret (VBool r).

(** [seenObjects] with every pair swapped: what the guard holds when the
    same comparison is run with its arguments exchanged. *)
Definition mirror (s : seenObjects) : seenObjects :=
  map (fun p => (snd p, fst p)) s.

(** Two runs with exchanged arguments, under mirrored guards, that both
    return, return the same value. *)
Definition symmetric (h : heap) (rec : value -> value -> M value) : Prop :=
  forall x y s v1 v2,
    valid h x = true -> valid h y = true ->
    fst (rec x y s) = Ret v1 -> fst (rec y x (mirror s)) = Ret v2 -> v1 = v2.

(** No two entries of [seenObjects] are the same pair (under [===]). *)
Fixpoint no_duplicates (s : seenObjects) : bool :=
  match s with
  | [] => true
  | (x, y) :: s' => negb (seen s' x y) && no_duplicates s'
  end.

(** The message of the failed assertion of [eq_checked]. *)
Definition duplicate_pair : string := "duplicate pair in seenObjects".

(** [eq] with an assertion at the entry of every call, nested ones included:
    [seenObjects] holds no pair twice.  A failed assertion throws
    [duplicate_pair], which nothing catches. *)
Fixpoint eq_checked (h : heap) (fuel : nat) (a b : value) : M value :=
  fun s =>
    match fuel with
    | 0 => (OutOfFuel, s)
    | S fuel' =>
        if no_duplicates s then eq_body h (eq_checked h fuel') a b s
        else (Throw duplicate_pair, s)
    end.

(** Two versions of the nested comparison that agree on guards without
    duplicates give the same [eq]. *)
Definition agree (rec rec' : value -> value -> M value) : Prop :=
  forall x y s, no_duplicates s = true -> rec' x y s = rec x y s.

(** The only exception the modelled code raises is a [TypeError]. *)
Definition raises_only_TypeError {A} (res : outcome A) : Prop :=
  forall e, res = Throw e -> e = TypeError.

(** A value that is not a reference to an object. *)
Definition is_primitive (v : value) : bool :=
  match v with VRef _ => false | _ => true end.

(** Two primitives that are not [===]: elements that differ and are no
    back-edge. *)
Definition divergent (x y : value) : bool :=
  is_primitive x && is_primitive y && negb (strict_eq x y).

(** What one nested comparison of a composite pair is about: two values to
    compare, or nothing when the key is missing from the second object (the
    loop then stops with [false]). *)
Definition child := option (value * value).

Definition child_test (rec : value -> value -> M value) (c : child) : M bool :=
  match c with
  | Some (x, y) => truthy (rec x y)
  | None => fun s => (Ret false, s)
  end.

(** The nested comparisons [eq(a, b)] makes when it reaches the loop of
    [arrayEq] or [objectEq]; [None] when it answers without a loop. *)
Definition children_of (h : heap) (a b : value) : option (list child) :=
  if strict_eq a b then None
  else
    match type h a, type h b with
    | Ret TArray, Ret TArray =>
        if isArray h a && isArray h b
           && Nat.eqb (array_length h a) (array_length h b)
        then Some (map (fun i => Some (get h a (index_key i), get h b (index_key i)))
                       (seq 0 (array_length h a)))
        else None
    | Ret TObject, Ret TObject =>
        match Object_keys h a, Object_keys h b with
        | Ret akeys, Ret bkeys =>
            if Nat.eqb (List.length akeys) (List.length bkeys)
            then Some (map (fun k => if has_own h b k
                                     then Some (get h a k, get h b k) else None)
                           akeys)
            else None
        | _, _ => None
        end
    | _, _ => None
    end.

(** A nested comparison that answers from a table. *)
Definition oracle (R : value -> value -> bool) : value -> value -> M value :=
  fun x y s => (Ret (VBool (R x y)), s).

(** The empty relation. *)
Definition never (x y : value) : bool := false.

(** Values can be told apart (structurally: [NaN] is [NaN] here). *)
Definition spec_float_eq_dec (x y : spec_float) : {x = y} + {x <> y}.
Proof. decide equality; auto using Bool.bool_dec, Pos.eq_dec, Z.eq_dec. Defined.

Definition value_eq_dec (x y : value) : {x = y} + {x <> y}.
Proof.
  decide equality;
    auto using Bool.bool_dec, spec_float_eq_dec, string_dec, Nat.eq_dec.
  decide equality.
Defined.

(** A finite relation on values, as the list of its pairs. *)
Definition related (ps : list (value * value)) (x y : value) : bool :=
  existsb (fun p => if value_eq_dec (fst p) x
                    then if value_eq_dec (snd p) y then true else false
                    else false) ps.

(** Every pair of [R] passes one step of [eq] when nested comparisons are
    answered by [R] and the assumptions [A]: with no assumptions, [R] is a
    bisimulation. *)
Definition closed (h : heap) (A R : value -> value -> bool) : Prop :=
  forall x y, R x y = true ->
    fst (eq_body h (oracle (fun u v => R u v || A u v)) x y []) = Ret (VBool true).

(** The types whose values [eq] compares by identity only: the [default]
    branch of its [switch]. *)
Definition compared_by_identity (t : type_tag) : bool :=
  match t with
  | TBoolean | TString | TDate | TNumber | TRegExp | TArray | TObject => false
  | _ => true
  end.

(** The primitive value a boolean, a string, a number or a date stands for,
    boxed or not, with the type it is compared at. *)
Definition primitive_of (h : heap) (v : value) : option (type_tag * value) :=
  match v with
  | VBool _ => Some (TBoolean, v)
  | VString _ => Some (TString, v)
  | VNumber x => Some (match x with S754_nan => TNaN | _ => TNumber end, v)
  | VRef l =>
      match lookup h l with
      | Some o =>
          match o_internal o with
          | IBoolean b => Some (TBoolean, VBool b)
          | INumber x => Some (TNumber, VNumber x)
          | IString s => Some (TString, VString s)
          | IDate t => Some (TDate, VNumber t)
          | _ => None
          end
      | None => None
      end
  | _ => None
  end.

(** The composition of two finite relations. *)
Definition compose (ps qs : list (value * value)) (u w : value) : bool :=
  existsb (fun p => related ps u (snd p) && related qs (snd p) w) ps.

(** Every character of a string passes a test. *)
Fixpoint all_chars (p : ascii -> bool) (s : string) : bool :=
  match s with
  | EmptyString => true
  | String c s' => p c && all_chars p s'
  end.

(** A character of a string in under_score_case: no capital (of ASCII or
    Latin-1), no hyphen, no white space. *)
Definition plain_char (c : ascii) : bool :=
  negb (Strings.upper c) &&
  negb (Strings.between 192 222 c && negb (Nat.eqb (Strings.code c) 215)) &&
  negb (Ascii.eqb c "-") && negb (Strings.space c).

(** A lower-case letter or a digit. *)
Definition alnum (c : ascii) : bool := Strings.lower c || Strings.digit c.

(** Where the scan of a name stands: at the start of a word ([Fresh]),
    inside a word, or right after an underscore. *)
Inductive position := Fresh | Inside | AfterUnderscore.

(** snake_case: words of lower-case letters and digits joined by single
    underscores; every word after the first starts with a letter and,
    unless it is the last, has two characters at least. *)
Fixpoint snake (q : position) (s : string) : bool :=
  match s with
  | EmptyString => match q with AfterUnderscore => false | _ => true end
  | String c s' =>
      match q with
      | Fresh => alnum c && snake Inside s'
      | Inside => if Ascii.eqb c "_" then snake AfterUnderscore s'
                  else alnum c && snake Inside s'
      | AfterUnderscore => Strings.lower c && snake Fresh s'
      end
  end.

Definition snake_case (s : string) : bool := snake Fresh s.

(** camelCase: letters and digits, the first not a capital, no capital next
    to another.  [Fresh] is the position after a capital. *)
Fixpoint camel (q : position) (s : string) : bool :=
  match s with
  | EmptyString => true
  | String c s' =>
      match q with
      | Fresh => alnum c && camel Inside s'
      | _ => if Strings.upper c then camel Fresh s' else alnum c && camel Inside s'
      end
  end.

Definition camelCase (s : string) : bool := camel Fresh s.

(** The string starts with a capital. *)
Definition starts_upper (s : string) : bool :=
  match s with String d _ => Strings.upper d | EmptyString => false end.

(** Some hyphen or underscore of the string is followed by a word
    character: [camelize] has a match. *)
Fixpoint has_match (s : string) : bool :=
  match s with
  | EmptyString => false
  | String c rest =>
      match rest with
      | String d _ =>
          (Ascii.eqb c "-" || Ascii.eqb c "_") && Strings.word d || has_match rest
      | EmptyString => false
      end
  end.

(** An array as [getPath] builds them. *)
Definition built (o : object) : Prop := exists vs, o = Build.array vs.

(** An array that inherits [reduce] from [Array.prototype]: it has its
    built-in prototype and no property named [reduce] of its own. *)
Definition inherits_reduce (o : object) : bool :=
  match o_internal o with
  | IArray _ =>
      match o_proto o with ProtoBuiltin => true | _ => false end &&
      match assoc "reduce" (o_props o) with None => true | Some _ => false end
  | _ => true
  end.

(** A run that did not end by an exception. *)
Definition unraised {A} (res : outcome A) : Prop := forall e, res <> Throw e.

(** The only exception a run ends with, if any, is a [RangeError]. *)
Definition raises_only_RangeError {A} (res : outcome A) : Prop :=
  forall e, res = Throw e -> e = RangeError.

(** ** Example heaps *)

Module Examples.
Import Build.

(** [let a = [1]; a.push(a); let b = [1]; b.push(b);] - [a] at 0, [b] at 1. *)
Definition self_arrays : heap :=
  [array [num 1; VRef 0]; array [num 1; VRef 1]].

(** [let a = [1]; a.push(a); let b = [2]; b.push(b);] *)
Definition divergent_arrays : heap :=
  [array [num 1; VRef 0]; array [num 2; VRef 1]].

(** [[Object.create(null)]] at 0 and [[{}]] at 1, whose elements are at 2 and 3. *)
Definition bare_element : heap :=
  [array [VRef 2]; array [VRef 3]; bare; plain []].


(** [[1, 2]] twice, the first with [a1.foo = "bar"]. *)
Definition arrays_with_extra : heap :=
  [mkObject (IArray 2) ProtoBuiltin
     (elements 0 [num 1; num 2] ++ [("foo", data (VString "bar") true)]);
   array [num 1; num 2]].

(** [/a/y] and [/a/] *)
Definition sticky_pair : heap := [RegExp "a" "y"; RegExp "a" ""].

(** [a = {x: 1}] at 0;  [b = {y: 2}] with
    [Object.defineProperty(b, 'x', {value: 1})] (not enumerable) at 1. *)
Definition hidden_key : heap :=
  [plain [("x", num 1)];
   mkObject IObject ProtoBuiltin [("y", data (num 2) true); ("x", hidden (num 1))]].

(** [[{}]] at 0 and [[new RynoObject()]] at 1.  The instance (3) owns a
    non-enumerable [objectId] and inherits [eq] from [RynoObject.prototype] (4). *)
Definition nested_delegate : heap :=
  [array [VRef 2]; array [VRef 3];
   plain [];
   mkObject IObject (ProtoObj 4) [("objectId", hidden (num 1))];
   plain [("eq", VRef 5)];
   mkObject (IFunction RynoObject_eq) ProtoBuiltin []].

(** [new Date(NaN)] twice, and [new Number(NaN)]. *)
Definition invalid_dates : heap :=
  [Date S754_nan; Date S754_nan; mkObject (INumber S754_nan) ProtoBuiltin []].


(** The heaps of the repository's test "handles recursive arrays":
    [a1 = [a1]] at 0, [[a1]] at 1, [[[a1]]] at 2 (its element at 3),
    [back] at 4, [forth] at 5, [x = [x, x]] at 6, [[a1, a1]] at 7,
    [[x, a1]] at 8, [[a1, x]] at 9, [[x, x]] at 10 and
    [[[x, x], [x, x]]] at 11 (its elements at 12 and 13). *)
Definition recursive_arrays : heap :=
  [array [VRef 0]; array [VRef 0]; array [VRef 3]; array [VRef 0];
   array [VRef 5]; array [VRef 4];
   array [VRef 6; VRef 6]; array [VRef 0; VRef 0]; array [VRef 6; VRef 0];
   array [VRef 0; VRef 6]; array [VRef 6; VRef 6];
   array [VRef 12; VRef 13]; array [VRef 6; VRef 6]; array [VRef 6; VRef 6]].

(** "handles complex recursive objects": [a], [b], [c] at 0, 1, 2, first as
    they are built, then with [a.delta = c.delta = 42], then also
    [b.delta = 42]. *)
Definition recursive_objects : heap :=
  [plain [("self", VRef 0); ("other", VRef 1)];
   plain [("self", VRef 1); ("other", VRef 0)];
   plain [("other", VRef 2); ("self", VRef 2)]].

Definition recursive_objects_delta : heap :=
  [plain [("self", VRef 0); ("other", VRef 1); ("delta", num 42)];
   plain [("self", VRef 1); ("other", VRef 0)];
   plain [("other", VRef 2); ("self", VRef 2); ("delta", num 42)]].

Definition recursive_objects_deltas : heap :=
  [plain [("self", VRef 0); ("other", VRef 1); ("delta", num 42)];
   plain [("self", VRef 1); ("other", VRef 0); ("delta", num 42)];
   plain [("other", VRef 2); ("self", VRef 2); ("delta", num 42)]].

(** "handles complex recursive objects and arrays": [x], [y], [z] at 0, 1, 2
    and [a], [b], [c] at 3, 4, 5, as they are built; then after
    [y.push(x)]; then after [z.push(x)] too. *)
Definition mixed_cycles : heap :=
  [array [VRef 3]; array [VRef 5]; array [VRef 4];
   plain [("foo", VRef 0); ("bar", num 42)];
   plain [("foo", VRef 1); ("bar", num 42)];
   plain [("foo", VRef 2); ("bar", num 42)]].

Definition mixed_cycles_y : heap :=
  [array [VRef 3]; array [VRef 5; VRef 0]; array [VRef 4];
   plain [("foo", VRef 0); ("bar", num 42)];
   plain [("foo", VRef 1); ("bar", num 42)];
   plain [("foo", VRef 2); ("bar", num 42)]].

Definition mixed_cycles_yz : heap :=
  [array [VRef 3]; array [VRef 5; VRef 0]; array [VRef 4; VRef 0];
   plain [("foo", VRef 0); ("bar", num 42)];
   plain [("foo", VRef 1); ("bar", num 42)];
   plain [("foo", VRef 2); ("bar", num 42)]].

(** [new String("foo")], [new Number(21)], [new Boolean(false)]. *)
Definition wrappers : heap :=
  [mkObject (IString "foo") ProtoBuiltin [];
   mkObject (INumber (number_of_nat 21)) ProtoBuiltin [];
   mkObject (IBoolean false) ProtoBuiltin []].






End Examples.

(** Inputs of the string helpers, of [getPath] and of the further properties
    of [eq]. *)

Module Samples.
Import Build.

(** Some of the names built-in prototypes define. *)
Definition builtins (c : jsclass) (key : string) : bool :=
  existsb (String.eqb key) ["constructor"; "toString"; "toLocaleString"; "isPrototypeOf"]
  || match c with
     | CArray => existsb (String.eqb key) ["push"; "pop"; "map"; "reduce"; "forEach"; "join"]
     | _ => false
     end.

(** An engine that takes a hundred arguments. *)
Definition max_arguments : nat := 100.

(** [{name: "a", tags: ["x", "y"]}] at 0 and 2, [{name: "b", tags: ["z"]}] at
    1 and 3, [{items: [o0, null, o1], count: 2}] at 4 and 5. *)
Definition tagged_items : heap :=
  [plain [("name", VString "a"); ("tags", VRef 2)];
   plain [("name", VString "b"); ("tags", VRef 3)];
   array [VString "x"; VString "y"];
   array [VString "z"];
   plain [("items", VRef 5); ("count", num 2)];
   array [VRef 0; VNull; VRef 1]].

(** [a = [{x: 1}]] with [a.reduce = 5], at 0 and 1. *)
Definition shadowed_reduce : heap :=
  [mkObject (IArray 1) ProtoBuiltin
     (elements 0 [VRef 1] ++ [("reduce", data (num 5) true)]);
   plain [("x", num 1)]].

(** Two functions. *)
Definition two_functions : heap :=
  [mkObject (IFunction Opaque) ProtoBuiltin [];
   mkObject (IFunction Opaque) ProtoBuiltin []].

(** [{callee: 1}] twice. *)
Definition callee_objects : heap :=
  [plain [("callee", num 1)]; plain [("callee", num 1)]].

(** [new Date(0)] and [new Date(1)], [/a/] and [/b/]. *)
Definition dates_and_regexps : heap :=
  [Date (S754_zero false); Date (number_of_nat 1); RegExp "a" EmptyString;
   RegExp "b" EmptyString].

End Samples.

(** ** Proof automation *)

(** Case analysis on every conditional of the goal. *)
Ltac case_ifs :=
  repeat match goal with
         | |- context [if ?c then _ else _] => destruct c
         end.

(** Case analysis on every scrutinee of the goal. *)
Ltac case_matches :=
  repeat match goal with
         | |- context [match ?x with _ => _ end] => destruct x
         end.

(** Case analysis on the 256 code units. *)
Ltac each_ascii c :=
  destruct c as [[] [] [] [] [] [] [] []]; try discriminate; try reflexivity.

(** ** Properties *)

(** *** Strict equality *)

Lemma SFeqb_sym (x y : spec_float) : SFeqb x y = SFeqb y x.
Proof.
  unfold SFeqb.
  destruct x as [sx|sx| |sx mx ex], y as [sy|sy| |sy my ey]; simpl; try reflexivity;
    try (destruct sx; reflexivity); try (destruct sy; reflexivity);
    try (destruct sx, sy; reflexivity).
  rewrite (Z.compare_antisym ey ex), !Pos.compare_cont_spec, (Pos.compare_antisym my mx).
  simpl.
  destruct sx, sy; try reflexivity;
    destruct (ey ?= ex)%Z; simpl; try reflexivity;
    destruct (my ?= mx)%positive; reflexivity.
Qed.

Lemma SFeqb_refl (x : spec_float) : x <> S754_nan -> SFeqb x x = true.
Proof.
  unfold SFeqb.
  destruct x as [sx|sx| |sx mx ex]; simpl; intros Hx; try congruence.
  - destruct sx; reflexivity.
  - rewrite Z.compare_refl, Pos.compare_cont_refl. destruct sx; reflexivity.
Qed.

Lemma native_eqb_sym (f g : native) : native_eqb f g = native_eqb g f.
Proof. destruct f, g; reflexivity. Qed.

Lemma strict_eq_sym (a b : value) : strict_eq a b = strict_eq b a.
Proof.
  destruct a, b; simpl; try reflexivity.
  - destruct b, b0; reflexivity.
  - apply SFeqb_sym.
  - apply String.eqb_sym.
  - apply Nat.eqb_sym.
  - apply native_eqb_sym.
  - apply Nat.eqb_sym.
Qed.

(** [x === x] holds for every value except [NaN]. *)
Lemma strict_eq_refl (x : value) : x <> NaN -> strict_eq x x = true.
Proof.
  destruct x; simpl; intros Hx; try reflexivity.
  - destruct b; reflexivity.
  - apply SFeqb_refl. intros ->. apply Hx. reflexivity.
  - apply String.eqb_refl.
  - apply Nat.eqb_refl.
  - destruct f; reflexivity.
  - apply Nat.eqb_refl.
Qed.

Lemma strict_eq_NaN_l (x : value) : strict_eq NaN x = false.
Proof. destruct x; reflexivity. Qed.

Lemma strict_eq_ref_l (l : loc) (v : value) : strict_eq (VRef l) v = true -> v = VRef l.
Proof.
  destruct v; simpl; try discriminate.
  intros H. apply Nat.eqb_eq in H. congruence.
Qed.

Lemma isArray_ref (h : heap) (v : value) :
  isArray h v = true -> exists l, v = VRef l /\ l < List.length h.
Proof.
  destruct v; simpl; try discriminate.
  destruct (lookup h l) eqn:E; try discriminate.
  intros _. exists l. split; [reflexivity|].
  apply nth_error_Some. unfold lookup in E. congruence.
Qed.

(** *** The recursion guard: [seen], [mark], [unmark] *)

Lemma seen_mark (s : seenObjects) (o1 o2 x y : value) :
  seen (mark o1 o2 s) x y = seen s x y || (strict_eq o1 x && strict_eq o2 y).
Proof.
  unfold mark. induction s as [|[u v] s IH]; simpl.
  - destruct (strict_eq o1 x && strict_eq o2 y); reflexivity.
  - destruct (strict_eq u x && strict_eq v y); simpl; [reflexivity|apply IH].
Qed.

(** Unmarking a freshly marked pair restores the list: the pair was not there
    before, so the first match is the entry [mark] pushed. *)
Lemma unmark_mark (s : seenObjects) (o1 o2 : value) :
  seen s o1 o2 = false -> strict_eq o1 o1 = true -> strict_eq o2 o2 = true ->
  unmark o1 o2 (mark o1 o2 s) = s.
Proof.
  unfold mark. intros Hs H1 H2. induction s as [|[u v] s IH]; simpl in *.
  - rewrite H1, H2. reflexivity.
  - destruct (strict_eq u o1 && strict_eq v o2); [discriminate|].
    rewrite IH by assumption. reflexivity.
Qed.

Lemma for_each_settles {K} (test : K -> M bool) (ks : list K) (r : bool) :
  (forall k, settles (test k)) -> settles (for_each test ks r).
Proof.
  intros Ht. induction ks as [|k ks IH]; intros s; simpl; [reflexivity|].
  specialize (Ht k s). destruct (test k s) as [[[]| | |] s']; simpl in *;
    intros Hend; try (apply Ht; discriminate); try (exfalso; apply Hend; reflexivity).
  rewrite (IH s' Hend). apply Ht. discriminate.
Qed.

Lemma detectRecursion_settles {R} (o1 o2 : value) (f : R -> M R) (r0 : R) :
  strict_eq o1 o1 = true -> strict_eq o2 o2 = true ->
  (forall r, settles (f r)) -> settles (detectRecursion o1 o2 f r0).
Proof.
  intros H1 H2 Hf s. unfold detectRecursion.
  destruct (seen s o1 o2) eqn:Hs; [reflexivity|].
  specialize (Hf r0 (mark o1 o2 s)).
  destruct (f r0 (mark o1 o2 s)) as [[r| | |] s2]; simpl in *; intros Hend;
    try (rewrite Hf by discriminate; apply unmark_mark; assumption).
  exfalso. apply Hend. reflexivity.
Qed.

Lemma truthy_settles (m : M value) : settles m -> settles (truthy m).
Proof.
  intros Hm s. unfold truthy. specialize (Hm s).
  destruct (m s) as [[v| | |] s']; simpl in *; intros Hend;
    first [apply Hm; discriminate|exfalso; apply Hend; reflexivity].
Qed.

Lemma type_object_ref (h : heap) (v : value) :
  type h v = Ret TObject -> exists l, v = VRef l /\ l < List.length h.
Proof.
  destruct v as [| |b|x|str|id|f|l]; try (cbv; discriminate).
  - destruct b; cbv; discriminate.
  - unfold type; simpl. destruct (negb (SFeqb x x)); discriminate.
  - unfold type; simpl. rewrite String.eqb_refl. cbv. discriminate.
  - unfold type; simpl. rewrite Nat.eqb_refl. cbv. discriminate.
  - destruct f; cbv; discriminate.
  - unfold type, toString_call, class_of; simpl.
    destruct (lookup h l) eqn:E;
      [|rewrite Nat.eqb_refl; simpl; discriminate].
    intros _. exists l. split; [reflexivity|].
    apply nth_error_Some. unfold lookup in E. congruence.
Qed.

Lemma type_ref (h : heap) (l : loc) (o : object) :
  lookup h l = Some o ->
  type h (VRef l) =
  type_switch h (VRef l)
    ("[object " ++ class_tag (class_of_internal (o_internal o)) ++ "]")%string.
Proof.
  intros Ho. unfold type, toString_call. simpl. rewrite Nat.eqb_refl, Ho. reflexivity.
Qed.

Section Restore.
Variable h : heap.

Lemma arrayEq_settles (rec : value -> value -> M value) (a b : value) :
  (forall x y, settles (rec x y)) -> settles (arrayEq h rec a b).
Proof.
  intros Hrec s. unfold arrayEq.
  destruct (isArray h a) eqn:Ha; [|reflexivity].
  destruct (isArray h b) eqn:Hb; [|reflexivity]. simpl.
  destruct (Nat.eqb (array_length h a) (array_length h b)); simpl; [|reflexivity].
  apply isArray_ref in Ha, Hb. destruct Ha as [la [-> _]], Hb as [lb [-> _]].
  assert (HD : settles (detectRecursion (VRef la) (VRef lb)
                  (for_each (arrayEq_test h rec (VRef la) (VRef lb))
                     (seq 0 (array_length h (VRef la)))) true)).
  { apply detectRecursion_settles; try apply Nat.eqb_refl.
    intros r. apply for_each_settles. intros i. apply truthy_settles, Hrec. }
  specialize (HD s). simpl.
  destruct (detectRecursion _ _ _ _ s) as [[[c r]| | |] s']; simpl in *;
    intros Hend; first [apply HD; discriminate|exfalso; apply Hend; reflexivity].
Qed.

Lemma objectEq_test_settles (rec : value -> value -> M value) (a b : value)
    (key : string) :
  (forall x y, settles (rec x y)) -> settles (objectEq_test h rec a b key).
Proof.
  intros Hrec s. unfold objectEq_test.
  destruct (invoke h b "hasOwnProperty" [VString key]); try reflexivity.
  destruct (to_boolean x); simpl; [|reflexivity].
  apply truthy_settles, Hrec.
Qed.

Lemma objectEq_settles (rec : value -> value -> M value) (a b : value) :
  strict_eq a a = true -> strict_eq b b = true ->
  (forall x y, settles (rec x y)) -> settles (objectEq h rec a b).
Proof.
  intros Ha Hb Hrec s. unfold objectEq.
  destruct (Object_keys h a) as [akeys| | |]; try reflexivity.
  destruct (Object_keys h b) as [bkeys| | |]; try reflexivity.
  destruct (Nat.eqb (List.length akeys) (List.length bkeys)); simpl; [|reflexivity].
  assert (HD : settles (detectRecursion a b
                  (for_each (objectEq_test h rec a b) akeys) true)).
  { apply detectRecursion_settles; try assumption.
    intros r. apply for_each_settles. intros k. apply objectEq_test_settles, Hrec. }
  specialize (HD s). simpl.
  destruct (detectRecursion _ _ _ _ s) as [[[c r]| | |] s']; simpl in *;
    intros Hend; first [apply HD; discriminate|exfalso; apply Hend; reflexivity].
Qed.

Lemma eq_body_settles (rec : value -> value -> M value) (a b : value) :
  (forall x y, settles (rec x y)) -> settles (eq_body h rec a b).
Proof.
  intros Hrec s. unfold eq_body, pure, boolean.
  destruct (strict_eq a b); [reflexivity|].
  destruct (is_delegate h a); [reflexivity|].
  destruct (type h a) as [ta| | |] eqn:Ta; try reflexivity.
  destruct (type h b) as [tb| | |] eqn:Tb; try reflexivity.
  destruct (type_tag_eqb ta tb) eqn:Htag; simpl; [|reflexivity].
  destruct ta; try reflexivity.
  - pose proof (arrayEq_settles rec a b Hrec s) as H.
    destruct (arrayEq h rec a b s) as [[r| | |] s']; simpl in *;
      intros Hend; first [apply H; discriminate|exfalso; apply Hend; reflexivity].
  - assert (tb = TObject) by (destruct tb; simpl in Htag; congruence). subst tb.
    apply type_object_ref in Ta, Tb.
    destruct Ta as [la [-> _]], Tb as [lb [-> _]].
    pose proof (objectEq_settles rec (VRef la) (VRef lb)
                  (Nat.eqb_refl _) (Nat.eqb_refl _) Hrec s) as H.
    destruct (objectEq h rec (VRef la) (VRef lb) s) as [[r| | |] s']; simpl in *;
      intros Hend; first [apply H; discriminate|exfalso; apply Hend; reflexivity].
Qed.

(** Whatever way [eq] ends, short of exhausting the stack, [seenObjects] is
    as it was when [eq] was entered. *)
Lemma eq_settles (fuel : nat) (a b : value) : settles (eq h fuel a b).
Proof.
  revert a b. induction fuel as [|fuel IH]; intros a b.
  - intros s _. reflexivity.
  - simpl. apply eq_body_settles. assumption.
Qed.

End Restore.

(** *** Termination *)

Lemma filter_length_lt {A} (f g : A -> bool) (l : list A) (x : A) :
  In x l -> f x = true -> g x = false -> (forall y, g y = true -> f y = true) ->
  List.length (filter g l) < List.length (filter f l).
Proof.
  intros Hin Hf Hg Himp.
  assert (Hle : forall l', List.length (filter g l') <= List.length (filter f l')).
  { induction l' as [|y l' IH]; simpl; [lia|].
    destruct (g y) eqn:Gy.
    - rewrite (Himp y Gy). simpl. lia.
    - destruct (f y); simpl; lia. }
  induction l as [|y l IH]; simpl in *; [contradiction|].
  destruct Hin as [->|Hin].
  - rewrite Hf, Hg. simpl. specialize (Hle l). lia.
  - specialize (IH Hin). destruct (g y) eqn:Gy.
    + rewrite (Himp y Gy). simpl. lia.
    + destruct (f y); simpl; lia.
Qed.

Lemma headroom_mark (h : heap) (s : seenObjects) (la lb : loc) :
  la < List.length h -> lb < List.length h ->
  seen s (VRef la) (VRef lb) = false ->
  headroom h (mark (VRef la) (VRef lb) s) < headroom h s.
Proof.
  intros Ha Hb Hs. unfold headroom.
  apply (filter_length_lt _ _ _ (la, lb)).
  - apply in_prod; apply in_seq; lia.
  - unfold unseen. simpl. rewrite Hs. reflexivity.
  - unfold unseen. simpl. rewrite seen_mark. simpl. rewrite !Nat.eqb_refl.
    rewrite orb_true_r. reflexivity.
  - intros [x y]. unfold unseen. simpl. rewrite seen_mark.
    destruct (seen s (VRef x) (VRef y)); simpl; [discriminate|reflexivity].
Qed.

Lemma headroom_le (h : heap) (s : seenObjects) :
  headroom h s <= List.length h * List.length h.
Proof.
  unfold headroom, pairs.
  eapply Nat.le_trans; [apply filter_length_le|].
  rewrite length_prod, length_seq. lia.
Qed.

Lemma call_halts (h : heap) (f this : value) (args : list value) :
  halted (call h f this args).
Proof.
  unfold halted, call, call_native, call_code.
  case_matches; discriminate.
Qed.

Lemma type_halts (h : heap) (o : value) : halted (type h o).
Proof.
  unfold halted, type.
  destruct (strict_eq o VNull); [discriminate|].
  destruct (strict_eq o VUndefined); [discriminate|].
  destruct (negb (strict_eq o o)); [discriminate|].
  destruct (toString_call h o) as [str|]; [|discriminate].
  unfold type_switch.
  case_ifs; try discriminate.
  pose proof (call_halts h (get h o "hasOwnProperty") o [VString "callee"]) as H.
  unfold invoke. destruct (call _ _ _ _); simpl; try discriminate.
  - destruct (to_boolean x); discriminate.
  - exfalso. apply H. reflexivity.
Qed.

Lemma for_each_halts {K} (test : K -> M bool) (ks : list K) (r : bool)
    (s : seenObjects) :
  (forall k, settles (test k)) -> (forall k, halted (fst (test k s))) ->
  halted (fst (for_each test ks r s)).
Proof.
  intros Hr Ht. induction ks as [|k ks IH]; simpl; [discriminate|].
  specialize (Hr k s). specialize (Ht k).
  destruct (test k s) as [[[]| | |] s']; simpl in *; try discriminate.
  - rewrite (Hr ltac:(discriminate)). apply IH.
  - exfalso. apply Ht. reflexivity.
Qed.

Lemma truthy_halts (m : M value) (s : seenObjects) :
  halted (fst (m s)) -> halted (fst (truthy m s)).
Proof.
  unfold truthy, halted. destruct (m s) as [[]]; simpl; congruence.
Qed.

Section Termination.
Variable h : heap.

Lemma eq_body_halts (rec : value -> value -> M value) (a b : value)
    (s : seenObjects) :
  (forall x y, settles (rec x y)) ->
  (forall x y s', headroom h s' < headroom h s -> halted (fst (rec x y s'))) ->
  halted (fst (eq_body h rec a b s)).
Proof.
  intros Hres Hrec. unfold eq_body, pure, boolean.
  destruct (strict_eq a b); [discriminate|].
  destruct (is_delegate h a); [apply call_halts|].
  pose proof (type_halts h a) as Ta. pose proof (type_halts h b) as Tb.
  destruct (type h a) as [ta| | |] eqn:Ea; try discriminate; try contradiction.
  destruct (type h b) as [tb| | |] eqn:Eb; try discriminate; try contradiction.
  destruct (type_tag_eqb ta tb) eqn:Htag; simpl; [|discriminate].
  assert (Hval : halted (bind (invoke h a "valueOf" [])
            (fun x => bind (invoke h b "valueOf" [])
            (fun y => Ret (VBool (strict_eq x y)))))).
  { pose proof (call_halts h (get h a "valueOf") a []) as Ha.
    pose proof (call_halts h (get h b "valueOf") b []) as Hb.
    unfold invoke. destruct (call h (get h a "valueOf") a []); simpl;
      try discriminate; try contradiction.
    destruct (call h (get h b "valueOf") b []); simpl;
      try discriminate; try contradiction. }
  destruct ta; try discriminate; try exact Hval.
  - (* arrays *)
    unfold arrayEq.
    destruct (isArray h a) eqn:Ia; [|discriminate].
    destruct (isArray h b) eqn:Ib; [|discriminate]. simpl.
    destruct (Nat.eqb _ _); simpl; [|discriminate].
    apply isArray_ref in Ia, Ib.
    destruct Ia as [la [-> Hla]], Ib as [lb [-> Hlb]].
    unfold detectRecursion.
    destruct (seen s (VRef la) (VRef lb)) eqn:Hs; [discriminate|].
    match goal with |- context [for_each ?t ?ks ?r ?s1] =>
      pose proof (for_each_halts t ks r s1) as HF;
      destruct (for_each t ks r s1) as [res s2] end.
    simpl in *. assert (HH : halted res).
    { apply HF.
      - intros i. apply truthy_settles, Hres.
      - intros i. apply truthy_halts, Hrec, headroom_mark; assumption. }
    destruct res; simpl; try discriminate. contradiction.
  - (* objects *)
    assert (tb = TObject) by (destruct tb; simpl in Htag; congruence). subst tb.
    apply type_object_ref in Ea, Eb.
    destruct Ea as [la [-> Hla]], Eb as [lb [-> Hlb]].
    unfold objectEq.
    destruct (Object_keys h (VRef la)) as [akeys| | |] eqn:Ka;
      try discriminate; [|simpl in Ka; destruct (lookup h la); discriminate].
    destruct (Object_keys h (VRef lb)) as [bkeys| | |] eqn:Kb;
      try discriminate; [|simpl in Kb; destruct (lookup h lb); discriminate].
    destruct (Nat.eqb _ _); simpl; [|discriminate].
    unfold detectRecursion.
    destruct (seen s (VRef la) (VRef lb)) eqn:Hs; [discriminate|].
    match goal with |- context [for_each ?t ?ks ?r ?s1] =>
      pose proof (for_each_halts t ks r s1) as HF;
      destruct (for_each t ks r s1) as [res s2] end.
    simpl in *. assert (HH : halted res).
    { apply HF.
      - intros k. apply objectEq_test_settles, Hres.
      - intros k. unfold objectEq_test.
        pose proof (call_halts h (get h (VRef lb) "hasOwnProperty") (VRef lb)
                      [VString k]) as Hc.
        unfold invoke. destruct (call _ _ _ _); simpl; try discriminate;
          try contradiction.
        destruct (to_boolean x); simpl; [|discriminate].
        apply truthy_halts, Hrec, headroom_mark; assumption. }
    destruct res; simpl; try discriminate. contradiction.
Qed.

(** With more fuel than there are unseen pairs, [eq] does not run out. *)
Lemma eq_halts (fuel : nat) (a b : value) (s : seenObjects) :
  headroom h s < fuel -> halted (fst (eq h fuel a b s)).
Proof.
  revert a b s. induction fuel as [|fuel IH]; intros a b s Hfuel; [lia|].
  simpl. apply eq_body_halts.
  - intros x y. apply eq_settles.
  - intros x y s' Hs'. apply IH. lia.
Qed.

End Termination.

(** *** More fuel does not change a run that ended *)




Section Fuel.
Variable h : heap.






End Fuel.

(** *** Ordinary heaps *)

Lemma index_key_digits (i : nat) : digits (index_key i) = true.
Proof.
  unfold index_key. generalize (Nat.to_uint i) as d.
  induction d; simpl; auto.
Qed.

Lemma assoc_string_chars (key : string) (i : nat) (s : string) :
  digits key = false -> assoc key (string_chars i s) = None.
Proof.
  intros Hk. revert i. induction s as [|c s IH]; intros i; simpl; [reflexivity|].
  destruct (String.eqb (index_key i) key) eqn:E; [|apply IH].
  apply String.eqb_eq in E. rewrite <- E, index_key_digits in Hk. discriminate.
Qed.

Lemma assoc_app (key : string) (ps qs : list (string * property)) :
  assoc key (ps ++ qs) =
  match assoc key ps with Some p => Some p | None => assoc key qs end.
Proof.
  induction ps as [|[k p] ps IH]; simpl; [reflexivity|].
  destruct (String.eqb k key); [reflexivity|apply IH].
Qed.

Lemma reserved_cases (key : string) :
  reserved key = true ->
  key = "objectId" \/ key = "eq" \/ key = "hasOwnProperty" \/ key = "valueOf".
Proof.
  unfold reserved. intros Hk.
  repeat (apply orb_prop in Hk; destruct Hk as [Hk|Hk]);
    apply String.eqb_eq in Hk; auto.
Qed.

Lemma assoc_exotic_reserved (key : string) (i : internal) :
  reserved key = true -> assoc key (exotic_props i) = None.
Proof.
  intros Hk. apply reserved_cases in Hk.
  destruct i; simpl; try reflexivity;
    try (destruct Hk as [->|[->|[->| ->]]]; reflexivity).
  rewrite assoc_app, assoc_string_chars.
  - destruct Hk as [->|[->|[->| ->]]]; reflexivity.
  - destruct Hk as [->|[->|[->| ->]]]; reflexivity.
Qed.

Lemma assoc_props_reserved (h : heap) (key : string) (ps : list (string * property)) :
  forallb (fun kp => negb (reserved (fst kp)) && p_enumerable (snd kp) &&
                     valid h (p_value (snd kp))) ps = true ->
  reserved key = true -> assoc key ps = None.
Proof.
  intros Hps Hk. induction ps as [|[k p] ps IH]; simpl in *; [reflexivity|].
  apply andb_prop in Hps. destruct Hps as [Hp Hps].
  destruct (String.eqb k key) eqn:E; [|apply IH, Hps].
  apply String.eqb_eq in E. subst k. rewrite Hk in Hp. discriminate.
Qed.

Lemma ordinary_lookup (h : heap) (l : loc) (o : object) :
  ordinary h = true -> lookup h l = Some o -> ordinary_object h o = true.
Proof.
  unfold ordinary, lookup. intros Hh Hl.
  rewrite forallb_forall in Hh. apply Hh. eapply nth_error_In, Hl.
Qed.

Lemma valid_lookup (h : heap) (l : loc) :
  valid h (VRef l) = true -> exists o, lookup h l = Some o.
Proof.
  simpl. intros Hl. apply Nat.ltb_lt in Hl. unfold lookup.
  destruct (nth_error h l) eqn:E; [eauto|].
  apply nth_error_None in E. lia.
Qed.

Section Ordinary.
Variable h : heap.
Hypothesis Hh : ordinary h = true.

(** Reading a reserved name from an object of an ordinary heap reaches the
    built-in prototype. *)
Lemma get_reserved_ref (l : loc) (o : object) (key : string) :
  lookup h l = Some o -> reserved key = true ->
  get h (VRef l) key = builtin_get (class_of_internal (o_internal o)) key.
Proof.
  intros Hl Hk. simpl.
  assert (Hlen : l < List.length h).
  { apply nth_error_Some. unfold lookup in Hl. congruence. }
  destruct (List.length h) as [|n]; [lia|]. simpl. rewrite Hl.
  pose proof (ordinary_lookup h l o Hh Hl) as Ho. unfold ordinary_object in Ho.
  apply andb_prop in Ho. destruct Ho as [Ho Hd].
  apply andb_prop in Ho. destruct Ho as [Hp Hps].
  unfold own_props. rewrite assoc_app, assoc_exotic_reserved by assumption.
  rewrite (assoc_props_reserved h key _ Hps Hk).
  destruct (o_proto o); try discriminate. reflexivity.
Qed.

Lemma get_reserved (v : value) (key : string) :
  reserved key = true ->
  match v with
  | VUndefined | VNull => get h v key = VUndefined
  | VRef l => match lookup h l with
              | Some o => get h v key = builtin_get (class_of_internal (o_internal o)) key
              | None => get h v key = VUndefined
              end
  | _ => exists c, class_of h v = Some c /\ get h v key = builtin_get c key
  end.
Proof.
  intros Hk. destruct v as [| |b|x|str|id|f|l]; simpl; try reflexivity; eauto.
  - exists CString. split; [reflexivity|].
    pose proof (assoc_exotic_reserved key (IString str) Hk) as E. simpl in E.
    rewrite E. reflexivity.
  - destruct (lookup h l) as [o|] eqn:Hl.
    + apply (get_reserved_ref l o key Hl Hk).
    + destruct (List.length h); simpl; rewrite ?Hl; reflexivity.
Qed.

(** No value of an ordinary heap is an equality delegate. *)
Lemma ordinary_no_delegate (v : value) : is_delegate h v = false.
Proof.
  unfold is_delegate.
  assert (E : get h v "objectId" = VUndefined).
  { pose proof (get_reserved v "objectId" eq_refl) as G.
    destruct v as [| |b|x|str|id|f|l]; try exact G;
      try (destruct G as [c [_ ->]]; reflexivity).
    destruct (lookup h l); rewrite G; reflexivity. }
  rewrite E. simpl. rewrite andb_false_r. reflexivity.
Qed.

End Ordinary.

Lemma for_each_bool {K} (test : K -> M bool) (ks : list K) (r : bool)
    (s : seenObjects) :
  (forall k s0, fst (test k s0) = OutOfFuel \/ exists c, fst (test k s0) = Ret c) ->
  fst (for_each test ks r s) = OutOfFuel \/ exists c, fst (for_each test ks r s) = Ret c.
Proof.
  intros Ht. revert s. induction ks as [|k ks IH]; intros s; simpl; [eauto|].
  specialize (Ht k s). destruct (test k s) as [[[]| | |] s']; simpl in *; eauto.
Qed.

Lemma truthy_bool (m : M value) (s : seenObjects) :
  boolish (fst (m s)) ->
  fst (truthy m s) = OutOfFuel \/ exists c, fst (truthy m s) = Ret c.
Proof.
  unfold truthy. destruct (m s) as [res s']. simpl.
  intros [->|[r ->]]; simpl; eauto.
Qed.

Lemma valid_exotic (h : heap) (key : string) (i : internal) (p : property) :
  assoc key (exotic_props i) = Some p -> valid h (p_value p) = true.
Proof.
  assert (Hchars : forall s n, assoc key (string_chars n s) = Some p ->
                               valid h (p_value p) = true).
  { induction s as [|c s IH]; intros n; simpl; [discriminate|].
    destruct (String.eqb (index_key n) key); [|apply IH].
    intros [= <-]. reflexivity. }
  destruct i; simpl; try discriminate;
    case_ifs; try discriminate; try (intros [= <-]; reflexivity).
  rewrite assoc_app. destruct (assoc key (string_chars 0 s)) eqn:E.
  - intros [= <-]. eapply Hchars, E.
  - cbn [assoc]. destruct (String.eqb "length" key); [|discriminate].
    intros [= <-]. reflexivity.
Qed.

Section Total.
Variable h : heap.
Hypothesis Hh : ordinary h = true.

Lemma get_valid (v : value) (key : string) : valid h (get h v key) = true.
Proof.
  assert (Hb : forall c, valid h (builtin_get c key) = true).
  { intros c. unfold builtin_get.
    destruct (String.eqb key "hasOwnProperty"); [reflexivity|].
    destruct (String.eqb key "valueOf"); reflexivity. }
  destruct v as [| |b|x|str|id|f|l]; simpl; try reflexivity; try apply Hb.
  - destruct (assoc key _) eqn:E; [|apply Hb].
    apply (valid_exotic h key (IString str)). exact E.
  - destruct (List.length h) as [|n]; [reflexivity|]. simpl.
    destruct (lookup h l) as [o|] eqn:Hl; [|reflexivity].
    pose proof (ordinary_lookup h l o Hh Hl) as Ho. unfold ordinary_object in Ho.
    apply andb_prop in Ho. destruct Ho as [Ho Hd].
    apply andb_prop in Ho. destruct Ho as [Hp Hps].
    unfold own_props. rewrite assoc_app.
    destruct (assoc key (exotic_props (o_internal o))) eqn:E.
    { eapply valid_exotic, E. }
    destruct (assoc key (o_props o)) eqn:E2.
    { clear - E2 Hps. induction (o_props o) as [|[k q] ps IH]; simpl in *;
        [discriminate|].
      apply andb_prop in Hps. destruct Hps as [Hq Hps].
      destruct (String.eqb k key); [|apply IH; assumption].
      injection E2 as <-. apply andb_prop in Hq. apply Hq. }
    destruct (o_proto o); try discriminate. apply Hb.
Qed.

Lemma invoke_hasOwnProperty (l : loc) (key : string) :
  valid h (VRef l) = true ->
  invoke h (VRef l) "hasOwnProperty" [VString key] = Ret (VBool (has_own h (VRef l) key)).
Proof.
  intros Hl. destruct (valid_lookup h l Hl) as [o Ho].
  unfold invoke. rewrite (get_reserved_ref h Hh l o "hasOwnProperty" Ho eq_refl).
  reflexivity.
Qed.

Lemma invoke_valueOf_ref (l : loc) :
  valid h (VRef l) = true -> exists x, invoke h (VRef l) "valueOf" [] = Ret x.
Proof.
  intros Hl. destruct (valid_lookup h l Hl) as [o Ho].
  unfold invoke. rewrite (get_reserved_ref h Hh l o "valueOf" Ho eq_refl).
  destruct o as [i p ps]. destruct i; simpl; rewrite ?Ho; eauto.
Qed.

Lemma class_of_valid (v : value) :
  valid h v = true -> exists c, class_of h v = Some c.
Proof.
  destruct v as [| |b|x|str|id|f|l]; simpl; eauto.
  intros Hl. destruct (valid_lookup h l Hl) as [o Ho]. rewrite Ho. simpl. eauto.
Qed.

(** [type] returns a tag for every value of an ordinary heap. *)
Lemma ordinary_type (v : value) :
  valid h v = true -> exists t, type h v = Ret t.
Proof.
  intros Hv. unfold type, toString_call.
  destruct (strict_eq v VNull) eqn:E1; [eauto|].
  destruct (strict_eq v VUndefined) eqn:E2; [eauto|].
  destruct (negb (strict_eq v v)); [eauto|].
  destruct v as [| |b|x|str|id|f|l]; try discriminate; simpl;
    try (eexists; reflexivity).
  destruct (valid_lookup h l Hv) as [o Ho]. rewrite Ho.
  cbn [option_map]. unfold type_switch.
  rewrite (invoke_hasOwnProperty l "callee" Hv).
  cbn [bind]. destruct (to_boolean _);
    repeat match goal with
           | |- context [if ?c then _ else _] => destruct c; eauto
           end.
Qed.

Lemma invoke_valueOf (v : value) (t : type_tag) :
  valid h v = true -> type h v = Ret t ->
  t = TBoolean \/ t = TString \/ t = TDate \/ t = TNumber ->
  exists x, invoke h v "valueOf" [] = Ret x.
Proof.
  intros Hv Ht Hcase.
  destruct v as [| |b|x|str|id|f|l]; try (eexists; reflexivity).
  - cbv in Ht. destruct Hcase as [->|[->|[->| ->]]]; discriminate.
  - cbv in Ht. destruct Hcase as [->|[->|[->| ->]]]; discriminate.
  - unfold invoke.
    destruct (get_reserved h Hh (VString str) "valueOf" eq_refl) as [c [[= <-] ->]].
    eexists. reflexivity.
  - unfold type in Ht. simpl in Ht. rewrite Nat.eqb_refl in Ht. simpl in Ht.
    destruct Hcase as [->|[->|[->| ->]]]; discriminate.
  - apply invoke_valueOf_ref. exact Hv.
Qed.

Lemma eq_body_boolish (rec : value -> value -> M value) (a b : value)
    (s : seenObjects) :
  (forall x y s0, valid h x = true -> valid h y = true -> boolish (fst (rec x y s0))) ->
  valid h a = true -> valid h b = true ->
  boolish (fst (eq_body h rec a b s)).
Proof.
  intros Hrec Ha Hb. unfold eq_body, pure, boolean, boolish.
  destruct (strict_eq a b); [simpl; eauto|].
  rewrite (ordinary_no_delegate h Hh a).
  destruct (ordinary_type a Ha) as [ta Ta]. destruct (ordinary_type b Hb) as [tb Tb].
  rewrite Ta, Tb.
  destruct (type_tag_eqb ta tb) eqn:Htag; simpl; [|eauto].
  assert (tb = ta) by (destruct ta, tb; simpl in Htag; congruence). subst tb.
  assert (Hval : ta = TBoolean \/ ta = TString \/ ta = TDate \/ ta = TNumber ->
            boolish (bind (invoke h a "valueOf" [])
              (fun x => bind (invoke h b "valueOf" [])
              (fun y => Ret (VBool (strict_eq x y)))))).
  { intros Hc. destruct (invoke_valueOf a ta Ha Ta Hc) as [x ->].
    destruct (invoke_valueOf b ta Hb Tb Hc) as [y ->]. simpl. right. eauto. }
  destruct ta; simpl; eauto; try (apply Hval; auto).
  - (* arrays *)
    unfold arrayEq.
    destruct (negb (isArray h a) || negb (isArray h b)); [simpl; eauto|].
    destruct (negb _); [simpl; eauto|].
    unfold detectRecursion. destruct (seen s a b); [simpl; eauto|].
    match goal with |- context [for_each ?t ?ks ?r ?s1] =>
      pose proof (for_each_bool t ks r s1) as HF;
      destruct (for_each t ks r s1) as [res s2] end.
    simpl in *. destruct HF as [->|[c ->]]; simpl; eauto.
    intros i s0. apply truthy_bool, Hrec; apply get_valid.
  - (* objects *)
    apply type_object_ref in Ta, Tb.
    destruct Ta as [la [-> Hla]], Tb as [lb [-> Hlb]].
    unfold objectEq. simpl.
    destruct (valid_lookup h la Ha) as [oa ->], (valid_lookup h lb Hb) as [ob Hob].
    rewrite Hob.
    destruct (negb _); [simpl; eauto|].
    unfold detectRecursion. destruct (seen s (VRef la) (VRef lb)); [simpl; eauto|].
    match goal with |- context [for_each ?t ?ks ?r ?s1] =>
      pose proof (for_each_bool t ks r s1) as HF;
      destruct (for_each t ks r s1) as [res s2] end.
    simpl in *. destruct HF as [->|[c ->]]; simpl; eauto.
    intros k s0. unfold objectEq_test.
    rewrite (invoke_hasOwnProperty lb k Hb).
    destruct (negb _); [simpl; eauto|].
    apply truthy_bool, Hrec; apply get_valid.
Qed.

Lemma eq_boolish (fuel : nat) (a b : value) (s : seenObjects) :
  valid h a = true -> valid h b = true -> boolish (fst (eq h fuel a b s)).
Proof.
  revert a b s. induction fuel as [|fuel IH]; intros a b s Ha Hb.
  - left. reflexivity.
  - simpl. apply eq_body_boolish; auto.
Qed.

(** In an ordinary heap [eq] returns a boolean, and [seenObjects] is as before. *)
Lemma eq_total (fuel : nat) (a b : value) (s : seenObjects) :
  valid h a = true -> valid h b = true -> headroom h s < fuel ->
  exists r, eq h fuel a b s = (Ret (VBool r), s).
Proof.
  intros Ha Hb Hfuel.
  pose proof (eq_boolish fuel a b s Ha Hb) as Hbool.
  pose proof (eq_halts h fuel a b s Hfuel) as Hhalt.
  pose proof (eq_settles h fuel a b s Hhalt) as Hres.
  destruct (eq h fuel a b s) as [res s']. simpl in *. subst s'.
  destruct Hbool as [->|[r ->]]; [contradiction|]. eauto.
Qed.

End Total.

(** *** Symmetry *)

Lemma seen_mirror (s : seenObjects) (a b : value) :
  seen (mirror s) b a = seen s a b.
Proof.
  induction s as [|[x y] s IH]; simpl; [reflexivity|].
  rewrite IH, (andb_comm (strict_eq y b)). reflexivity.
Qed.

Lemma mirror_mark (s : seenObjects) (a b : value) :
  mirror (mark a b s) = mark b a (mirror s).
Proof. unfold mirror, mark. rewrite map_app. reflexivity. Qed.

Lemma mirror_mirror (s : seenObjects) : mirror (mirror s) = s.
Proof.
  unfold mirror. rewrite map_map. simpl.
  induction s as [|[x y] s IH]; simpl; congruence.
Qed.

Lemma type_tag_eqb_eq (s t : type_tag) : type_tag_eqb s t = true <-> s = t.
Proof. destruct s, t; simpl; split; congruence. Qed.

(** What the loop decided, read off its result. *)
Lemma for_each_true {K} (test : K -> M bool) (ks : list K) (s : seenObjects) :
  (forall k, settles (test k)) ->
  fst (for_each test ks true s) = Ret true ->
  forall k, In k ks -> fst (test k s) = Ret true.
Proof.
  intros Hr. induction ks as [|k0 ks IH]; simpl; [contradiction|].
  intros Hf k Hk. specialize (Hr k0 s).
  destruct (test k0 s) as [[[]| | |] s'] eqn:E; simpl in *; try discriminate.
  specialize (Hr ltac:(discriminate)). subst s'.
  destruct Hk as [->|Hk]; [rewrite E; reflexivity|]. apply IH; assumption.
Qed.

Lemma for_each_false {K} (test : K -> M bool) (ks : list K) (s : seenObjects) :
  (forall k, settles (test k)) ->
  fst (for_each test ks true s) = Ret false ->
  exists k, In k ks /\ fst (test k s) = Ret false.
Proof.
  intros Hr. induction ks as [|k0 ks IH]; simpl; [discriminate|].
  intros Hf. pose proof (Hr k0 s) as Hk0.
  destruct (test k0 s) as [[[]| | |] s'] eqn:E; simpl in *; try discriminate.
  - specialize (Hk0 ltac:(discriminate)). subst s'.
    destruct (IH Hf) as [k [Hk Hkf]]. eauto.
  - exists k0. rewrite E. auto.
Qed.

(** The test of a comparison that returned. *)
Lemma truthy_value (m : M value) (s : seenObjects) (v : value) :
  settles m -> fst (m s) = Ret v -> truthy m s = (Ret (to_boolean v), s).
Proof.
  intros Hm Hv. unfold truthy. specialize (Hm s).
  destruct (m s) as [res s']. simpl in *. subst res.
  rewrite (Hm ltac:(discriminate)). reflexivity.
Qed.

(** The loop stops at the first test that fails. *)
Lemma for_each_breaks {K} (test : K -> M bool) (ks1 : list K) (k : K) (ks2 : list K)
    (r : bool) (s : seenObjects) :
  (forall j, In j ks1 -> test j s = (Ret true, s)) ->
  test k s = (Ret false, s) ->
  for_each test (ks1 ++ k :: ks2) r s = (Ret false, s).
Proof.
  intros H1 Hk. induction ks1 as [|j ks1 IH]; simpl.
  - rewrite Hk. reflexivity.
  - rewrite (H1 j (or_introl eq_refl)). apply IH.
    intros j' Hj'. apply H1. right. exact Hj'.
Qed.

Lemma for_each_all {K} (test : K -> M bool) (ks : list K) (s : seenObjects) :
  (forall k, In k ks -> test k s = (Ret true, s)) ->
  for_each test ks true s = (Ret true, s).
Proof.
  induction ks as [|k0 ks IH]; simpl; [reflexivity|].
  intros Ht. rewrite (Ht k0) by auto. apply IH. auto.
Qed.

Lemma distinct_NoDup (ks : list string) : distinct ks = true -> NoDup ks.
Proof.
  induction ks as [|k ks IH]; simpl; [constructor|].
  intros H. apply andb_prop in H. destruct H as [Hk Hks].
  constructor; [|apply IH, Hks].
  intros Hin. apply negb_true_iff in Hk.
  assert (existsb (String.eqb k) ks = true); [|congruence].
  apply existsb_exists. exists k. split; [assumption|apply String.eqb_refl].
Qed.

Lemma assoc_In (key : string) (ps : list (string * property)) :
  (exists p, assoc key ps = Some p) <-> In key (map fst ps).
Proof.
  induction ps as [|[k p] ps IH]; simpl.
  - split; [intros [p H]; discriminate|contradiction].
  - destruct (String.eqb k key) eqn:E.
    + apply String.eqb_eq in E. split; eauto.
    + apply String.eqb_neq in E. rewrite IH. split; [auto|].
      intros [H|H]; [contradiction|assumption].
Qed.

Lemma enumerable_keys_all (h : heap) (ps : list (string * property)) :
  forallb (fun kp => negb (reserved (fst kp)) && p_enumerable (snd kp) &&
                     valid h (p_value (snd kp))) ps = true ->
  enumerable_keys ps = map fst ps.
Proof.
  unfold enumerable_keys. induction ps as [|[k p] ps IH]; simpl; [reflexivity|].
  intros H. apply andb_prop in H. destruct H as [Hp Hps].
  apply andb_prop in Hp. destruct Hp as [Hp _].
  apply andb_prop in Hp. destruct Hp as [_ Hp]. rewrite Hp. simpl.
  rewrite IH by assumption. reflexivity.
Qed.

Section Keys.
Variable h : heap.
Hypothesis Hh : ordinary h = true.

(** The keys of a value classified [object], in an ordinary heap: all its
    own properties, each listed once. *)
Lemma object_keys (l : loc) :
  type h (VRef l) = Ret TObject ->
  exists ks, Object_keys h (VRef l) = Ret ks /\ NoDup ks /\
             forall k, has_own h (VRef l) k = true <-> In k ks.
Proof.
  intros Ht. destruct (type_object_ref h _ Ht) as [l' [[= <-] Hl]].
  assert (Hv : valid h (VRef l) = true) by (apply Nat.ltb_lt; exact Hl).
  destruct (valid_lookup h l Hv) as [o Ho].
  pose proof (ordinary_lookup h l o Hh Ho) as Hord. unfold ordinary_object in Hord.
  apply andb_prop in Hord. destruct Hord as [Hord Hd].
  apply andb_prop in Hord. destruct Hord as [Hp Hps].
  assert (Hex : exotic_props (o_internal o) = []).
  { rewrite (type_ref h l o Ho) in Ht.
    destruct (o_internal o); try reflexivity; discriminate. }
  exists (map fst (o_props o)). simpl. rewrite Ho. unfold own_props. rewrite Hex.
  simpl. rewrite (enumerable_keys_all h _ Hps).
  split; [reflexivity|]. split; [apply distinct_NoDup, Hd|].
  intros k. rewrite <- assoc_In.
  destruct (assoc k (o_props o)); split; eauto; try discriminate.
  intros [p H]. discriminate.
Qed.

End Keys.

Lemma truthy_ret (m : M value) (s : seenObjects) (c : bool) :
  fst (truthy m s) = Ret c -> exists v, fst (m s) = Ret v /\ to_boolean v = c.
Proof.
  unfold truthy. destruct (m s) as [[v| | |] s']; simpl; try discriminate.
  intros [= <-]. eauto.
Qed.

Lemma truthy_symmetric (h : heap) (rec : value -> value -> M value)
    (x y : value) (s : seenObjects) (c1 c2 : bool) :
  symmetric h rec -> valid h x = true -> valid h y = true ->
  fst (truthy (rec x y) s) = Ret c1 -> fst (truthy (rec y x) (mirror s)) = Ret c2 ->
  c1 = c2.
Proof.
  intros Hsym Hx Hy H1 H2.
  apply truthy_ret in H1, H2. destruct H1 as [v1 [H1 <-]], H2 as [v2 [H2 <-]].
  rewrite (Hsym x y s v1 v2); auto.
Qed.

Section Symmetry.
Variable h : heap.
Hypothesis Hh : ordinary h = true.

Lemma arrayEq_sym_true (rec : value -> value -> M value) (a b : value)
    (s : seenObjects) (r2 : bool) :
  (forall x y, settles (rec x y)) -> symmetric h rec ->
  fst (arrayEq h rec a b s) = Ret true ->
  fst (arrayEq h rec b a (mirror s)) = Ret r2 -> r2 = true.
Proof.
  intros Hres Hsym. unfold arrayEq.
  rewrite (orb_comm (negb (isArray h b))), (Nat.eqb_sym (array_length h b)).
  destruct (negb (isArray h a) || negb (isArray h b)); [discriminate|].
  destruct (Nat.eqb (array_length h a) (array_length h b)) eqn:Hlen;
    [|discriminate]. simpl.
  apply Nat.eqb_eq in Hlen. rewrite <- Hlen.
  unfold detectRecursion. rewrite seen_mirror.
  destruct (seen s a b); [intros _ [= <-]; reflexivity|].
  rewrite <- mirror_mark.
  set (s1 := mark a b s).
  set (ks := seq 0 (array_length h a)).
  destruct (for_each (arrayEq_test h rec a b) ks true s1) as [res1 s2] eqn:E1.
  destruct (for_each (arrayEq_test h rec b a) ks true (mirror s1)) as [res2 s3] eqn:E2.
  simpl. destruct res1 as [c1| | |]; try discriminate. simpl. intros [= ->].
  destruct res2 as [c2| | |]; try discriminate. simpl. intros [= <-].
  destruct c2; [reflexivity|].
  assert (R1 : forall i, settles (arrayEq_test h rec a b i))
    by (intros i; apply truthy_settles, Hres).
  assert (R2 : forall i, settles (arrayEq_test h rec b a i))
    by (intros i; apply truthy_settles, Hres).
  destruct (for_each_false _ ks (mirror s1) R2) as [i [Hi Hfalse]];
    [rewrite E2; reflexivity|].
  pose proof (for_each_true _ ks s1 R1) as Htrue.
  rewrite E1 in Htrue. specialize (Htrue eq_refl i Hi).
  unfold arrayEq_test in *.
  symmetry.
  apply (truthy_symmetric h rec (get h a (index_key i)) (get h b (index_key i)) s1);
    auto using get_valid.
Qed.

Lemma objectEq_sym_true (rec : value -> value -> M value) (la lb : loc)
    (s : seenObjects) (r2 : bool) :
  (forall x y, settles (rec x y)) -> symmetric h rec ->
  type h (VRef la) = Ret TObject -> type h (VRef lb) = Ret TObject ->
  fst (objectEq h rec (VRef la) (VRef lb) s) = Ret true ->
  fst (objectEq h rec (VRef lb) (VRef la) (mirror s)) = Ret r2 -> r2 = true.
Proof.
  intros Hres Hsym Ta Tb.
  destruct (object_keys h Hh la Ta) as [akeys [Ka [Da Oa]]].
  destruct (object_keys h Hh lb Tb) as [bkeys [Kb [Db Ob]]].
  destruct (type_object_ref h _ Ta) as [l1 [[= <-] Hla]].
  destruct (type_object_ref h _ Tb) as [l2 [[= <-] Hlb]].
  assert (Va : valid h (VRef la) = true) by (apply Nat.ltb_lt; exact Hla).
  assert (Vb : valid h (VRef lb) = true) by (apply Nat.ltb_lt; exact Hlb).
  unfold objectEq. rewrite Ka, Kb.
  rewrite (Nat.eqb_sym (List.length bkeys)).
  destruct (Nat.eqb (List.length akeys) (List.length bkeys)) eqn:Hlen;
    [|discriminate]. simpl.
  apply Nat.eqb_eq in Hlen.
  unfold detectRecursion. rewrite seen_mirror.
  destruct (seen s (VRef la) (VRef lb)); [intros _ [= <-]; reflexivity|].
  rewrite <- mirror_mark.
  set (s1 := mark (VRef la) (VRef lb) s).
  destruct (for_each (objectEq_test h rec (VRef la) (VRef lb)) akeys true s1)
    as [res1 s2] eqn:E1.
  destruct (for_each (objectEq_test h rec (VRef lb) (VRef la)) bkeys true (mirror s1))
    as [res2 s3] eqn:E2.
  simpl. destruct res1 as [c1| | |]; try discriminate. simpl. intros [= ->].
  destruct res2 as [c2| | |]; try discriminate. simpl. intros [= <-].
  destruct c2; [reflexivity|].
  assert (R1 : forall k, settles (objectEq_test h rec (VRef la) (VRef lb) k))
    by (intros k; apply objectEq_test_settles, Hres).
  assert (R2 : forall k, settles (objectEq_test h rec (VRef lb) (VRef la) k))
    by (intros k; apply objectEq_test_settles, Hres).
  pose proof (for_each_true _ akeys s1 R1) as Htrue.
  rewrite E1 in Htrue. specialize (Htrue eq_refl).
  (* every key of [a] is a key of [b], hence the two key sets coincide *)
  assert (Hab : incl akeys bkeys).
  { intros k Hk. specialize (Htrue k Hk). unfold objectEq_test in Htrue.
    rewrite (invoke_hasOwnProperty h Hh lb k Vb) in Htrue. cbn [to_boolean] in Htrue.
    apply Ob. destruct (has_own h (VRef lb) k); [reflexivity|discriminate]. }
  assert (Hba : incl bkeys akeys).
  { apply NoDup_length_incl; [assumption|lia|assumption]. }
  destruct (for_each_false _ bkeys (mirror s1) R2) as [k [Hk Hfalse]];
    [rewrite E2; reflexivity|].
  specialize (Htrue k (Hba k Hk)).
  unfold objectEq_test in Htrue, Hfalse.
  rewrite (invoke_hasOwnProperty h Hh lb k Vb) in Htrue.
  rewrite (invoke_hasOwnProperty h Hh la k Va) in Hfalse.
  assert (Ha : has_own h (VRef la) k = true) by (apply Oa, Hba, Hk).
  assert (Hb : has_own h (VRef lb) k = true) by (apply Ob, Hk).
  cbn [to_boolean] in Htrue, Hfalse.
  rewrite Ha in Hfalse. rewrite Hb in Htrue. cbn [negb] in Htrue, Hfalse.
  symmetry.
  apply (truthy_symmetric h rec (get h (VRef la) k) (get h (VRef lb) k) s1);
    auto using get_valid.
Qed.

Lemma eq_body_sym_true (rec : value -> value -> M value) (a b : value)
    (s : seenObjects) (v2 : value) :
  (forall x y, settles (rec x y)) -> symmetric h rec ->
  valid h a = true -> valid h b = true ->
  fst (eq_body h rec a b s) = Ret (VBool true) ->
  fst (eq_body h rec b a (mirror s)) = Ret v2 -> v2 = VBool true.
Proof.
  intros Hres Hsym Ha Hb. unfold eq_body, pure, boolean.
  rewrite (strict_eq_sym b a).
  destruct (strict_eq a b); [intros _ [= <-]; reflexivity|].
  rewrite !(ordinary_no_delegate h Hh).
  destruct (ordinary_type h Hh a Ha) as [ta Ta].
  destruct (ordinary_type h Hh b Hb) as [tb Tb].
  rewrite Ta, Tb.
  destruct (type_tag_eqb ta tb) eqn:Htag; [|discriminate].
  apply type_tag_eqb_eq in Htag. subst tb.
  assert (Hrefl : type_tag_eqb ta ta = true) by (apply type_tag_eqb_eq; reflexivity).
  rewrite Hrefl. simpl.
  assert (Hval : fst (pure (bind (invoke h a "valueOf" []) (fun x =>
                        bind (invoke h b "valueOf" []) (fun y =>
                        Ret (VBool (strict_eq x y))))) s) = Ret (VBool true) ->
                 fst (pure (bind (invoke h b "valueOf" []) (fun x =>
                        bind (invoke h a "valueOf" []) (fun y =>
                        Ret (VBool (strict_eq x y))))) (mirror s)) = Ret v2 ->
                 v2 = VBool true).
  { unfold pure. simpl.
    destruct (invoke h a "valueOf" []) as [x| | |]; try discriminate.
    destruct (invoke h b "valueOf" []) as [y| | |]; try discriminate.
    simpl. rewrite (strict_eq_sym y x). intros [= ->] [= <-]. reflexivity. }
  destruct ta; try discriminate; try exact Hval.
  - (* arrays *)
    pose proof (arrayEq_sym_true rec a b s) as HA.
    destruct (arrayEq h rec a b s) as [[r1| | |] s1]; try discriminate.
    destruct (arrayEq h rec b a (mirror s)) as [[r2| | |] s2]; try discriminate.
    simpl in *. intros [= ->] [= <-]. rewrite (HA r2); auto.
  - (* regular expressions *)
    cbn [fst]. rewrite (strict_eq_sym (get h b "source")),
      (strict_eq_sym (get h b "global")), (strict_eq_sym (get h b "multiline")),
      (strict_eq_sym (get h b "ignoreCase")).
    intros [= ->] [= <-]. reflexivity.
  - (* objects *)
    destruct (type_object_ref h _ Ta) as [la [-> _]].
    destruct (type_object_ref h _ Tb) as [lb [-> _]].
    pose proof (objectEq_sym_true rec la lb s) as HO.
    destruct (objectEq h rec (VRef la) (VRef lb) s) as [[r1| | |] s1];
      try discriminate.
    destruct (objectEq h rec (VRef lb) (VRef la) (mirror s)) as [[r2| | |] s2];
      try discriminate.
    simpl in *. intros [= ->] [= <-]. rewrite (HO r2); auto.
Qed.

Lemma eq_symmetric (fuel : nat) : symmetric h (eq h fuel).
Proof.
  assert (Htrue : forall a b s v2,
            valid h a = true -> valid h b = true ->
            fst (eq h fuel a b s) = Ret (VBool true) ->
            fst (eq h fuel b a (mirror s)) = Ret v2 -> v2 = VBool true).
  { induction fuel as [|n IH]; intros a b s v2 Ha Hb; [discriminate|].
    simpl. apply eq_body_sym_true; auto.
    - intros x y. apply eq_settles.
    - intros x y s0 v1 v2' Hx Hy H1 H2.
      destruct (eq_boolish h Hh n x y s0 Hx Hy) as [E|[r1 E]];
        rewrite E in H1; [discriminate|]. injection H1 as <-.
      destruct (eq_boolish h Hh n y x (mirror s0) Hy Hx) as [E'|[r2 E']];
        rewrite E' in H2; [discriminate|]. injection H2 as <-.
      destruct r1.
      + symmetry. apply (IH x y s0); auto.
      + destruct r2; [|reflexivity].
        apply (IH y x (mirror s0)); auto. rewrite mirror_mirror. exact E. }
  intros x y s v1 v2 Hx Hy H1 H2.
  destruct (eq_boolish h Hh fuel x y s Hx Hy) as [E|[r1 E]];
    rewrite E in H1; [discriminate|]. injection H1 as <-.
  destruct (eq_boolish h Hh fuel y x (mirror s) Hy Hx) as [E'|[r2 E']];
    rewrite E' in H2; [discriminate|]. injection H2 as <-.
  destruct r1.
  - symmetry. apply (Htrue x y s); auto.
  - destruct r2; [|reflexivity].
    apply (Htrue y x (mirror s)); auto. rewrite mirror_mirror. exact E.
Qed.

End Symmetry.

(** *** Arrays *)

Lemma type_isArray (h : heap) (v : value) :
  isArray h v = true -> type h v = Ret TArray.
Proof.
  destruct v as [| |b|x|str|id|f|l]; simpl; try discriminate.
  destruct (lookup h l) as [o|] eqn:Ho; [|discriminate].
  intros Hi. rewrite (type_ref h l o Ho).
  destruct o as [i p ps]. destruct i; try discriminate. reflexivity.
Qed.

Section Arrays.
Variable h : heap.
Variables a b : value.
Hypothesis Ha : isArray h a = true.
Hypothesis Hb : isArray h b = true.

(** For two distinct arrays, [eq] is [arrayEq]. *)
Lemma eq_body_arrays (rec : value -> value -> M value) (s : seenObjects) :
  strict_eq a b = false -> is_delegate h a = false ->
  eq_body h rec a b s = boolean (arrayEq h rec a b) s.
Proof.
  intros Hdistinct Hnd. unfold eq_body.
  rewrite Hdistinct, Hnd, (type_isArray h _ Ha), (type_isArray h _ Hb). reflexivity.
Qed.

(** A pair that is already in [seenObjects] is taken to be equal, without
    any nested call. *)
Lemma arrayEq_seen (rec : value -> value -> M value) (s : seenObjects) :
  array_length h a = array_length h b -> seen s a b = true ->
  arrayEq h rec a b s = (Ret true, s).
Proof.
  intros Hlen Hs. unfold arrayEq, detectRecursion.
  rewrite Ha, Hb, Hlen, Nat.eqb_refl, Hs. reflexivity.
Qed.

(** Otherwise the pair is marked, the elements are compared in order, and
    the pair is unmarked. *)
Lemma arrayEq_unseen (rec : value -> value -> M value) (s : seenObjects) :
  array_length h a = array_length h b -> seen s a b = false ->
  arrayEq h rec a b s =
  let '(res, s') := for_each (arrayEq_test h rec a b) (seq 0 (array_length h a))
                      true (mark a b s) in
  (res, match res with OutOfFuel => s' | _ => unmark a b s' end).
Proof.
  intros Hlen Hs. unfold arrayEq, detectRecursion.
  rewrite Ha, Hb, Hs, <- Hlen, Nat.eqb_refl. cbn [negb orb].
  destruct (for_each _ _ _ _) as [[r| | |] s']; reflexivity.
Qed.

Lemma arrayEq_true_iff (rec : value -> value -> M value) (s : seenObjects) :
  (forall x y, settles (rec x y)) -> seen s a b = false ->
  arrayEq h rec a b s = (Ret true, s) <->
  array_length h a = array_length h b /\
  forall i, i < array_length h a ->
    exists v, rec (get h a (index_key i)) (get h b (index_key i)) (mark a b s)
              = (Ret v, mark a b s) /\ to_boolean v = true.
Proof.
  intros Hres Hs.
  assert (R : forall i, settles (arrayEq_test h rec a b i))
    by (intros i; apply truthy_settles, Hres).
  split.
  - intros H.
    assert (Hlen : array_length h a = array_length h b).
    { unfold arrayEq in H. rewrite Ha, Hb in H. cbn [negb orb] in H.
      destruct (Nat.eqb _ _) eqn:E; [apply Nat.eqb_eq; exact E|discriminate]. }
    split; [exact Hlen|]. intros i Hi.
    rewrite (arrayEq_unseen rec s Hlen Hs) in H.
    destruct (for_each _ _ _ _) as [res s'] eqn:E. injection H as -> _.
    pose proof (for_each_true (arrayEq_test h rec a b) (seq 0 (array_length h a))
                  (mark a b s) R) as Ht.
    rewrite E in Ht.
    specialize (Ht eq_refl i). rewrite in_seq in Ht. specialize (Ht ltac:(lia)).
    unfold arrayEq_test in Ht. apply truthy_ret in Ht. destruct Ht as [v [Hv Hb']].
    exists v. split; [|exact Hb'].
    pose proof (Hres (get h a (index_key i)) (get h b (index_key i)) (mark a b s)) as Hr.
    destruct (rec _ _ _) as [res' s'']. simpl in *. subst res'.
    rewrite Hr by discriminate. reflexivity.
  - intros [Hlen Hall]. rewrite (arrayEq_unseen rec s Hlen Hs).
    rewrite for_each_all.
    + destruct (isArray_ref h a Ha) as [la [-> _]].
      destruct (isArray_ref h b Hb) as [lb [-> _]].
      rewrite unmark_mark; auto; apply Nat.eqb_refl.
    + intros i Hi. rewrite in_seq in Hi. destruct (Hall i ltac:(lia)) as [v [Hv Hb']].
      unfold arrayEq_test, truthy. rewrite Hv. simpl. rewrite Hb'. reflexivity.
Qed.

(** An element pair whose comparison is falsy makes the arrays unequal. *)
Lemma arrayEq_divergent (rec : value -> value -> M value) (s : seenObjects)
    (i : nat) (v : value) (r : bool) :
  (forall x y, settles (rec x y)) -> seen s a b = false ->
  i < array_length h a ->
  fst (rec (get h a (index_key i)) (get h b (index_key i)) (mark a b s)) = Ret v ->
  to_boolean v = false ->
  fst (arrayEq h rec a b s) = Ret r -> r = false.
Proof.
  intros Hres Hs Hi Hv Hf Hr. destruct r; [|reflexivity].
  pose proof (arrayEq_settles h rec a b Hres s) as Hrs.
  destruct (arrayEq h rec a b s) as [res s'] eqn:E. simpl in *. subst res.
  specialize (Hrs ltac:(discriminate)). subst s'.
  apply (arrayEq_true_iff rec s Hres Hs) in E. destruct E as [_ Hall].
  destruct (Hall i Hi) as [v' [Hv' Hb']]. rewrite Hv' in Hv. simpl in Hv.
  congruence.
Qed.

(** The loop stops at the first index whose elements compare falsy: the
    arrays are unequal, whatever comes after. *)
Lemma arrayEq_breaks (rec : value -> value -> M value) (s : seenObjects) (i : nat) :
  (forall x y, settles (rec x y)) ->
  array_length h a = array_length h b -> seen s a b = false ->
  i < array_length h a ->
  (forall j, j < i ->
     exists v, fst (rec (get h a (index_key j)) (get h b (index_key j)) (mark a b s))
               = Ret v /\ to_boolean v = true) ->
  (exists v, fst (rec (get h a (index_key i)) (get h b (index_key i)) (mark a b s))
             = Ret v /\ to_boolean v = false) ->
  arrayEq h rec a b s = (Ret false, s).
Proof.
  intros Hres Hlen Hs Hi Hbefore [v [Hv Hf]].
  rewrite (arrayEq_unseen rec s Hlen Hs).
  assert (Hsplit : seq 0 (array_length h a)
                   = seq 0 i ++ i :: seq (S i) (array_length h a - S i)).
  { replace (array_length h a) with (i + S (array_length h a - S i)) at 1 by lia.
    rewrite seq_app. reflexivity. }
  rewrite Hsplit, (for_each_breaks (arrayEq_test h rec a b)).
  - destruct (isArray_ref h a Ha) as [la [-> _]].
    destruct (isArray_ref h b Hb) as [lb [-> _]].
    rewrite unmark_mark; auto; apply Nat.eqb_refl.
  - intros j Hj. apply in_seq in Hj. destruct (Hbefore j ltac:(lia)) as [w [Hw Ht]].
    unfold arrayEq_test. rewrite (truthy_value _ _ w (Hres _ _) Hw), Ht. reflexivity.
  - unfold arrayEq_test. rewrite (truthy_value _ _ v (Hres _ _) Hv), Hf. reflexivity.
Qed.

End Arrays.

(** *** Primitives *)

Lemma type_number (h : heap) (x : spec_float) :
  type h (VNumber x) = Ret match x with S754_nan => TNaN | _ => TNumber end.
Proof.
  destruct x as [sx|sx| |sx m e]; try reflexivity.
  all: unfold type; cbn [strict_eq]; rewrite SFeqb_refl by discriminate; reflexivity.
Qed.

(** The type of a primitive. *)
Lemma type_primitive (h : heap) (v : value) :
  is_primitive v = true ->
  type h v = Ret match v with
                 | VUndefined => TUndefined
                 | VNull => TNull
                 | VBool _ => TBoolean
                 | VNumber S754_nan => TNaN
                 | VNumber _ => TNumber
                 | VString _ => TString
                 | VNative _ => TFunction
                 | _ => TUnknown
                 end.
Proof.
  destruct v as [| |b|x|str|id|f|l]; try discriminate; intros _;
    try reflexivity.
  - destruct b; reflexivity.
  - rewrite type_number. destruct x; reflexivity.
  - unfold type. cbn [strict_eq]. rewrite String.eqb_refl. reflexivity.
  - unfold type. cbn [strict_eq]. rewrite Nat.eqb_refl. reflexivity.
  - destruct f; reflexivity.
Qed.

(** A primitive is no delegate: it has no [objectId]. *)
Lemma is_delegate_primitive (h : heap) (v : value) :
  is_primitive v = true -> is_delegate h v = false.
Proof.
  destruct v as [| |b|x|str|id|f|l]; try discriminate; intros _;
    unfold is_delegate; try reflexivity; try apply andb_false_r.
  unfold get. rewrite (assoc_exotic_reserved "objectId" (IString str) eq_refl).
  change (to_boolean (builtin_get CString "objectId")) with false.
  rewrite andb_false_r. reflexivity.
Qed.

(** Two primitives that differ are unequal, in every heap and under every
    guard. *)
Lemma eq_divergent (h : heap) (x y : value) (fuel : nat) (s : seenObjects) :
  divergent x y = true -> eq h (S fuel) x y s = (Ret (VBool false), s).
Proof.
  unfold divergent. intros H.
  apply andb_prop in H. destruct H as [H Hne].
  apply andb_prop in H. destruct H as [Hx Hy].
  apply negb_true_iff in Hne.
  cbn [eq]. unfold eq_body, pure.
  rewrite Hne, (is_delegate_primitive h x Hx), (type_primitive h x Hx),
    (type_primitive h y Hy).
  destruct x as [| |bx|fx|sx|ix|nx|lx]; try discriminate Hx;
    destruct y as [| |by_|fy|sy|iy|ny|ly]; try discriminate Hy;
    try discriminate Hne; try reflexivity;
    try (destruct fx; reflexivity); try (destruct fy; reflexivity).
  - simpl in Hne |- *. rewrite Hne. reflexivity.
  - destruct fx, fy; try reflexivity; simpl in Hne |- *; rewrite Hne; reflexivity.
  - unfold invoke, get.
    rewrite !(assoc_exotic_reserved "valueOf" (IString _) eq_refl).
    simpl in Hne |- *. rewrite Hne. reflexivity.
Qed.

(** *** The guard holds no pair twice *)

Lemma no_duplicates_mark (s : seenObjects) (o1 o2 : value) :
  no_duplicates s = true -> seen s o1 o2 = false ->
  no_duplicates (mark o1 o2 s) = true.
Proof.
  unfold mark. induction s as [|[x y] s IH]; simpl; [reflexivity|].
  intros Hnd Hs. apply andb_prop in Hnd. destruct Hnd as [Hxy Hnd].
  destruct (strict_eq x o1 && strict_eq y o2) eqn:E; [discriminate|].
  rewrite IH by assumption. rewrite andb_true_r.
  change (s ++ [(o1, o2)]) with (mark o1 o2 s). rewrite seen_mark.
  apply negb_true_iff in Hxy. rewrite Hxy. simpl.
  rewrite (strict_eq_sym o1 x), (strict_eq_sym o2 y), E. reflexivity.
Qed.

Lemma for_each_agree {K} (test test' : K -> M bool) (ks : list K) (r : bool)
    (s : seenObjects) :
  (forall k, settles (test k)) -> (forall k, test' k s = test k s) ->
  for_each test' ks r s = for_each test ks r s.
Proof.
  intros Hr Ht. induction ks as [|k ks IH]; simpl; [reflexivity|].
  rewrite Ht. specialize (Hr k s).
  destruct (test k s) as [[[]| | |] s']; simpl in *; try reflexivity.
  specialize (Hr ltac:(discriminate)). subst s'. apply IH.
Qed.

Section Checked.
Variable h : heap.

Lemma eq_body_agree (rec rec' : value -> value -> M value) (a b : value)
    (s : seenObjects) :
  (forall x y, settles (rec x y)) -> agree rec rec' ->
  no_duplicates s = true ->
  eq_body h rec' a b s = eq_body h rec a b s.
Proof.
  intros Hres Hag Hnd. unfold eq_body, pure, boolean.
  destruct (strict_eq a b); [reflexivity|].
  destruct (is_delegate h a); [reflexivity|].
  destruct (type h a) as [ta| | |]; try reflexivity.
  destruct (type h b) as [tb| | |]; try reflexivity.
  destruct (negb (type_tag_eqb ta tb)); [reflexivity|].
  destruct ta; try reflexivity.
  - unfold arrayEq.
    destruct (negb (isArray h a) || negb (isArray h b)); [reflexivity|].
    destruct (negb _); [reflexivity|].
    unfold detectRecursion. destruct (seen s a b) eqn:Hs; [reflexivity|].
    rewrite (for_each_agree (arrayEq_test h rec a b) (arrayEq_test h rec' a b));
      [reflexivity| |].
    + intros i. apply truthy_settles, Hres.
    + intros i. unfold arrayEq_test, truthy.
      rewrite Hag by (apply no_duplicates_mark; assumption). reflexivity.
  - unfold objectEq.
    destruct (Object_keys h a) as [akeys| | |]; try reflexivity.
    destruct (Object_keys h b) as [bkeys| | |]; try reflexivity.
    destruct (negb _); [reflexivity|].
    unfold detectRecursion. destruct (seen s a b) eqn:Hs; [reflexivity|].
    rewrite (for_each_agree (objectEq_test h rec a b) (objectEq_test h rec' a b));
      [reflexivity| |].
    + intros k. apply objectEq_test_settles, Hres.
    + intros k. unfold objectEq_test, truthy.
      destruct (invoke h b "hasOwnProperty" [VString k]); try reflexivity.
      destruct (negb (to_boolean x)); [reflexivity|].
      rewrite Hag by (apply no_duplicates_mark; assumption). reflexivity.
Qed.

(** The assertion never fails: the checked [eq] is [eq]. *)
Lemma eq_checked_eq (fuel : nat) (a b : value) (s : seenObjects) :
  no_duplicates s = true -> eq_checked h fuel a b s = eq h fuel a b s.
Proof.
  revert a b s. induction fuel as [|fuel IH]; intros a b s Hnd; [reflexivity|].
  simpl. rewrite Hnd. apply eq_body_agree; [|exact (fun x y s0 => IH x y s0)|exact Hnd].
  intros x y. apply eq_settles.
Qed.

End Checked.

Lemma call_raises (h : heap) (f this : value) (args : list value) :
  raises_only_TypeError (call h f this args).
Proof.
  unfold raises_only_TypeError, call, call_native, call_code. intros e.
  case_matches; intros [= <-]; reflexivity.
Qed.

Lemma type_raises (h : heap) (o : value) : raises_only_TypeError (type h o).
Proof.
  unfold raises_only_TypeError, type. intros e.
  destruct (strict_eq o VNull); [discriminate|].
  destruct (strict_eq o VUndefined); [discriminate|].
  destruct (negb (strict_eq o o)); [discriminate|].
  destruct (toString_call h o) as [str|]; [|discriminate].
  unfold type_switch.
  case_ifs; try discriminate.
  pose proof (call_raises h (get h o "hasOwnProperty") o [VString "callee"]) as H.
  unfold invoke. destruct (call _ _ _ _); simpl; try discriminate.
  - destruct (to_boolean x); discriminate.
  - intros [= <-]. apply H. reflexivity.
Qed.

Lemma for_each_raises {K} (test : K -> M bool) (ks : list K) (r : bool)
    (s : seenObjects) :
  (forall k s0, raises_only_TypeError (fst (test k s0))) ->
  raises_only_TypeError (fst (for_each test ks r s)).
Proof.
  intros Ht. revert s. induction ks as [|k ks IH]; intros s; simpl; [discriminate|].
  specialize (Ht k s).
  destruct (test k s) as [[[]| | |] s']; simpl in *; try discriminate; auto.
Qed.

Lemma truthy_raises (m : M value) (s : seenObjects) :
  raises_only_TypeError (fst (m s)) -> raises_only_TypeError (fst (truthy m s)).
Proof.
  unfold truthy, raises_only_TypeError. destruct (m s) as [[]]; simpl;
    try discriminate.
  intros H e0 [= <-]. apply H. reflexivity.
Qed.

Lemma eq_raises (h : heap) (fuel : nat) (a b : value) (s : seenObjects) :
  raises_only_TypeError (fst (eq h fuel a b s)).
Proof.
  revert a b s. induction fuel as [|fuel IH]; intros a b s; [discriminate|].
  simpl. unfold eq_body, pure, boolean.
  destruct (strict_eq a b); [discriminate|].
  destruct (is_delegate h a); [apply call_raises|].
  pose proof (type_raises h a) as Ta. pose proof (type_raises h b) as Tb.
  destruct (type h a) as [ta| | |]; try discriminate;
    [|intros e0 [= <-]; apply Ta; reflexivity].
  destruct (type h b) as [tb| | |]; try discriminate;
    [|intros e0 [= <-]; apply Tb; reflexivity].
  destruct (negb (type_tag_eqb ta tb)); [discriminate|].
  assert (Hval : raises_only_TypeError (bind (invoke h a "valueOf" [])
            (fun x => bind (invoke h b "valueOf" [])
            (fun y => Ret (VBool (strict_eq x y)))))).
  { pose proof (call_raises h (get h a "valueOf") a []) as Ha.
    pose proof (call_raises h (get h b "valueOf") b []) as Hb.
    unfold invoke. destruct (call h (get h a "valueOf") a []); simpl;
      try discriminate; [|intros e0 [= <-]; apply Ha; reflexivity].
    destruct (call h (get h b "valueOf") b []); simpl;
      try discriminate. intros e0 [= <-]. apply Hb. reflexivity. }
  destruct ta; try discriminate; try exact Hval.
  - unfold arrayEq.
    destruct (negb (isArray h a) || negb (isArray h b)); [discriminate|].
    destruct (negb _); [discriminate|].
    unfold detectRecursion. destruct (seen s a b); [discriminate|].
    match goal with |- context [for_each ?t ?ks ?r ?s1] =>
      pose proof (for_each_raises t ks r s1) as HF;
      destruct (for_each t ks r s1) as [res s2] end.
    simpl in *. destruct res; simpl; try discriminate.
    intros e0 [= <-]. apply HF; [|reflexivity].
    intros i s0. apply truthy_raises, IH.
  - unfold objectEq.
    destruct (Object_keys h a) as [akeys| | |] eqn:Ka; try discriminate.
    2:{ destruct a; simpl in Ka; try discriminate; try (injection Ka as <-);
        try (intros e0 [= <-]; reflexivity).
        destruct (lookup h l); discriminate. }
    destruct (Object_keys h b) as [bkeys| | |] eqn:Kb; try discriminate.
    2:{ destruct b; simpl in Kb; try discriminate; try (injection Kb as <-);
        try (intros e0 [= <-]; reflexivity).
        destruct (lookup h l); discriminate. }
    destruct (negb _); [discriminate|].
    unfold detectRecursion. destruct (seen s a b); [discriminate|].
    match goal with |- context [for_each ?t ?ks ?r ?s1] =>
      pose proof (for_each_raises t ks r s1) as HF;
      destruct (for_each t ks r s1) as [res s2] end.
    simpl in *. destruct res; simpl; try discriminate.
    intros e0 [= <-]. apply HF; [|reflexivity].
    intros k s0. unfold objectEq_test.
    pose proof (call_raises h (get h b "hasOwnProperty") b [VString k]) as Hc.
    unfold invoke. destruct (call _ _ _ _); simpl; try discriminate.
    + destruct (negb _); [discriminate|]. apply truthy_raises, IH.
    + intros e1 [= <-]. apply Hc. reflexivity.
Qed.

(** *** Objects without a prototype *)

(** [type] raises on every plain object that neither owns nor inherits
    [hasOwnProperty]. *)
Lemma type_without_prototype (h : heap) (l : loc) (o : object) :
  lookup h l = Some o -> o_internal o = IObject -> o_proto o = ProtoNull ->
  assoc "hasOwnProperty" (o_props o) = None ->
  type h (VRef l) = Throw TypeError.
Proof.
  intros Ho Hi Hp Hown. rewrite (type_ref h l o Ho), Hi.
  unfold type_switch, invoke. simpl.
  assert (Hlen : l < List.length h).
  { apply nth_error_Some. unfold lookup in Ho. congruence. }
  destruct (List.length h) as [|n]; [lia|]. simpl.
  rewrite Ho. unfold own_props. rewrite Hi. simpl. rewrite Hown, Hp. reflexivity.
Qed.

(** *** Regular expressions *)

Lemma get_regexp (h : heap) (l : loc) (o : object) (r : regexp) :
  lookup h l = Some o -> o_internal o = IRegExp r ->
  get h (VRef l) "source" = VString (re_source r) /\
  get h (VRef l) "global" = VBool (re_global r) /\
  get h (VRef l) "multiline" = VBool (re_multiline r) /\
  get h (VRef l) "ignoreCase" = VBool (re_ignoreCase r).
Proof.
  intros Ho Hr. simpl.
  assert (Hlen : l < List.length h).
  { apply nth_error_Some. unfold lookup in Ho. congruence. }
  destruct (List.length h) as [|n]; [lia|]. simpl.
  rewrite Ho. unfold own_props. rewrite Hr. simpl. auto.
Qed.

(** The rule [eq] applies to two distinct regular expressions: the source and
    the [global], [multiline] and [ignoreCase] flags, and nothing else. *)
Lemma eq_regexps (h : heap) (la lb : loc) (oa ob : object) (ra rb : regexp)
    (fuel : nat) (s : seenObjects) :
  la <> lb -> is_delegate h (VRef la) = false ->
  lookup h la = Some oa -> o_internal oa = IRegExp ra ->
  lookup h lb = Some ob -> o_internal ob = IRegExp rb ->
  eq h (S fuel) (VRef la) (VRef lb) s =
  (Ret (VBool (String.eqb (re_source ra) (re_source rb) &&
               Bool.eqb (re_global ra) (re_global rb) &&
               Bool.eqb (re_multiline ra) (re_multiline rb) &&
               Bool.eqb (re_ignoreCase ra) (re_ignoreCase rb))), s).
Proof.
  intros Hne Hnd Hoa Hra Hob Hrb. simpl. unfold eq_body.
  change (strict_eq (VRef la) (VRef lb)) with (Nat.eqb la lb).
  destruct (Nat.eqb la lb) eqn:E; [apply Nat.eqb_eq in E; contradiction|].
  rewrite Hnd, (type_ref h la oa Hoa), (type_ref h lb ob Hob), Hra, Hrb.
  destruct (get_regexp h la oa ra Hoa Hra) as [-> [-> [-> ->]]].
  destruct (get_regexp h lb ob rb Hob Hrb) as [-> [-> [-> ->]]].
  reflexivity.
Qed.

(** *** Equality as a bisimulation

    In an ordinary heap the pairs a successful run of [eq] compares form a
    relation closed under one step of [eq], and [eq] never answers [false]
    on a pair of such a relation.  So what [eq] answers at top level does
    not depend on the guard: it is the largest such relation. *)

Lemma for_each_map {K L} (f : K -> L) (test : L -> M bool) (ks : list K) (r : bool)
    (s : seenObjects) :
  for_each (fun k => test (f k)) ks r s = for_each test (map f ks) r s.
Proof.
  revert s. induction ks as [|k ks IH]; intros s; simpl; [reflexivity|].
  destruct (test (f k) s) as [[[]| | |] s']; try reflexivity. apply IH.
Qed.

Lemma for_each_congr {K} (test test' : K -> M bool) (ks : list K) (r : bool)
    (s : seenObjects) :
  (forall k s0, In k ks -> test' k s0 = test k s0) ->
  for_each test' ks r s = for_each test ks r s.
Proof.
  revert s. induction ks as [|k ks IH]; intros s Ht; simpl; [reflexivity|].
  rewrite Ht by (left; reflexivity).
  destruct (test k s) as [[[]| | |] s']; try reflexivity.
  apply IH. intros k' s0 Hk. apply Ht. right. exact Hk.
Qed.

Section Children.
Variable h : heap.
Hypothesis Hh : ordinary h = true.

(** In an ordinary heap the body of [eq] either does not depend on the
    nested comparison, or is the guarded loop over the children. *)
Lemma eq_body_children (rec : value -> value -> M value) (a b : value)
    (s : seenObjects) :
  valid h a = true -> valid h b = true ->
  eq_body h rec a b s =
  match children_of h a b with
  | None => (fst (eq_body h (oracle never) a b []), s)
  | Some cs =>
      if seen s a b then (Ret (VBool true), s)
      else let '(res, s') := for_each (child_test rec) cs true (mark a b s) in
           (bind res (fun r => Ret (VBool r)),
            match res with OutOfFuel => s' | _ => unmark a b s' end)
  end.
Proof.
  intros Ha Hb. unfold eq_body, children_of, pure, boolean.
  destruct (strict_eq a b); [reflexivity|].
  rewrite (ordinary_no_delegate h Hh a).
  destruct (ordinary_type h Hh a Ha) as [ta Ta].
  destruct (ordinary_type h Hh b Hb) as [tb Tb].
  rewrite Ta, Tb.
  destruct (type_tag_eqb ta tb) eqn:Htag.
  2:{ destruct ta, tb; try discriminate Htag; reflexivity. }
  apply type_tag_eqb_eq in Htag. subst tb. cbn [negb].
  destruct ta; try reflexivity.
  - (* arrays *)
    unfold arrayEq.
    destruct (isArray h a); [|reflexivity].
    destruct (isArray h b); [|reflexivity].
    destruct (Nat.eqb (array_length h a) (array_length h b)); [|reflexivity].
    cbn [negb orb andb]. unfold detectRecursion.
    destruct (seen s a b); [reflexivity|].
    rewrite <- for_each_map.
    change (fun k => child_test rec (Some (get h a (index_key k), get h b (index_key k))))
      with (arrayEq_test h rec a b).
    destruct (for_each _ _ _ _) as [[r| | |] s']; reflexivity.
  - (* objects *)
    destruct (type_object_ref h _ Ta) as [la [-> Hla]].
    destruct (type_object_ref h _ Tb) as [lb [-> Hlb]].
    unfold objectEq.
    destruct (Object_keys h (VRef la)) as [akeys| | |]; try reflexivity.
    destruct (Object_keys h (VRef lb)) as [bkeys| | |]; try reflexivity.
    destruct (Nat.eqb (List.length akeys) (List.length bkeys)); [|reflexivity].
    cbn [negb]. unfold detectRecursion.
    destruct (seen s (VRef la) (VRef lb)); [reflexivity|].
    rewrite <- for_each_map.
    rewrite (for_each_congr (objectEq_test h rec (VRef la) (VRef lb))
               (fun k => child_test rec
                  (if has_own h (VRef lb) k
                   then Some (get h (VRef la) k, get h (VRef lb) k) else None))).
    + destruct (for_each _ _ _ _) as [[r| | |] s']; reflexivity.
    + intros k s0 _. unfold objectEq_test.
      rewrite (invoke_hasOwnProperty h Hh lb k Hb). cbn [to_boolean].
      destruct (has_own h (VRef lb) k); reflexivity.
Qed.

End Children.

Lemma related_app (ps qs : list (value * value)) (x y : value) :
  related (ps ++ qs) x y = related ps x y || related qs x y.
Proof. unfold related. apply existsb_app. Qed.

Lemma related_cons (p : value * value) (ps : list (value * value)) :
  related (p :: ps) (fst p) (snd p) = true.
Proof.
  unfold related. simpl.
  destruct (value_eq_dec (fst p) (fst p)); [|congruence].
  destruct (value_eq_dec (snd p) (snd p)); [|congruence]. reflexivity.
Qed.

Lemma related_head (a b : value) (ps : list (value * value)) (x y : value) :
  related ((a, b) :: ps) x y = true -> (x = a /\ y = b) \/ related ps x y = true.
Proof.
  unfold related. simpl.
  destruct (value_eq_dec a x); [|auto].
  destruct (value_eq_dec b y); [|auto]. auto.
Qed.

Lemma related_concat (pss : list (list (value * value))) (ps : list (value * value))
    (x y : value) :
  In ps pss -> related ps x y = true -> related (List.concat pss) x y = true.
Proof.
  intros Hin Hr. induction pss as [|qs pss IH]; simpl in *; [contradiction|].
  rewrite related_app. destruct Hin as [->|Hin].
  - rewrite Hr. reflexivity.
  - rewrite (IH Hin). apply orb_true_r.
Qed.

Lemma related_concat_inv (pss : list (list (value * value))) (x y : value) :
  related (List.concat pss) x y = true -> exists ps, In ps pss /\ related ps x y = true.
Proof.
  induction pss as [|qs pss IH]; simpl; [discriminate|].
  rewrite related_app. intros H. apply orb_prop in H. destruct H as [H|H].
  - exists qs. auto.
  - destruct (IH H) as [ps [Hin Hr]]. exists ps. auto.
Qed.

Lemma child_test_oracle (R : value -> value -> bool) (c : child) (s : seenObjects) :
  child_test (oracle R) c s =
  (Ret match c with Some (x, y) => R x y | None => false end, s).
Proof. destruct c as [[x y]|]; reflexivity. Qed.

Lemma child_test_settles (rec : value -> value -> M value) (c : child) :
  (forall x y, settles (rec x y)) -> settles (child_test rec c).
Proof.
  intros Hres. destruct c as [[x y]|]; simpl.
  - apply truthy_settles, Hres.
  - intros s. reflexivity.
Qed.

Lemma oracle_settles (R : value -> value -> bool) (x y : value) :
  settles (oracle R x y).
Proof. intros s. reflexivity. Qed.

Section Bisimulation.
Variable h : heap.
Hypothesis Hh : ordinary h = true.

Lemma children_valid (a b : value) (cs : list child) (x y : value) :
  children_of h a b = Some cs -> In (Some (x, y)) cs ->
  valid h x = true /\ valid h y = true.
Proof.
  unfold children_of. intros Hc Hin.
  destruct (strict_eq a b); [discriminate|].
  destruct (type h a) as [[]| | |]; try discriminate;
    destruct (type h b) as [[]| | |]; try discriminate.
  - destruct (_ && _); [|discriminate]. injection Hc as <-.
    apply in_map_iff in Hin. destruct Hin as [i [[= <- <-] _]].
    split; apply (get_valid h Hh).
  - destruct (Object_keys h a); try discriminate.
    destruct (Object_keys h b); try discriminate.
    destruct (Nat.eqb _ _); [|discriminate]. injection Hc as <-.
    apply in_map_iff in Hin. destruct Hin as [k [Hk _]].
    destruct (has_own h b k); [|discriminate]. injection Hk as <- <-.
    split; apply (get_valid h Hh).
Qed.

(** A composite pair is a pair of references. *)
Lemma children_refs (a b : value) (cs : list child) :
  children_of h a b = Some cs -> exists la lb, a = VRef la /\ b = VRef lb.
Proof.
  unfold children_of. intros Hc.
  destruct (strict_eq a b); [discriminate|].
  destruct (type h a) as [[]| | |] eqn:Ta; try discriminate;
    destruct (type h b) as [[]| | |] eqn:Tb; try discriminate.
  - destruct (isArray h a) eqn:Ia; [|discriminate].
    destruct (isArray h b) eqn:Ib; [|discriminate].
    destruct (isArray_ref h a Ia) as [la [-> _]].
    destruct (isArray_ref h b Ib) as [lb [-> _]]. eauto.
  - destruct (type_object_ref h a Ta) as [la [-> _]].
    destruct (type_object_ref h b Tb) as [lb [-> _]]. eauto.
Qed.

(** The body of [eq] on an oracle: what it takes to answer [true]. *)
Lemma oracle_true_iff (R : value -> value -> bool) (a b : value) :
  valid h a = true -> valid h b = true ->
  fst (eq_body h (oracle R) a b []) = Ret (VBool true) <->
  match children_of h a b with
  | None => fst (eq_body h (oracle never) a b []) = Ret (VBool true)
  | Some cs => forall c, In c cs -> exists x y, c = Some (x, y) /\ R x y = true
  end.
Proof.
  intros Ha Hb. rewrite (eq_body_children h Hh (oracle R) a b [] Ha Hb).
  destruct (children_of h a b) as [cs|]; [|reflexivity].
  cbn [seen].
  assert (Hres : forall c, settles (child_test (oracle R) c))
    by (intros c; apply child_test_settles, oracle_settles).
  destruct (for_each (child_test (oracle R)) cs true (mark a b [])) as [res s'] eqn:E.
  split.
  - intros Ht c Hc.
    assert (Hr : res = Ret true).
    { destruct res as [[]| | |]; simpl in Ht; congruence. }
    subst res.
    pose proof (for_each_true _ cs (mark a b []) Hres) as Hall.
    rewrite E in Hall. specialize (Hall eq_refl c Hc).
    rewrite child_test_oracle in Hall. simpl in Hall.
    destruct c as [[x y]|]; [|discriminate]. injection Hall as Hxy. eauto.
  - intros Hall.
    rewrite for_each_all in E.
    + injection E as <- _. reflexivity.
    + intros c Hc. destruct (Hall c Hc) as [x [y [-> Hxy]]].
      rewrite child_test_oracle, Hxy. reflexivity.
Qed.

Lemma closed_weaken (A A' R R' : value -> value -> bool) :
  closed h A R ->
  (forall x y, R x y = true -> valid h x = true /\ valid h y = true) ->
  (forall x y, R x y || A x y = true -> R' x y || A' x y = true) ->
  forall x y, R x y = true ->
    fst (eq_body h (oracle (fun u v => R' u v || A' u v)) x y []) = Ret (VBool true).
Proof.
  intros Hcl Hval Himp x y Hxy.
  destruct (Hval x y Hxy) as [Hx Hy].
  specialize (Hcl x y Hxy).
  rewrite oracle_true_iff in Hcl |- * by assumption.
  destruct (children_of h x y) as [cs|]; [|exact Hcl].
  intros c Hc. destruct (Hcl c Hc) as [u [v [-> Huv]]].
  exists u, v. split; [reflexivity|]. apply Himp, Huv.
Qed.

(** Completeness: [eq] never answers [false] on a pair of a bisimulation. *)
Lemma eq_complete (R : value -> value -> bool) :
  closed h never R ->
  (forall x y, R x y = true -> valid h x = true /\ valid h y = true) ->
  forall fuel a b s r,
    R a b = true -> fst (eq h fuel a b s) = Ret r -> r = VBool true.
Proof.
  intros Hcl Hval. induction fuel as [|fuel IH]; intros a b s r Hab; [discriminate|].
  destruct (Hval a b Hab) as [Ha Hb].
  pose proof (Hcl a b Hab) as Hstep.
  rewrite oracle_true_iff in Hstep by assumption.
  simpl. rewrite (eq_body_children h Hh (eq h fuel) a b s Ha Hb).
  destruct (children_of h a b) as [cs|]; [|simpl; congruence].
  destruct (seen s a b); [simpl; congruence|].
  assert (Hres : forall c, settles (child_test (eq h fuel) c)).
  { intros c. apply child_test_settles. intros x y. apply eq_settles. }
  destruct (for_each (child_test (eq h fuel)) cs true (mark a b s)) as [res s'] eqn:E.
  simpl. destruct res as [[]| | |]; simpl; try discriminate; [congruence|].
  intros _. exfalso.
  destruct (for_each_false _ cs (mark a b s) Hres) as [c [Hc Hf]];
    [rewrite E; reflexivity|].
  destruct (Hstep c Hc) as [x [y [-> Hxy]]].
  rewrite orb_false_r in Hxy.
  simpl in Hf. apply truthy_ret in Hf. destruct Hf as [v [Hv Hb']].
  rewrite (IH x y (mark a b s) v Hxy Hv) in Hb'. discriminate.
Qed.


Lemma collect {C P} (Q : C -> P -> Prop) (G : P -> Prop) (cs : list C) :
  (forall c, In c cs -> exists p, Q c p /\ G p) ->
  exists ps, (forall c, In c cs -> exists p, In p ps /\ Q c p) /\ Forall G ps.
Proof.
  induction cs as [|c cs IH]; intros H.
  - exists []. split; [contradiction|constructor].
  - destruct (H c (or_introl eq_refl)) as [p [Hq Hg]].
    destruct IH as [ps [Hps HG]]; [intros c' Hc'; apply H; right; exact Hc'|].
    exists (p :: ps). split; [|constructor; assumption].
    intros c' [<-|Hc'].
    + exists p. split; [left; reflexivity|exact Hq].
    + destruct (Hps c' Hc') as [p' [Hin Hq']]. exists p'. split; [right|]; assumption.
Qed.

(** The assumptions a nested comparison runs under are those of its caller
    and the caller's own pair. *)
Lemma marked_assumption (la lb : loc) (s : seenObjects) (R : value -> value -> bool)
    (u v : value) :
  R (VRef la) (VRef lb) = true ->
  seen (mark (VRef la) (VRef lb) s) u v = true -> R u v || seen s u v = true.
Proof.
  intros Hab. rewrite seen_mark. intros H. apply orb_prop in H.
  destruct H as [H|H]; [rewrite H; apply orb_true_r|].
  apply andb_prop in H. destruct H as [Hu Hv].
  apply strict_eq_ref_l in Hu, Hv. subst. rewrite Hab. reflexivity.
Qed.

(** A composite pair with relations for its children makes a larger
    relation: the pair itself and the union of the children's. *)
Lemma closed_node (A A' : value -> value -> bool) (a b : value) (cs : list child)
    (pss : list (list (value * value))) :
  valid h a = true -> valid h b = true ->
  children_of h a b = Some cs ->
  (forall c, In c cs -> exists qs, In qs pss /\ exists x y, c = Some (x, y) /\
      (related qs x y = true \/ A' x y = true)) ->
  (forall qs, In qs pss ->
      closed h A' (related qs) /\
      forall x y, related qs x y = true -> valid h x = true /\ valid h y = true) ->
  (forall u v, A' u v = true -> related ((a, b) :: List.concat pss) u v || A u v = true) ->
  closed h A (related ((a, b) :: List.concat pss)) /\
  forall x y, related ((a, b) :: List.concat pss) x y = true ->
              valid h x = true /\ valid h y = true.
Proof.
  intros Ha Hb Hcs Hpss HG HA.
  set (ps := (a, b) :: List.concat pss) in *.
  assert (Hup : forall qs u v, In qs pss ->
            related qs u v || A' u v = true -> related ps u v || A u v = true).
  { intros qs u v Hqs H. apply orb_prop in H. destruct H as [H|H]; [|apply HA, H].
    assert (related ps u v = true) as ->; [|reflexivity].
    unfold ps. change (related ((a, b) :: List.concat pss) u v)
      with (related ([(a, b)] ++ List.concat pss) u v).
    rewrite related_app, (related_concat pss qs u v Hqs H). apply orb_true_r. }
  split.
  - intros x y Hxy. apply related_head in Hxy. destruct Hxy as [[-> ->]|Hxy].
    + rewrite oracle_true_iff, Hcs by assumption.
      intros c Hc. destruct (Hpss c Hc) as [qs [Hqs [u [v [-> Huv]]]]].
      exists u, v. split; [reflexivity|].
      apply (Hup qs u v Hqs). destruct Huv as [->| ->];
        [reflexivity|apply orb_true_r].
    + apply related_concat_inv in Hxy. destruct Hxy as [qs [Hqs Hxy]].
      destruct (HG qs Hqs) as [Hcl Hval].
      apply (closed_weaken A' A (related qs) (related ps) Hcl Hval); [|exact Hxy].
      intros u v. apply (Hup qs u v Hqs).
  - intros x y Hxy. apply related_head in Hxy. destruct Hxy as [[-> ->]|Hxy]; [auto|].
    apply related_concat_inv in Hxy. destruct Hxy as [qs [Hqs Hxy]].
    apply (HG qs Hqs). exact Hxy.
Qed.

(** Soundness: the pairs a successful run has compared, together with the
    pairs it took for granted, are closed under one step of [eq]. *)
Lemma eq_sound (fuel : nat) (a b : value) (s : seenObjects) :
  valid h a = true -> valid h b = true ->
  fst (eq h fuel a b s) = Ret (VBool true) ->
  exists ps,
    (related ps a b = true \/ seen s a b = true) /\
    (closed h (seen s) (related ps) /\
     forall x y, related ps x y = true -> valid h x = true /\ valid h y = true).
Proof.
  revert a b s. induction fuel as [|fuel IH]; intros a b s Ha Hb; [discriminate|].
  simpl. rewrite (eq_body_children h Hh (eq h fuel) a b s Ha Hb).
  destruct (children_of h a b) as [cs|] eqn:Hcs.
  2:{ (* no nested comparison *)
      cbn [fst]. intros Hflat. exists [(a, b)].
      split; [left; apply (related_cons (a, b))|]. split.
      - intros x y Hxy. apply related_head in Hxy.
        destruct Hxy as [[-> ->]|Hxy]; [|discriminate].
        rewrite oracle_true_iff, Hcs by assumption. exact Hflat.
      - intros x y Hxy. apply related_head in Hxy.
        destruct Hxy as [[-> ->]|Hxy]; [auto|discriminate]. }
  destruct (seen s a b) eqn:Hs.
  { intros _. exists []. split; [right; reflexivity|].
    split; intros x y Hxy; discriminate. }
  assert (Hres : forall c, settles (child_test (eq h fuel) c)).
  { intros c. apply child_test_settles. intros x y. apply eq_settles. }
  destruct (for_each (child_test (eq h fuel)) cs true (mark a b s)) as [res s'] eqn:E.
  simpl. intros Hr.
  assert (res = Ret true) by (destruct res as [[]| | |]; simpl in Hr; congruence).
  subst res. clear Hr.
  pose proof (for_each_true _ cs (mark a b s) Hres) as Hall.
  rewrite E in Hall. specialize (Hall eq_refl).
  destruct (collect
      (fun (c : child) qs => exists x y, c = Some (x, y) /\
         (related qs x y = true \/ seen (mark a b s) x y = true))
      (fun qs => closed h (seen (mark a b s)) (related qs) /\
                 forall x y, related qs x y = true ->
                             valid h x = true /\ valid h y = true)
      cs) as [pss [Hpss HG]].
  { intros c Hc. specialize (Hall c Hc).
    destruct c as [[x y]|]; [|discriminate Hall].
    simpl in Hall. apply truthy_ret in Hall. destruct Hall as [v [Hv Htrue]].
    destruct (children_valid _ _ cs x y Hcs Hc) as [Hx Hy].
    assert (v = VBool true).
    { destruct (eq_boolish h Hh fuel x y (mark a b s) Hx Hy)
        as [Ho|[r Hr]]; rewrite Hv in *; [discriminate|].
      injection Hr as ->. simpl in Htrue. subst r. reflexivity. }
    subst v. destruct (IH x y _ Hx Hy Hv) as [qs [Hrel [Hcl Hval]]].
    exists qs. split; [|split; assumption]. exists x, y. auto. }
  rewrite Forall_forall in HG.
  exists ((a, b) :: List.concat pss).
  split; [left; apply (related_cons (a, b))|].
  apply (closed_node (seen s) (seen (mark a b s)) a b cs pss); auto.
  destruct (children_refs a b cs Hcs) as [la [lb [-> ->]]].
  intros u v. apply marked_assumption. apply (related_cons (VRef la, VRef lb)).
Qed.



End Bisimulation.

(** *** What the guard holds when the stack runs out

    A nested call of [eq] is made with the pair of its caller marked, and
    nothing unmarks where the run is cut: the guard then holds one pair for
    every call of [eq] in progress. *)



Section Exhausted.
Variable h : heap.




End Exhausted.

(** *** How deep the comparison goes

    Each composite comparison in progress holds one nested call of [eq] and
    one pair of [seenObjects].  On the towers of [Examples.tower] the depth
    grows with the nesting of the arrays; on two rings of [p] and [q] arrays
    it reaches [p * q + 1] when [p] and [q] have no common factor. *)













(** *** The repository's tests

    Some of the expectations of the test suite, run on the embedding. *)

Example test_recursive_arrays :
  map (fun p => fst (eq Examples.recursive_arrays 30 (VRef (fst p)) (VRef (snd p)) []))
      [(0, 1); (0, 2); (1, 0); (2, 0); (4, 0); (6, 0); (6, 7); (6, 8); (8, 9);
       (6, 10); (6, 11)]
  = map (fun r => Ret (VBool r))
      [true; true; true; true; true; false; false; false; false; true; true].
Proof. reflexivity. Qed.

Example test_recursive_objects :
  fst (eq Examples.recursive_objects 30 (VRef 0) (VRef 1) []) = Ret (VBool true) /\
  fst (eq Examples.recursive_objects 30 (VRef 2) (VRef 0) []) = Ret (VBool true) /\
  fst (eq Examples.recursive_objects_delta 30 (VRef 2) (VRef 0) []) = Ret (VBool false) /\
  fst (eq Examples.recursive_objects_deltas 30 (VRef 2) (VRef 0) []) = Ret (VBool true).
Proof. repeat split. Qed.

Example test_recursive_objects_and_arrays :
  map (fun p => fst (eq Examples.mixed_cycles 40 (VRef (fst p)) (VRef (snd p)) []))
      [(4, 5); (1, 2); (3, 4); (0, 1)]
  = map (fun r => Ret (VBool r)) [true; true; true; true] /\
  fst (eq Examples.mixed_cycles_y 40 (VRef 1) (VRef 2) []) = Ret (VBool false) /\
  fst (eq Examples.mixed_cycles_yz 40 (VRef 1) (VRef 2) []) = Ret (VBool true).
Proof. repeat split. Qed.

Example test_wrappers :
  map (fun p => fst (eq Examples.wrappers 5 (fst p) (snd p) []))
      [(VString "foo", VRef 0); (VRef 0, VString "foo"); (VString "foo", VString "Foo");
       (Build.num 21, VRef 1); (VRef 1, Build.num 22);
       (VNumber (S754_zero false), VNumber (S754_zero true));
       (VBool false, VRef 2); (VRef 2, VBool true);
       (VNull, VUndefined); (VNull, VNull); (NaN, Build.num 1); (Build.num 1, NaN)]
  = map (fun r => Ret (VBool r))
      [true; true; false; true; false; true; true; false; false; true; false; false].
Proof. reflexivity. Qed.

Example test_ignores_non_numeric_properties :
  eq Examples.arrays_with_extra 5 (VRef 0) (VRef 1) [] = (Ret (VBool true), []).
Proof. reflexivity. Qed.

(** ** The claims *)

(** C1. Self-referential arrays built independently, as in
    [let a=[1]; a.push(a); let b=[1]; b.push(b);], are equal.  For two distinct
    arrays [a] and [b] of the same length, [a] not a delegate:
    - when the pair [(a, b)] is already in the recursion guard, [arrayEq]
      answers [true] whatever the nested comparison is (it is never called),
      and so does [eq];
    - when every element pair is either strictly equal or the back-edge
      [(a, b)] itself, [eq(a, b)] is [true];
    - when the elements at some index are two primitives that differ, and
      those at every index before it are strictly equal or the back-edge,
      [eq(a, b)] is [false]: a back-edge does not hide the difference;
    - in general [eq(a, b)] is [false] when the nested comparison at some
      index returns a falsy value, those before it having returned truthy
      ones;
    - and whenever [eq(a, b)] returns while the nested comparison at some
      index returned a falsy value, it returns [false]. *)
Theorem C1_self_referential_arrays (h : heap) (a b : value) (s : seenObjects) :
  strict_eq a b = false -> isArray h a = true -> isArray h b = true ->
  is_delegate h a = false -> array_length h a = array_length h b ->
  (seen s a b = true ->
     (forall rec, arrayEq h rec a b s = (Ret true, s)) /\
     (forall fuel, eq h (S fuel) a b s = (Ret (VBool true), s))) /\
  (seen s a b = false ->
     (forall i, i < array_length h a ->
        strict_eq (get h a (index_key i)) (get h b (index_key i)) = true \/
        (get h a (index_key i) = a /\ get h b (index_key i) = b)) ->
     forall fuel, eq h (S (S fuel)) a b s = (Ret (VBool true), s)) /\
  (seen s a b = false ->
     forall i, i < array_length h a ->
       (forall j, j < i ->
          strict_eq (get h a (index_key j)) (get h b (index_key j)) = true \/
          (get h a (index_key j) = a /\ get h b (index_key j) = b)) ->
       divergent (get h a (index_key i)) (get h b (index_key i)) = true ->
       forall fuel, eq h (S (S fuel)) a b s = (Ret (VBool false), s)) /\
  (seen s a b = false ->
     forall fuel i, i < array_length h a ->
       (forall j, j < i ->
          exists v,
            fst (eq h fuel (get h a (index_key j)) (get h b (index_key j)) (mark a b s))
            = Ret v /\ to_boolean v = true) ->
       (exists v,
          fst (eq h fuel (get h a (index_key i)) (get h b (index_key i)) (mark a b s))
          = Ret v /\ to_boolean v = false) ->
       eq h (S fuel) a b s = (Ret (VBool false), s)) /\
  (seen s a b = false ->
     forall fuel i v r, i < array_length h a ->
       fst (eq h fuel (get h a (index_key i)) (get h b (index_key i)) (mark a b s)) = Ret v ->
       to_boolean v = false ->
       fst (eq h (S fuel) a b s) = Ret r -> r = VBool false).
Proof.
  intros Hne Ha Hb Hnd Hlen.
  assert (Hseen : forall s0 fuel, seen s0 a b = true ->
            eq h (S fuel) a b s0 = (Ret (VBool true), s0)).
  { intros s0 fuel Hs. simpl. rewrite (eq_body_arrays h a b Ha Hb _ _ Hne Hnd).
    unfold boolean. rewrite (arrayEq_seen h a b Ha Hb _ _ Hlen Hs). reflexivity. }
  assert (Hback : seen (mark a b s) a b = true).
  { rewrite seen_mark.
    destruct (isArray_ref h a Ha) as [la [-> _]].
    destruct (isArray_ref h b Hb) as [lb [-> _]].
    simpl. rewrite !Nat.eqb_refl. apply orb_true_r. }
  assert (Hsame : forall fuel x y,
            strict_eq x y = true \/ (x = a /\ y = b) ->
            eq h (S fuel) x y (mark a b s) = (Ret (VBool true), mark a b s)).
  { intros fuel x y [Heq|[-> ->]].
    - simpl. unfold eq_body. rewrite Heq. reflexivity.
    - apply Hseen, Hback. }
  assert (Hbreak : forall fuel i, seen s a b = false -> i < array_length h a ->
            (forall j, j < i ->
               exists v,
                 fst (eq h fuel (get h a (index_key j)) (get h b (index_key j))
                        (mark a b s)) = Ret v /\ to_boolean v = true) ->
            (exists v,
               fst (eq h fuel (get h a (index_key i)) (get h b (index_key i))
                      (mark a b s)) = Ret v /\ to_boolean v = false) ->
            eq h (S fuel) a b s = (Ret (VBool false), s)).
  { intros fuel i Hs Hi Hbefore Hat. simpl.
    rewrite (eq_body_arrays h a b Ha Hb _ _ Hne Hnd). unfold boolean.
    rewrite (arrayEq_breaks h a b Ha Hb (eq h fuel) s i); auto.
    intros x y. apply eq_settles. }
  split; [|split; [|split; [|split]]].
  - intros Hs. split; [|intros fuel; apply Hseen, Hs].
    intros rec. apply (arrayEq_seen h a b Ha Hb); assumption.
  - intros Hs Hel fuel.
    change (eq h (S (S fuel)) a b s) with (eq_body h (eq h (S fuel)) a b s).
    rewrite (eq_body_arrays h a b Ha Hb _ _ Hne Hnd). unfold boolean.
    assert (E : arrayEq h (eq h (S fuel)) a b s = (Ret true, s)).
    { apply (arrayEq_true_iff h a b Ha Hb); [intros x y; apply eq_settles|exact Hs|].
      split; [exact Hlen|]. intros i Hi. exists (VBool true). split; [|reflexivity].
      apply Hsame, Hel, Hi. }
    rewrite E. reflexivity.
  - intros Hs i Hi Hbefore Hdiv fuel. apply (Hbreak (S fuel) i Hs Hi).
    + intros j Hj. exists (VBool true).
      rewrite (Hsame fuel _ _ (Hbefore j Hj)). split; reflexivity.
    + exists (VBool false). rewrite (eq_divergent h _ _ fuel _ Hdiv).
      split; reflexivity.
  - intros Hs fuel i. apply Hbreak, Hs.
  - intros Hs fuel i v r Hi Hv Hf. simpl.
    rewrite (eq_body_arrays h a b Ha Hb _ _ Hne Hnd). unfold boolean.
    pose proof (arrayEq_divergent h a b Ha Hb (eq h fuel) s i v) as HD.
    destruct (arrayEq h (eq h fuel) a b s) as [[c| | |] s']; simpl; try discriminate.
    intros [= <-]. f_equal.
    apply HD; auto. intros x y. apply eq_settles.
Qed.

Lemma C1_self_referential_arrays_witness :
  eq Examples.self_arrays 2 (VRef 0) (VRef 1) [] = (Ret (VBool true), []) /\
  eq Examples.divergent_arrays 2 (VRef 0) (VRef 1) [] = (Ret (VBool false), []).
Proof.
  split.
  - destruct (C1_self_referential_arrays Examples.self_arrays (VRef 0) (VRef 1) []
                eq_refl eq_refl eq_refl eq_refl eq_refl) as [_ [H _]].
    apply (H eq_refl). intros i Hi.
    destruct i as [|[|i]].
    + left. reflexivity.
    + right. split; reflexivity.
    + simpl in Hi. lia.
  - destruct (C1_self_referential_arrays Examples.divergent_arrays (VRef 0) (VRef 1) []
                eq_refl eq_refl eq_refl eq_refl eq_refl) as [_ [_ [H _]]].
    apply (H eq_refl 0).
    + simpl. lia.
    + intros j Hj. lia.
    + reflexivity.
Defined.

(** The arrays of [divergent_arrays] and those of [self_arrays], run. *)
Example divergent_arrays_unequal :
  eq Examples.divergent_arrays 2 (VRef 0) (VRef 1) [] = (Ret (VBool false), []) /\
  eq Examples.self_arrays 2 (VRef 0) (VRef 1) [] = (Ret (VBool true), []).
Proof. split; reflexivity. Qed.




(** The life of a pair in the guard, for the runs the stack is deep enough
    for.  [detectRecursion] answers [true] on a marked pair without touching
    the guard; it marks an unmarked one, which keeps the guard free of
    duplicates, runs [f], and unmarks the pair when [f] ends, however it
    ends.  So [eq], when it ends, leaves [seenObjects] as it found it, and no
    call of [eq], nested ones included, ever sees a pair twice in it. *)
Lemma guard_lifecycle (h : heap) :
  (forall (R : Type) (o1 o2 : value) (f : R -> M R) (r0 : R) (s : seenObjects),
     (seen s o1 o2 = true -> detectRecursion o1 o2 f r0 s = (Ret (true, r0), s)) /\
     (seen s o1 o2 = false -> strict_eq o1 o1 = true -> strict_eq o2 o2 = true ->
        seen (mark o1 o2 s) o1 o2 = true /\
        (no_duplicates s = true -> no_duplicates (mark o1 o2 s) = true) /\
        (halted (fst (f r0 (mark o1 o2 s))) ->
         detectRecursion o1 o2 f r0 s =
           (bind (fst (f r0 (mark o1 o2 s))) (fun r => Ret (false, r)),
            unmark o1 o2 (snd (f r0 (mark o1 o2 s))))) /\
        (halted (fst (f r0 (mark o1 o2 s))) ->
         snd (f r0 (mark o1 o2 s)) = mark o1 o2 s ->
         snd (detectRecursion o1 o2 f r0 s) = s))) /\
  (forall fuel a b s, halted (fst (eq h fuel a b s)) -> snd (eq h fuel a b s) = s) /\
  (forall fuel a b s, no_duplicates s = true ->
     eq_checked h fuel a b s = eq h fuel a b s /\
     fst (eq_checked h fuel a b s) <> Throw duplicate_pair).
Proof.
  split; [|split].
  - intros R o1 o2 f r0 s. unfold detectRecursion. split.
    + intros ->. reflexivity.
    + intros Hs H1 H2. rewrite Hs. split; [|split; [|split]].
      * rewrite seen_mark, H1, H2. apply orb_true_r.
      * intros Hnd. apply no_duplicates_mark; assumption.
      * destruct (f r0 (mark o1 o2 s)) as [[r|e| |] s']; simpl; intros Hend;
          first [reflexivity|exfalso; apply Hend; reflexivity].
      * destruct (f r0 (mark o1 o2 s)) as [[r|e| |] s']; simpl; intros Hend Hs';
          first [subst s'; apply unmark_mark; assumption
                |exfalso; apply Hend; reflexivity].
  - intros fuel a b s. apply eq_settles.
  - intros fuel a b s Hnd. rewrite (eq_checked_eq h fuel a b s Hnd).
    split; [reflexivity|].
    intros H. apply eq_raises in H. discriminate.
Qed.

(** An exception raised while the pair of arrays is marked leaves nothing
    behind: [finally] unmarks it. *)
Example guard_restored_after_throw :
  eq Examples.bare_element 2 (VRef 0) (VRef 1) [] = (Throw TypeError, []).
Proof. reflexivity. Qed.



(** C4. [type] and [eq] are not total: on an object without a prototype
    [o.hasOwnProperty] is [undefined], and calling it raises a [TypeError]. *)
Theorem C4_object_without_prototype_raises :
  type Examples.bare_element (VRef 2) = Throw TypeError /\
  (forall fuel, eq Examples.bare_element (S fuel) (VRef 2) (VRef 3) []
                = (Throw TypeError, [])) /\
  (forall fuel, eq Examples.bare_element (S fuel) (VRef 3) (VRef 2) []
                = (Throw TypeError, [])).
Proof. repeat split. Qed.




(** C6. [eq] compares the source and three flags only: [/a/y] and [/a/] differ
    in the sticky flag and are reported equal. *)
Theorem C6_sticky_flag_ignored :
  type Examples.sticky_pair (VRef 0) = Ret TRegExp /\
  type Examples.sticky_pair (VRef 1) = Ret TRegExp /\
  get Examples.sticky_pair (VRef 0) "source" = get Examples.sticky_pair (VRef 1) "source" /\
  get Examples.sticky_pair (VRef 0) "sticky" = VBool true /\
  get Examples.sticky_pair (VRef 1) "sticky" = VBool false /\
  forall fuel, eq Examples.sticky_pair (S fuel) (VRef 0) (VRef 1) []
               = (Ret (VBool true), []).
Proof. repeat split. Qed.

(** The order in which the flags are written does not matter. *)
Example flag_order_irrelevant :
  Build.RegExp "^a*" "igm" = Build.RegExp "^a*" "mig".
Proof. reflexivity. Qed.

(** C7, as stated, fails: [eq(NaN, NaN)] is [false]; and [eq] is not
    symmetric on values that are not delegates themselves, when a delegate
    is nested in them ([[{}]] against [[new RynoObject()]]) or when an
    object has an own property that is not enumerable. *)
Lemma C7_counterexample :
  eq [] 1 NaN NaN [] = (Ret (VBool false), []) /\
  (is_delegate Examples.nested_delegate (VRef 0) = false /\
   is_delegate Examples.nested_delegate (VRef 1) = false /\
   eq Examples.nested_delegate 3 (VRef 0) (VRef 1) [] = (Ret (VBool true), []) /\
   eq Examples.nested_delegate 3 (VRef 1) (VRef 0) [] = (Ret (VBool false), [])) /\
  (is_delegate Examples.hidden_key (VRef 0) = false /\
   is_delegate Examples.hidden_key (VRef 1) = false /\
   eq Examples.hidden_key 2 (VRef 0) (VRef 1) [] = (Ret (VBool true), []) /\
   eq Examples.hidden_key 2 (VRef 1) (VRef 0) [] = (Ret (VBool false), [])).
Proof. repeat split. Qed.

(** C7, amended.  [eq(x, x)] is [true] for every value except [NaN].  In an
    ordinary heap (objects with their built-in prototype and enumerable own
    properties, none of them named [objectId], [eq], [hasOwnProperty] or
    [valueOf], so that no value is a delegate) [eq(a, b)] and [eq(b, a)]
    return the same boolean. *)
Theorem C7_reflexive_and_symmetric (h : heap) :
  (forall x fuel s, x <> NaN -> eq h (S fuel) x x s = (Ret (VBool true), s)) /\
  (ordinary h = true ->
   forall a b fuel,
     valid h a = true -> valid h b = true ->
     List.length h * List.length h < fuel ->
     exists r, eq h fuel a b [] = (Ret (VBool r), []) /\
               eq h fuel b a [] = (Ret (VBool r), [])).
Proof.
  split.
  - intros x fuel s Hx. simpl. unfold eq_body.
    rewrite (strict_eq_refl x Hx). reflexivity.
  - intros Hord a b fuel Ha Hb Hfuel.
    assert (Hroom : headroom h [] < fuel).
    { pose proof (headroom_le h []). lia. }
    destruct (eq_total h Hord fuel a b [] Ha Hb Hroom) as [r1 E1].
    destruct (eq_total h Hord fuel b a [] Hb Ha Hroom) as [r2 E2].
    exists r1. split; [exact E1|].
    assert (VBool r1 = VBool r2) as [= ->]; [|exact E2].
    apply (eq_symmetric h Hord fuel a b []); auto.
    + rewrite E1. reflexivity.
    + simpl. rewrite E2. reflexivity.
Qed.

Lemma C7_reflexive_and_symmetric_witness :
  eq Examples.self_arrays 1 (VRef 0) (VRef 0) [] = (Ret (VBool true), []) /\
  exists r, eq Examples.self_arrays 5 (VRef 0) (VRef 1) [] = (Ret (VBool r), []) /\
            eq Examples.self_arrays 5 (VRef 1) (VRef 0) [] = (Ret (VBool r), []).
Proof.
  destruct (C7_reflexive_and_symmetric Examples.self_arrays) as [Hrefl Hsym].
  split.
  - apply Hrefl. discriminate.
  - apply Hsym; try reflexivity. simpl. lia.
Defined.

(** C8. [NaN], and nothing else, is classified ["NaN"], a tag other than
    ["number"]; [eq(NaN, x)] is [false] when [x] is [NaN] or is classified
    ["number"] (a primitive or a [Number] object, [new Number(NaN)] included). *)
Theorem C8_not_a_number (h : heap) :
  (forall x, type h x = Ret TNaN <-> x = NaN) /\
  type_name TNaN <> type_name TNumber /\
  (forall x fuel s,
     x = NaN \/ type h x = Ret TNumber ->
     eq h (S fuel) NaN x s = (Ret (VBool false), s)).
Proof.
  split; [|split].
  - intros x. split; [|intros ->; reflexivity].
    unfold type.
    destruct (strict_eq x VNull); [discriminate|].
    destruct (strict_eq x VUndefined); [discriminate|].
    destruct (strict_eq x x) eqn:E; simpl.
    + destruct (toString_call h x) as [str|]; [|discriminate].
      unfold type_switch.
      case_ifs; try discriminate.
      destruct (invoke h x "hasOwnProperty" [VString "callee"]); simpl;
        try discriminate.
      destruct (to_boolean x0); discriminate.
    + intros _. destruct x as [| |b|x|str|id|f|l]; simpl in E; try discriminate.
      * destruct b; discriminate.
      * destruct x; try reflexivity; rewrite SFeqb_refl in E; discriminate.
      * rewrite String.eqb_refl in E. discriminate.
      * rewrite Nat.eqb_refl in E. discriminate.
      * destruct f; discriminate.
      * rewrite Nat.eqb_refl in E. discriminate.
  - discriminate.
  - intros x fuel s Hx. simpl. unfold eq_body.
    rewrite strict_eq_NaN_l.
    change (is_delegate h NaN) with false.
    change (type h NaN) with (@Ret type_tag TNaN).
    destruct Hx as [->|Hx].
    + reflexivity.
    + rewrite Hx. reflexivity.
Qed.

Lemma C8_not_a_number_witness :
  eq Examples.invalid_dates 1 NaN (VRef 2) [] = (Ret (VBool false), []) /\
  eq Examples.invalid_dates 1 NaN NaN [] = (Ret (VBool false), []).
Proof.
  destruct (C8_not_a_number Examples.invalid_dates) as [_ [_ H]].
  split; apply H; [right|left]; reflexivity.
Defined.

(** C9. [arrayEq(a, b)] is [false] as soon as one argument is not an array,
    also when the two arguments are identical; so a [true] answer means that
    both are arrays. *)
Theorem C9_arrayEq_requires_arrays (h : heap) (rec : value -> value -> M value)
    (a b : value) (s : seenObjects) :
  (isArray h a = false \/ isArray h b = false ->
   arrayEq h rec a b s = (Ret false, s)) /\
  (fst (arrayEq h rec a b s) = Ret true ->
   isArray h a = true /\ isArray h b = true).
Proof.
  unfold arrayEq. split.
  - intros [H|H]; rewrite H; [reflexivity|].
    rewrite orb_true_r. reflexivity.
  - destruct (isArray h a), (isArray h b); simpl; try discriminate. auto.
Qed.

Lemma C9_arrayEq_requires_arrays_witness :
  arrayEq_top [] 5 (VString "x") (VString "x") [] = (Ret false, []).
Proof.
  apply (C9_arrayEq_requires_arrays [] (eq [] 5) (VString "x") (VString "x") []).
  left. reflexivity.
Defined.

(** C10. Two distinct [Date] objects whose time value is [NaN] are not equal:
    [a.valueOf() === b.valueOf()] compares [NaN] with [NaN].  Each of them
    equals itself, by the identity test. *)
Theorem C10_invalid_dates (h : heap) (la lb : loc) (oa ob : object)
    (fuel : nat) (s : seenObjects) :
  la <> lb ->
  lookup h la = Some oa -> o_internal oa = IDate S754_nan ->
  lookup h lb = Some ob -> o_internal ob = IDate S754_nan ->
  is_delegate h (VRef la) = false ->
  get h (VRef la) "valueOf" = VNative NDateValueOf ->
  get h (VRef lb) "valueOf" = VNative NDateValueOf ->
  eq h (S fuel) (VRef la) (VRef lb) s = (Ret (VBool false), s) /\
  eq h (S fuel) (VRef la) (VRef la) s = (Ret (VBool true), s) /\
  eq h (S fuel) (VRef lb) (VRef lb) s = (Ret (VBool true), s).
Proof.
  intros Hne Hoa Hia Hob Hib Hnd Hva Hvb.
  split; [|split].
  - simpl. unfold eq_body.
    change (strict_eq (VRef la) (VRef lb)) with (Nat.eqb la lb).
    destruct (Nat.eqb la lb) eqn:E; [apply Nat.eqb_eq in E; contradiction|].
    rewrite Hnd, (type_ref h la oa Hoa), (type_ref h lb ob Hob), Hia, Hib.
    unfold invoke. rewrite Hva, Hvb. simpl.
    rewrite Hoa, Hob. destruct oa as [ia pa psa], ob as [ib pb psb].
    simpl in Hia, Hib. subst. reflexivity.
  - simpl. unfold eq_body. simpl. rewrite Nat.eqb_refl. reflexivity.
  - simpl. unfold eq_body. simpl. rewrite Nat.eqb_refl. reflexivity.
Qed.

Lemma C10_invalid_dates_witness :
  eq Examples.invalid_dates 1 (VRef 0) (VRef 1) [] = (Ret (VBool false), []) /\
  eq Examples.invalid_dates 1 (VRef 0) (VRef 0) [] = (Ret (VBool true), []) /\
  eq Examples.invalid_dates 1 (VRef 1) (VRef 1) [] = (Ret (VBool true), []).
Proof.
  apply (C10_invalid_dates Examples.invalid_dates 0 1
           (Build.Date S754_nan) (Build.Date S754_nan) 0 []);
    try reflexivity.
  discriminate.
Defined.

(** ** Further properties

    What the code does beyond the claims: the other branches of [eq], the
    exported [objectEq] and [detectRecursion], the string helpers and
    [getPath]. *)

Import Strings Path.

(** *** The branches of [eq] *)

(** X1. Values of different types are never equal, and a value whose type
    is ['function'], ['arguments'], ['null'], ['undefined'], ['NaN'] or
    ['unknown'] is equal to nothing but itself: unless the first argument
    is a delegate, [eq] then answers [a === b]. *)
Theorem eq_by_identity (h : heap) (a b : value) (ta tb : type_tag) (fuel : nat)
    (s : seenObjects) :
  is_delegate h a = false ->
  type h a = Ret ta -> type h b = Ret tb ->
  ta <> tb \/ compared_by_identity ta = true ->
  eq h (S fuel) a b s = (Ret (VBool (strict_eq a b)), s).
Proof.
  intros Hd Ta Tb Hk. cbn [eq]. unfold eq_body, pure.
  destruct (strict_eq a b); [reflexivity|].
  rewrite Hd, Ta, Tb.
  destruct (type_tag_eqb ta tb) eqn:Htag; [|reflexivity].
  apply type_tag_eqb_eq in Htag. subst tb.
  destruct Hk as [Hk|Hk]; [congruence|].
  destruct ta; try discriminate Hk; reflexivity.
Qed.

Lemma eq_by_identity_witness :
  eq Samples.two_functions 1 (VRef 0) (VRef 1) [] = (Ret (VBool false), []).
Proof.
  apply (eq_by_identity Samples.two_functions (VRef 0) (VRef 1) TFunction TFunction 0 []);
    try reflexivity.
  right. reflexivity.
Defined.

(** The type and the [valueOf()] of a value that stands for a primitive. *)
Lemma primitive_of_type (h : heap) (v : value) (t : type_tag) (x : value) :
  ordinary h = true ->
  primitive_of h v = Some (t, x) ->
  type h v = Ret t /\ (t <> TNaN -> invoke h v "valueOf" [] = Ret x).
Proof.
  intros Hh Hp. destruct v as [| |b|y|str|id|f|l]; try discriminate Hp.
  - injection Hp as <- <-. split; [destruct b|]; reflexivity.
  - injection Hp as <- <-. split; [apply type_number|].
    intros _. reflexivity.
  - injection Hp as <- <-. split.
    + unfold type. cbn [strict_eq]. rewrite String.eqb_refl. reflexivity.
    + intros _. unfold invoke, get.
      rewrite (assoc_exotic_reserved "valueOf" (IString str) eq_refl). reflexivity.
  - simpl in Hp. destruct (lookup h l) as [o|] eqn:Hl; [|discriminate].
    pose proof (get_reserved_ref h Hh l o "valueOf" Hl eq_refl) as Hv.
    unfold invoke. rewrite Hv, (type_ref h l o Hl).
    destruct o as [i p ps]. simpl in *.
    destruct i; try discriminate Hp; injection Hp as <- <-;
      (split; [reflexivity|intros _; simpl; rewrite Hl; reflexivity]).
Qed.

Lemma primitive_of_NaN (h : heap) (v x : value) :
  primitive_of h v = Some (TNaN, x) -> v = NaN /\ x = NaN.
Proof.
  destruct v as [| |b|y|str|id|f|l]; try discriminate.
  - destruct y; try discriminate. intros [= <-]. auto.
  - simpl. destruct (lookup h l) as [[[] p ps]|]; discriminate.
Qed.

(** X2. In an ordinary heap booleans, strings, numbers and dates, boxed or
    not, are compared by type and primitive value: [eq(a, b)] is [true]
    exactly when [a === b], or [a] and [b] have the same type and their
    primitive values are [===].  So [eq("foo", new String("foo"))] and
    [eq(0, -0)] are [true], and a number never equals a date. *)
Theorem eq_by_value (h : heap) (a b : value) (ta tb : type_tag) (x y : value)
    (fuel : nat) (s : seenObjects) :
  ordinary h = true ->
  primitive_of h a = Some (ta, x) -> primitive_of h b = Some (tb, y) ->
  eq h (S fuel) a b s =
  (Ret (VBool (strict_eq a b || type_tag_eqb ta tb && strict_eq x y)), s).
Proof.
  intros Hh Pa Pb.
  destruct (primitive_of_type h a ta x Hh Pa) as [Ta Va].
  destruct (primitive_of_type h b tb y Hh Pb) as [Tb Vb].
  cbn [eq]. unfold eq_body, pure.
  destruct (strict_eq a b); [reflexivity|].
  rewrite (ordinary_no_delegate h Hh a), Ta, Tb.
  destruct (type_tag_eqb ta tb) eqn:Htag; [|reflexivity].
  apply type_tag_eqb_eq in Htag. subst tb. cbn [negb orb andb].
  destruct ta.
  3:{ apply primitive_of_NaN in Pa. destruct Pa as [_ ->].
      rewrite strict_eq_NaN_l. reflexivity. }
  all: try (rewrite Va, Vb by discriminate; reflexivity).
  all: exfalso; clear - Pa; destruct a as [| |b0|y0|str|id|f|l]; try discriminate Pa;
    simpl in Pa;
    try (destruct y0; discriminate Pa);
    destruct (lookup h l) as [[[] p ps]|]; discriminate Pa.
Qed.

Lemma eq_by_value_witness :
  eq Examples.wrappers 1 (VString "foo") (VRef 0) [] = (Ret (VBool true), []).
Proof.
  apply (eq_by_value Examples.wrappers (VString "foo") (VRef 0) TString TString
           (VString "foo") (VString "foo") 0 []); reflexivity.
Defined.

Example eq_by_value_examples :
  map (fun p => fst (eq Samples.dates_and_regexps 1 (fst p) (snd p) []))
      [(VRef 0, VRef 1); (VRef 0, VNumber (S754_zero false));
       (VNumber (S754_zero false), VNumber (S754_zero true))]
  = map (fun r => Ret (VBool r)) [false; false; true].
Proof. reflexivity. Qed.

(** X3. An object tagged [[object Object]] that owns a property named
    [callee] is classified ['arguments'] (the fallback of [type]), so [eq]
    compares it by identity: in an ordinary heap it is equal to nothing but
    itself, whatever it holds. *)
Theorem callee_object_equals_only_itself (h : heap) (l : loc) (o : object) (b : value)
    (fuel : nat) (s : seenObjects) :
  ordinary h = true ->
  lookup h l = Some o -> o_internal o = IObject ->
  has_own h (VRef l) "callee" = true ->
  valid h b = true ->
  type h (VRef l) = Ret TArguments /\
  eq h (S fuel) (VRef l) b s = (Ret (VBool (strict_eq (VRef l) b)), s).
Proof.
  intros Hh Hl Hi Hc Hb.
  assert (Hv : valid h (VRef l) = true).
  { simpl. apply Nat.ltb_lt. apply nth_error_Some. unfold lookup in Hl. congruence. }
  assert (Ta : type h (VRef l) = Ret TArguments).
  { rewrite (type_ref h l o Hl), Hi. cbv [class_of_internal class_tag type_switch].
    simpl String.eqb. cbv iota.
    rewrite (invoke_hasOwnProperty h Hh l "callee" Hv), Hc. reflexivity. }
  split; [exact Ta|].
  destruct (ordinary_type h Hh b Hb) as [tb Tb].
  cbn [eq]. unfold eq_body, pure.
  destruct (strict_eq (VRef l) b); [reflexivity|].
  rewrite (ordinary_no_delegate h Hh), Ta, Tb.
  destruct tb; reflexivity.
Qed.

Lemma callee_object_equals_only_itself_witness :
  type Samples.callee_objects (VRef 0) = Ret TArguments /\
  eq Samples.callee_objects 1 (VRef 0) (VRef 1) [] = (Ret (VBool false), []).
Proof.
  apply (callee_object_equals_only_itself Samples.callee_objects 0
           (Build.plain [("callee", Build.num 1)]) (VRef 1) 0 []); reflexivity.
Defined.

Lemma append_last_inj (t u : string) (c : ascii) :
  (t ++ String c EmptyString)%string = (u ++ String c EmptyString)%string -> t = u.
Proof.
  revert u. induction t as [|a t IH]; intros [|b u]; simpl; intros H.
  - reflexivity.
  - injection H as _ H. destruct u; discriminate H.
  - injection H as _ H. destruct t; discriminate H.
  - injection H as -> H. f_equal. apply IH, H.
Qed.

(** X4. [type] raises only on an object tagged [[object Object]], and only
    the [TypeError] of the failed call of its [hasOwnProperty]: on
    primitives, arrays, functions, dates, regular expressions and boxed
    values it raises nothing. *)
Theorem type_raises_only_on_objects (h : heap) (v : value) (e : string) :
  type h v = Throw e ->
  e = TypeError /\
  exists l o, v = VRef l /\ lookup h l = Some o /\
    class_tag (class_of_internal (o_internal o)) = "Object" /\
    invoke h v "hasOwnProperty" [VString "callee"] = Throw TypeError.
Proof.
  intros Ht. pose proof (type_raises h v e Ht) as ->. split; [reflexivity|].
  unfold type in Ht.
  destruct (strict_eq v VNull); [discriminate|].
  destruct (strict_eq v VUndefined); [discriminate|].
  destruct (negb (strict_eq v v)); [discriminate|].
  destruct (toString_call h v) as [str|] eqn:Hs; [|discriminate].
  unfold type_switch in Ht.
  repeat match type of Ht with
         | (if ?c then Ret _ else _) = _ => destruct c; [discriminate|]
         end.
  destruct (String.eqb str "[object Object]") eqn:Hstr; [|discriminate].
  apply String.eqb_eq in Hstr. subst str.
  destruct (invoke h v "hasOwnProperty" [VString "callee"]) as [c|e'| |] eqn:Hi;
    simpl in Ht; try discriminate.
  { destruct (to_boolean c); discriminate. }
  injection Ht as ->.
  unfold toString_call in Hs.
  destruct (class_of h v) as [c|] eqn:Hc; [|discriminate].
  simpl in Hs. injection Hs as Hs.
  apply (append_last_inj _ "Object") in Hs.
  destruct v as [| |b|x|str|id|f|l]; simpl in Hc;
    try (injection Hc as <-; discriminate Hs).
  destruct (lookup h l) as [o|] eqn:Hl; [|discriminate Hc].
  injection Hc as <-. exists l, o. auto.
Qed.

Lemma type_raises_only_on_objects_witness :
  exists l o, VRef 2 = VRef l /\ lookup Examples.bare_element l = Some o /\
    class_tag (class_of_internal (o_internal o)) = "Object" /\
    invoke Examples.bare_element (VRef 2) "hasOwnProperty" [VString "callee"]
    = Throw TypeError.
Proof.
  destruct (type_raises_only_on_objects Examples.bare_element (VRef 2) TypeError)
    as [_ H]; [reflexivity|exact H].
Defined.

(** X5. A value with a truthy [objectId] whose [eq] is the default
    [RynoObject.prototype.eq] is compared by identity, whatever it and the
    other value hold: [eq(a, b)] is [a === b]. *)
Theorem default_eq_is_identity (h : heap) (a b : value) (lf : loc) (fo : object)
    (fuel : nat) (s : seenObjects) :
  to_boolean a = true ->
  to_boolean (get h a "objectId") = true ->
  get h a "eq" = VRef lf -> lookup h lf = Some fo ->
  o_internal fo = IFunction RynoObject_eq ->
  eq h (S fuel) a b s = (Ret (VBool (strict_eq a b)), s).
Proof.
  intros Ha Hid Heq Hl Hf. cbn [eq]. unfold eq_body, pure.
  destruct (strict_eq a b) eqn:E; [reflexivity|].
  unfold is_delegate, invoke, call. rewrite Ha, Hid, Heq. cbn [is_function].
  rewrite Hl. destruct fo as [i p ps]. simpl in Hf. subst i. simpl.
  rewrite E. reflexivity.
Qed.

Lemma default_eq_is_identity_witness :
  eq Examples.nested_delegate 1 (VRef 3) (VRef 2) [] = (Ret (VBool false), []).
Proof.
  apply (default_eq_is_identity Examples.nested_delegate (VRef 3) (VRef 2) 5
           (mkObject (IFunction RynoObject_eq) ProtoBuiltin []) 0 []); reflexivity.
Defined.

(** *** The guard and [NaN] *)

Lemma seen_NaN (s : seenObjects) (o1 o2 : value) :
  o1 = NaN \/ o2 = NaN -> seen s o1 o2 = false.
Proof.
  intros H. induction s as [|[x y] s IH]; simpl; [reflexivity|].
  rewrite IH. destruct H as [-> | ->].
  - rewrite (strict_eq_sym x NaN), strict_eq_NaN_l. reflexivity.
  - rewrite (strict_eq_sym y NaN), strict_eq_NaN_l, andb_false_r. reflexivity.
Qed.

Lemma unmark_NaN (s : seenObjects) (o1 o2 : value) :
  o1 = NaN \/ o2 = NaN -> unmark o1 o2 s = s.
Proof.
  intros H. induction s as [|[x y] s IH]; simpl; [reflexivity|].
  rewrite IH. destruct H as [-> | ->].
  - rewrite (strict_eq_sym x NaN), strict_eq_NaN_l. reflexivity.
  - rewrite (strict_eq_sym y NaN), strict_eq_NaN_l, andb_false_r. reflexivity.
Qed.

(** X6. A pair with [NaN] in it is never found by [seen] nor removed by
    [unmark]: [detectRecursion] on such a pair runs [f], answers [false] and
    leaves the pair behind in [seenObjects]; so does the exported
    [objectEq] on [NaN], which answers [true]. *)
Theorem guard_leak_on_NaN {R} (h : heap) (o1 o2 : value) (f : R -> M R) (r0 : R)
    (fuel : nat) (s : seenObjects) :
  o1 = NaN \/ o2 = NaN ->
  restores (f r0) ->
  detectRecursion o1 o2 f r0 s =
    (bind (fst (f r0 (s ++ [(o1, o2)]))) (fun r => Ret (false, r)), s ++ [(o1, o2)]) /\
  objectEq_top h fuel NaN NaN s = (Ret true, s ++ [(NaN, NaN)]).
Proof.
  intros Hn Hres. split.
  - unfold detectRecursion. rewrite (seen_NaN s o1 o2 Hn). unfold mark.
    specialize (Hres (s ++ [(o1, o2)])).
    destruct (f r0 (s ++ [(o1, o2)])) as [res s2]. simpl in Hres. subst s2.
    rewrite (unmark_NaN _ o1 o2 Hn). destruct res; reflexivity.
  - unfold objectEq_top, objectEq, detectRecursion. simpl.
    rewrite (seen_NaN s NaN NaN (or_introl eq_refl)).
    rewrite (unmark_NaN _ NaN NaN (or_introl eq_refl)). reflexivity.
Qed.

Lemma guard_leak_on_NaN_witness :
  detectRecursion NaN VNull (fun (r : bool) s => (Ret r, s)) true []
    = (Ret (false, true), [(NaN, VNull)]) /\
  objectEq_top [] 0 NaN NaN [] = (Ret true, [(NaN, NaN)]).
Proof.
  apply (guard_leak_on_NaN [] NaN VNull (fun (r : bool) s => (Ret r, s)) true 0 []).
  - left. reflexivity.
  - intros s. reflexivity.
Defined.

(** X7. The exported [objectEq] looks at enumerable own properties only:
    two values that have none are equal to it, whatever they are
    ([objectEq(1, 2)] is [true]). *)
Theorem objectEq_without_keys (h : heap) (fuel : nat) (a b : value) (s : seenObjects) :
  Object_keys h a = Ret [] -> Object_keys h b = Ret [] ->
  fst (objectEq_top h fuel a b s) = Ret true.
Proof.
  intros Ka Kb. unfold objectEq_top, objectEq, detectRecursion.
  rewrite Ka, Kb. simpl. destruct (seen s a b); reflexivity.
Qed.

Lemma objectEq_without_keys_witness :
  fst (objectEq_top Samples.dates_and_regexps 0 (Build.num 1) (Build.num 2) []) = Ret true /\
  fst (objectEq_top Samples.dates_and_regexps 0 (VRef 0) (VRef 3) []) = Ret true.
Proof.
  split.
  - apply (objectEq_without_keys Samples.dates_and_regexps 0
             (Build.num 1) (Build.num 2) []); reflexivity.
  - apply (objectEq_without_keys Samples.dates_and_regexps 0 (VRef 0) (VRef 3) []);
      reflexivity.
Defined.

(** *** Equality at top level *)

Section TopLevel.
Variable h : heap.
Hypothesis Hh : ordinary h = true.

(** At top level [eq] answers [true] exactly on the pairs of some relation
    closed under one step of [eq]. *)
Lemma eq_true_iff_closed (a b : value) (fuel : nat) :
  valid h a = true -> valid h b = true ->
  List.length h * List.length h < fuel ->
  eq h fuel a b [] = (Ret (VBool true), []) <->
  exists ps, related ps a b = true /\ closed h never (related ps) /\
    forall x y, related ps x y = true -> valid h x = true /\ valid h y = true.
Proof.
  intros Ha Hb Hfuel.
  assert (Hroom : headroom h [] < fuel).
  { pose proof (headroom_le h []). lia. }
  split.
  - intros H.
    destruct (eq_sound h Hh fuel a b [] Ha Hb) as [ps [Hrel [Hcl Hval]]];
      [rewrite H; reflexivity|].
    destruct Hrel as [Hrel|Hrel]; [|discriminate].
    exists ps. auto.
  - intros [ps [Hrel [Hcl Hval]]].
    destruct (eq_total h Hh fuel a b [] Ha Hb Hroom) as [r E].
    rewrite E. f_equal. f_equal.
    apply (eq_complete h Hh _ Hcl Hval fuel a b [] (VBool r) Hrel).
    rewrite E. reflexivity.
Qed.

(** A composite pair is equal at top level exactly when each of its nested
    comparisons, made afresh at top level, answers [true]. *)
Lemma eq_children_top_level (a b : value) (cs : list child) (fuel : nat) :
  valid h a = true -> valid h b = true ->
  List.length h * List.length h < fuel ->
  children_of h a b = Some cs ->
  eq h fuel a b [] = (Ret (VBool true), []) <->
  forall c, In c cs ->
    exists x y, c = Some (x, y) /\ eq h fuel x y [] = (Ret (VBool true), []).
Proof.
  intros Ha Hb Hfuel Hcs.
  assert (Hroom : headroom h [] < fuel).
  { pose proof (headroom_le h []). lia. }
  split.
  - intros H c Hc.
    destruct (eq_sound h Hh fuel a b [] Ha Hb) as [ps [Hrel [Hcl Hval]]];
      [rewrite H; reflexivity|].
    destruct Hrel as [Hrel|Hrel]; [|discriminate].
    pose proof (Hcl a b Hrel) as Hstep.
    rewrite (oracle_true_iff h Hh) in Hstep by assumption.
    rewrite Hcs in Hstep.
    destruct (Hstep c Hc) as [x [y [-> Hxy]]]. exists x, y. split; [reflexivity|].
    rewrite orb_false_r in Hxy.
    destruct (children_valid h Hh a b cs x y Hcs Hc) as [Hx Hy].
    destruct (eq_total h Hh fuel x y [] Hx Hy Hroom) as [r E].
    rewrite E. f_equal. f_equal.
    apply (eq_complete h Hh (related ps) Hcl Hval fuel _ _ [] (VBool r) Hxy).
    rewrite E. reflexivity.
  - intros Hall.
    destruct (collect
      (fun (c : child) qs => exists x y, c = Some (x, y) /\
         (related qs x y = true \/ never x y = true))
      (fun qs => closed h never (related qs) /\
                 forall x y, related qs x y = true ->
                             valid h x = true /\ valid h y = true)
      cs) as [pss [Hpss HG]].
    { intros c Hc. destruct (Hall c Hc) as [x [y [-> Hxy]]].
      destruct (children_valid h Hh a b cs x y Hcs Hc) as [Hx Hy].
      destruct (eq_sound h Hh fuel x y [] Hx Hy) as [qs [Hrel [Hcl Hval]]];
        [rewrite Hxy; reflexivity|].
      exists qs. split; [|split; assumption].
      destruct Hrel as [Hrel|Hrel]; [|discriminate]. eauto. }
    rewrite Forall_forall in HG.
    destruct (closed_node h Hh never never a b _ pss Ha Hb Hcs Hpss HG) as [Hcl Hval];
      [discriminate|].
    destruct (eq_total h Hh fuel a b [] Ha Hb Hroom) as [r E].
    rewrite E. f_equal. f_equal.
    apply (eq_complete h Hh _ Hcl Hval fuel a b [] (VBool r)).
    + apply (related_cons (a, b)).
    + rewrite E. reflexivity.
Qed.

End TopLevel.

(** X8. At top level, two distinct objects of an ordinary heap are equal
    exactly when they have as many enumerable keys and, for every key of the
    first, the second has the key and [eq], called afresh on the two values,
    answers [true]; the order of the keys does not matter. *)
Theorem eq_objects_top_level (h : heap) (a b : value) (ka kb : list string)
    (fuel : nat) :
  ordinary h = true -> valid h a = true -> valid h b = true ->
  strict_eq a b = false ->
  type h a = Ret TObject -> type h b = Ret TObject ->
  Object_keys h a = Ret ka -> Object_keys h b = Ret kb ->
  List.length h * List.length h < fuel ->
  eq h fuel a b [] = (Ret (VBool true), []) <->
  List.length ka = List.length kb /\
  forall k, In k ka ->
    has_own h b k = true /\
    eq h fuel (get h a k) (get h b k) [] = (Ret (VBool true), []).
Proof.
  intros Hh Ha Hb Hne Ta Tb Ka Kb Hfuel.
  destruct (Nat.eqb (List.length ka) (List.length kb)) eqn:Hlen.
  - assert (Hcs : children_of h a b =
        Some (map (fun k => if has_own h b k
                            then Some (get h a k, get h b k) else None) ka)).
    { unfold children_of. rewrite Hne, Ta, Tb, Ka, Kb, Hlen. reflexivity. }
    rewrite (eq_children_top_level h Hh a b _ fuel Ha Hb Hfuel Hcs).
    apply Nat.eqb_eq in Hlen. split.
    + intros H. split; [exact Hlen|]. intros k Hk.
      destruct (H (if has_own h b k then Some (get h a k, get h b k) else None))
        as [x [y [E Hxy]]].
      { apply in_map_iff. exists k. auto. }
      destruct (has_own h b k); [|discriminate E].
      injection E as <- <-. auto.
    + intros [_ H] c Hc. apply in_map_iff in Hc. destruct Hc as [k [<- Hk]].
      destruct (H k Hk) as [-> Hxy]. eauto.
  - split.
    + intros H. exfalso.
      destruct fuel as [|fuel]; [discriminate H|].
      cbn [eq] in H. unfold eq_body in H.
      rewrite Hne, (ordinary_no_delegate h Hh a), Ta, Tb in H.
      cbn in H. unfold boolean, objectEq in H. rewrite Ka, Kb, Hlen in H.
      discriminate H.
    + intros [H _]. apply Nat.eqb_neq in Hlen. contradiction.
Qed.

Lemma eq_objects_top_level_witness :
  eq Examples.recursive_objects 10 (VRef 0) (VRef 2) [] = (Ret (VBool true), []) <->
  List.length ["self"; "other"] = List.length ["other"; "self"] /\
  forall k, In k ["self"; "other"] ->
    has_own Examples.recursive_objects (VRef 2) k = true /\
    eq Examples.recursive_objects 10 (get Examples.recursive_objects (VRef 0) k)
       (get Examples.recursive_objects (VRef 2) k) [] = (Ret (VBool true), []).
Proof.
  apply (eq_objects_top_level Examples.recursive_objects (VRef 0) (VRef 2)
           ["self"; "other"] ["other"; "self"] 10); try reflexivity.
  simpl. lia.
Defined.

(** X9. In an ordinary heap, [eq(a, b)] is [true] at top level exactly when
    some finite relation holds the pair and is closed under one step of
    [eq], nested comparisons being answered by the relation: [eq] decides
    bisimilarity. *)
Theorem eq_is_bisimilarity (h : heap) (a b : value) (fuel : nat) :
  ordinary h = true -> valid h a = true -> valid h b = true ->
  List.length h * List.length h < fuel ->
  (eq h fuel a b [] = (Ret (VBool true), []) <->
   exists ps, related ps a b = true /\ closed h never (related ps) /\
     forall x y, related ps x y = true -> valid h x = true /\ valid h y = true).
Proof. intros Hh. apply (eq_true_iff_closed h Hh). Qed.

Lemma eq_is_bisimilarity_witness :
  eq Examples.self_arrays 5 (VRef 0) (VRef 1) [] = (Ret (VBool true), []) <->
  exists ps, related ps (VRef 0) (VRef 1) = true /\
    closed Examples.self_arrays never (related ps) /\
    forall x y, related ps x y = true ->
      valid Examples.self_arrays x = true /\ valid Examples.self_arrays y = true.
Proof.
  apply (eq_is_bisimilarity Examples.self_arrays (VRef 0) (VRef 1) 5); try reflexivity.
  simpl. lia.
Defined.

(** X10. In an ordinary heap, a comparison that answers [true] at top level
    answers [true] whatever [seenObjects] holds when it is made: pairs left
    in the guard cannot turn [true] into [false]. *)
Theorem eq_true_under_any_guard (h : heap) (a b : value) (fuel : nat)
    (s : seenObjects) :
  ordinary h = true -> valid h a = true -> valid h b = true ->
  List.length h * List.length h < fuel ->
  eq h fuel a b [] = (Ret (VBool true), []) ->
  eq h fuel a b s = (Ret (VBool true), s).
Proof.
  intros Hh Ha Hb Hfuel H.
  apply (eq_true_iff_closed h Hh a b fuel Ha Hb Hfuel) in H.
  destruct H as [ps [Hrel [Hcl Hval]]].
  assert (Hroom : headroom h s < fuel).
  { pose proof (headroom_le h s). lia. }
  destruct (eq_total h Hh fuel a b s Ha Hb Hroom) as [r E].
  rewrite E. f_equal. f_equal.
  apply (eq_complete h Hh _ Hcl Hval fuel a b s (VBool r) Hrel).
  rewrite E. reflexivity.
Qed.

Lemma eq_true_under_any_guard_witness :
  eq Examples.self_arrays 5 (VRef 0) (VRef 1) [(VRef 1, VRef 0); (NaN, NaN)]
  = (Ret (VBool true), [(VRef 1, VRef 0); (NaN, NaN)]).
Proof.
  apply (eq_true_under_any_guard Examples.self_arrays (VRef 0) (VRef 1) 5);
    try reflexivity.
  simpl. lia.
Defined.

(** *** Transitivity *)

Lemma SFeqb_true (x y : spec_float) :
  SFeqb x y = true ->
  x = y \/ exists s1 s2, x = S754_zero s1 /\ y = S754_zero s2.
Proof.
  unfold SFeqb, SFcompare.
  destruct x as [sx|sx| |sx mx ex], y as [sy|sy| |sy my ey]; try discriminate;
    try (destruct sx; discriminate); try (destruct sy; discriminate);
    [eauto|destruct sx, sy; try discriminate; auto|].
  destruct sx, sy; try discriminate;
    (destruct (Z.compare ex ey) eqn:He; try discriminate;
     destruct (Pos.compare mx my) eqn:Hm;
     change (PosDef.Pos.compare_cont Eq mx my) with (Pos.compare mx my);
     rewrite Hm; try discriminate;
     apply Z.compare_eq in He; apply Pos.compare_eq in Hm; subst; auto).
Qed.

(** Values that are [===] are the same value, or two zeros. *)
Lemma strict_eq_true (x y : value) :
  strict_eq x y = true ->
  x = y \/ exists s1 s2, x = VNumber (S754_zero s1) /\ y = VNumber (S754_zero s2).
Proof.
  destruct x as [| |b|u|str|id|f|l], y as [| |b'|u'|str'|id'|f'|l']; try discriminate;
    simpl; auto.
  - intros H. apply Bool.eqb_prop in H. subst. auto.
  - intros H. destruct (SFeqb_true u u' H) as [->|[s1 [s2 [-> ->]]]]; eauto.
  - intros H. apply String.eqb_eq in H. subst. auto.
  - intros H. apply Nat.eqb_eq in H. subst. auto.
  - destruct f, f'; try discriminate; auto.
  - intros H. apply Nat.eqb_eq in H. subst. auto.
Qed.

Lemma strict_eq_zero (s1 s2 : bool) (q : value) :
  strict_eq (VNumber (S754_zero s1)) q = strict_eq (VNumber (S754_zero s2)) q.
Proof. destruct q as [| |b|[]| | | |]; reflexivity. Qed.

Lemma strict_eq_trans (x y z : value) :
  strict_eq x y = true -> strict_eq y z = true -> strict_eq x z = true.
Proof.
  intros Hxy Hyz.
  destruct (strict_eq_true x y Hxy) as [->|[s1 [s2 [-> ->]]]]; [exact Hyz|].
  rewrite (strict_eq_zero s1 s2). exact Hyz.
Qed.

Section Transitivity.
Variable h : heap.
Hypothesis Hh : ordinary h = true.

Lemma eq_body_zero_l (rec : value -> value -> M value) (s1 s2 : bool) (z : value)
    (s : seenObjects) :
  eq_body h rec (VNumber (S754_zero s1)) z s = eq_body h rec (VNumber (S754_zero s2)) z s.
Proof.
  unfold eq_body. rewrite (strict_eq_zero s1 s2 z).
  destruct (strict_eq _ z); [reflexivity|].
  cbn. destruct (type h z) as [[]| | |]; reflexivity.
Qed.

Lemma eq_body_zero_r (rec : value -> value -> M value) (s1 s2 : bool) (x : value)
    (s : seenObjects) :
  eq_body h rec x (VNumber (S754_zero s1)) s = eq_body h rec x (VNumber (S754_zero s2)) s.
Proof.
  unfold eq_body.
  rewrite (strict_eq_sym x), (strict_eq_zero s1 s2 x), <- (strict_eq_sym x).
  destruct (strict_eq x _); [reflexivity|].
  rewrite (ordinary_no_delegate h Hh x).
  destruct (type h x) as [tx| | |]; try reflexivity.
  cbn. destruct tx; try reflexivity; cbn; unfold pure;
    destruct (invoke h x "valueOf" []) as [p| | |]; simpl; try reflexivity;
    rewrite (strict_eq_sym p), (strict_eq_zero s1 s2 p), <- (strict_eq_sym p);
    reflexivity.
Qed.

(** One step of [eq] under a larger relation. *)
Lemma step_mono (R R' : value -> value -> bool) (x y : value) :
  valid h x = true -> valid h y = true ->
  (forall u v, R u v = true -> R' u v = true) ->
  fst (eq_body h (oracle R) x y []) = Ret (VBool true) ->
  fst (eq_body h (oracle R') x y []) = Ret (VBool true).
Proof.
  intros Hx Hy Hsub H.
  rewrite (oracle_true_iff h Hh) in H |- * by assumption.
  destruct (children_of h x y) as [cs|]; [|exact H].
  intros c Hc. destruct (H c Hc) as [u [v [-> Huv]]]. eauto.
Qed.

Lemma step_same_type (R : value -> value -> bool) (x y : value) (tx ty : type_tag) :
  strict_eq x y = false -> type h x = Ret tx -> type h y = Ret ty ->
  fst (eq_body h (oracle R) x y []) = Ret (VBool true) -> tx = ty.
Proof.
  intros Hne Tx Ty. unfold eq_body.
  rewrite Hne, (ordinary_no_delegate h Hh x), Tx, Ty.
  destruct (type_tag_eqb tx ty) eqn:E; [|discriminate].
  intros _. apply type_tag_eqb_eq, E.
Qed.

(** One step of [eq] on two distinct arrays. *)
Lemma step_arrays (R : value -> value -> bool) (x y : value) :
  valid h x = true -> valid h y = true ->
  strict_eq x y = false -> type h x = Ret TArray -> type h y = Ret TArray ->
  fst (eq_body h (oracle R) x y []) = Ret (VBool true) <->
  isArray h x = true /\ isArray h y = true /\
  array_length h x = array_length h y /\
  forall i, i < array_length h x ->
    R (get h x (index_key i)) (get h y (index_key i)) = true.
Proof.
  intros Hx Hy Hne Tx Ty.
  rewrite (oracle_true_iff h Hh) by assumption.
  unfold children_of. rewrite Hne, Tx, Ty.
  destruct (isArray h x && isArray h y
            && Nat.eqb (array_length h x) (array_length h y)) eqn:Hc.
  - apply andb_prop in Hc. destruct Hc as [Hc Hlen].
    apply andb_prop in Hc. destruct Hc as [Ix Iy]. apply Nat.eqb_eq in Hlen.
    split.
    + intros H. repeat split; try assumption. intros i Hi.
      destruct (H (Some (get h x (index_key i), get h y (index_key i))))
        as [u [v [[= <- <-] Huv]]]; [|exact Huv].
      apply in_map_iff. exists i. split; [reflexivity|]. apply in_seq. lia.
    + intros [_ [_ [_ H]]] c Hin. apply in_map_iff in Hin.
      destruct Hin as [i [<- Hi]]. apply in_seq in Hi.
      eexists _, _. split; [reflexivity|]. apply H. lia.
  - split.
    + unfold eq_body. rewrite Hne, (ordinary_no_delegate h Hh x), Tx, Ty.
      cbn. unfold boolean, arrayEq.
      destruct (isArray h x); [|discriminate].
      destruct (isArray h y); [|discriminate].
      cbn in Hc |- *. rewrite Hc. discriminate.
    + intros [Ix [Iy [Hlen _]]]. rewrite Ix, Iy, Hlen, Nat.eqb_refl in Hc.
      discriminate Hc.
Qed.

(** One step of [eq] on two distinct objects. *)
Lemma step_objects (R : value -> value -> bool) (x y : value) :
  valid h x = true -> valid h y = true ->
  strict_eq x y = false -> type h x = Ret TObject -> type h y = Ret TObject ->
  fst (eq_body h (oracle R) x y []) = Ret (VBool true) <->
  exists kx ky, Object_keys h x = Ret kx /\ Object_keys h y = Ret ky /\
    List.length kx = List.length ky /\
    forall k, In k kx ->
      has_own h y k = true /\ R (get h x k) (get h y k) = true.
Proof.
  intros Hx Hy Hne Tx Ty.
  destruct (type_object_ref h x Tx) as [lx [-> _]].
  destruct (type_object_ref h y Ty) as [ly [-> _]].
  destruct (object_keys h Hh lx Tx) as [kx [Kx _]].
  destruct (object_keys h Hh ly Ty) as [ky [Ky _]].
  rewrite (oracle_true_iff h Hh) by assumption.
  unfold children_of. rewrite Hne, Tx, Ty, Kx, Ky.
  destruct (Nat.eqb (List.length kx) (List.length ky)) eqn:Hlen.
  - apply Nat.eqb_eq in Hlen. split.
    + intros H. exists kx, ky. repeat split; try assumption.
      * destruct (H (if has_own h (VRef ly) k
                     then Some (get h (VRef lx) k, get h (VRef ly) k) else None))
          as [u [v [E _]]]; [apply in_map_iff; eauto|].
        destruct (has_own h (VRef ly) k); [reflexivity|discriminate E].
      * destruct (H (if has_own h (VRef ly) k
                     then Some (get h (VRef lx) k, get h (VRef ly) k) else None))
          as [u [v [E Huv]]]; [apply in_map_iff; eauto|].
        destruct (has_own h (VRef ly) k); [|discriminate E].
        injection E as <- <-. exact Huv.
    + intros [kx' [ky' [[= <-] [[= <-] [_ H]]]]] c Hin.
      apply in_map_iff in Hin. destruct Hin as [k [<- Hk]].
      destruct (H k Hk) as [-> Huv]. eauto.
  - split.
    + unfold eq_body. rewrite Hne, (ordinary_no_delegate h Hh), Tx, Ty.
      cbn. unfold boolean, objectEq. rewrite Kx, Ky, Hlen. discriminate.
    + intros [kx' [ky' [[= <-] [[= <-] [Hl _]]]]].
      apply Nat.eqb_neq in Hlen. contradiction.
Qed.

(** One step of [eq] composes. *)
Lemma step_trans (R1 R2 R : value -> value -> bool) (x y z : value) :
  valid h x = true -> valid h y = true -> valid h z = true ->
  (forall u v, R1 u v = true -> R u v = true) ->
  (forall u v, R2 u v = true -> R u v = true) ->
  (forall u v w, R1 u v = true -> R2 v w = true -> R u w = true) ->
  fst (eq_body h (oracle R1) x y []) = Ret (VBool true) ->
  fst (eq_body h (oracle R2) y z []) = Ret (VBool true) ->
  fst (eq_body h (oracle R) x z []) = Ret (VBool true).
Proof.
  intros Hx Hy Hz Hsub1 Hsub2 Hcomp H1 H2.
  destruct (strict_eq x y) eqn:Exy.
  { destruct (strict_eq_true x y Exy) as [->|[s1 [s2 [-> ->]]]].
    - apply (step_mono R2 R); assumption.
    - rewrite (eq_body_zero_l _ s1 s2). apply (step_mono R2 R); assumption. }
  destruct (strict_eq y z) eqn:Eyz.
  { destruct (strict_eq_true y z Eyz) as [<-|[s1 [s2 [-> ->]]]].
    - apply (step_mono R1 R); assumption.
    - rewrite (eq_body_zero_r _ s2 s1). apply (step_mono R1 R); assumption. }
  destruct (strict_eq x z) eqn:Exz.
  { unfold eq_body. rewrite Exz. reflexivity. }
  destruct (ordinary_type h Hh x Hx) as [tx Tx].
  destruct (ordinary_type h Hh y Hy) as [ty Ty].
  destruct (ordinary_type h Hh z Hz) as [tz Tz].
  pose proof (step_same_type R1 x y tx ty Exy Tx Ty H1). subst ty.
  pose proof (step_same_type R2 y z tx tz Eyz Ty Tz H2). subst tz.
  assert (Hvalue : tx = TBoolean \/ tx = TString \/ tx = TDate \/ tx = TNumber ->
            fst (eq_body h (oracle R) x z []) = Ret (VBool true)).
  { intros Hk.
    destruct (invoke_valueOf h Hh x tx Hx Tx Hk) as [p Vx].
    destruct (invoke_valueOf h Hh y tx Hy Ty Hk) as [q Vy].
    destruct (invoke_valueOf h Hh z tx Hz Tz Hk) as [r Vz].
    unfold eq_body in *.
    rewrite Exy, (ordinary_no_delegate h Hh x), Tx, Ty in H1.
    rewrite Eyz, (ordinary_no_delegate h Hh y), Ty, Tz in H2.
    rewrite Exz, (ordinary_no_delegate h Hh x), Tx, Tz.
    destruct Hk as [->|[->|[->| ->]]]; cbn in *; unfold pure in *;
      rewrite Vx, Vy in H1; rewrite Vy, Vz in H2; rewrite Vx, Vz;
      cbn in *; injection H1 as H1; injection H2 as H2;
      rewrite (strict_eq_trans p q r H1 H2); reflexivity. }
  destruct tx; try (apply Hvalue; tauto).
  all: try (exfalso; unfold eq_body in H1;
            rewrite Exy, (ordinary_no_delegate h Hh x), Tx, Ty in H1;
            discriminate H1).
  - (* arrays *)
    rewrite step_arrays in H1, H2 |- * by assumption.
    destruct H1 as [Ix [Iy [Lxy E1]]], H2 as [_ [Iz [Lyz E2]]].
    repeat split; try assumption; [congruence|].
    intros i Hi. apply (Hcomp _ (get h y (index_key i))); [apply E1|apply E2]; lia.
  - (* regular expressions *)
    unfold eq_body in *.
    rewrite Exy, (ordinary_no_delegate h Hh x), Tx, Ty in H1.
    rewrite Eyz, (ordinary_no_delegate h Hh y), Ty, Tz in H2.
    rewrite Exz, (ordinary_no_delegate h Hh x), Tx, Tz.
    cbn in *. injection H1 as H1. injection H2 as H2.
    repeat (apply andb_prop in H1; destruct H1 as [H1 ?]).
    repeat (apply andb_prop in H2; destruct H2 as [H2 ?]).
    repeat (erewrite strict_eq_trans by eassumption). reflexivity.
  - (* objects *)
    rewrite step_objects in H1, H2 |- * by assumption.
    destruct H1 as [kx [ky [Kx [Ky [Lxy E1]]]]].
    destruct H2 as [ky' [kz [Ky' [Kz [Lyz E2]]]]].
    rewrite Ky in Ky'. injection Ky' as <-.
    exists kx, kz. repeat split; try assumption; try congruence.
    + destruct (E1 k H) as [Hown _].
      destruct (type_object_ref h y Ty) as [ly [-> _]].
      destruct (object_keys h Hh ly Ty) as [ks [Ks [_ Hin]]].
      rewrite Ky in Ks. injection Ks as <-.
      apply Hin in Hown. apply (E2 k Hown).
    + destruct (E1 k H) as [Hown Hr1].
      destruct (type_object_ref h y Ty) as [ly [-> _]].
      destruct (object_keys h Hh ly Ty) as [ks [Ks [_ Hin]]].
      rewrite Ky in Ks. injection Ks as <-.
      apply Hin in Hown. apply (Hcomp _ _ _ Hr1). apply (E2 k Hown).
Qed.

End Transitivity.

Lemma related_In (ps : list (value * value)) (x y : value) :
  related ps x y = true <-> In (x, y) ps.
Proof.
  unfold related. rewrite existsb_exists. split.
  - intros [[u v] [Hin H]]. simpl in H.
    destruct (value_eq_dec u x); [|discriminate].
    destruct (value_eq_dec v y); [|discriminate]. subst. exact Hin.
  - intros Hin. exists (x, y). split; [exact Hin|]. simpl.
    destruct (value_eq_dec x x); [|congruence].
    destruct (value_eq_dec y y); [|congruence]. reflexivity.
Qed.

Lemma compose_iff (ps qs : list (value * value)) (u w : value) :
  compose ps qs u w = true <->
  exists v, related ps u v = true /\ related qs v w = true.
Proof.
  unfold compose. rewrite existsb_exists. split.
  - intros [p [_ H]]. apply andb_prop in H. eauto.
  - intros [v [H1 H2]]. exists (u, v). split; [apply related_In, H1|].
    simpl. rewrite H1, H2. reflexivity.
Qed.

(** X11. In an ordinary heap [eq] is transitive at top level: when
    [eq(a, b)] and [eq(b, c)] are [true], so is [eq(a, c)]. *)
Theorem eq_transitive (h : heap) (a b c : value) (fuel : nat) :
  ordinary h = true ->
  valid h a = true -> valid h b = true -> valid h c = true ->
  List.length h * List.length h < fuel ->
  eq h fuel a b [] = (Ret (VBool true), []) ->
  eq h fuel b c [] = (Ret (VBool true), []) ->
  eq h fuel a c [] = (Ret (VBool true), []).
Proof.
  intros Hh Ha Hb Hc Hfuel Hab Hbc.
  assert (Hroom : headroom h [] < fuel).
  { pose proof (headroom_le h []). lia. }
  destruct (eq_sound h Hh fuel a b [] Ha Hb) as [ps [Hrel1 [Hcl1 Hval1]]];
    [rewrite Hab; reflexivity|].
  destruct (eq_sound h Hh fuel b c [] Hb Hc) as [qs [Hrel2 [Hcl2 Hval2]]];
    [rewrite Hbc; reflexivity|].
  destruct Hrel1 as [Hrel1|Hrel1]; [|discriminate].
  destruct Hrel2 as [Hrel2|Hrel2]; [|discriminate].
  set (R := fun u w => related ps u w || related qs u w || compose ps qs u w).
  assert (HR : forall u w, R u w = true ->
            (related ps u w = true \/ related qs u w = true) \/
            exists v, related ps u v = true /\ related qs v w = true).
  { intros u w H. unfold R in H. apply orb_prop in H. destruct H as [H|H].
    - left. apply orb_prop, H.
    - right. apply compose_iff, H. }
  assert (Hval : forall u w, R u w = true -> valid h u = true /\ valid h w = true).
  { intros u w H. destruct (HR u w H) as [[H'|H']|[v [H1 H2]]].
    - apply Hval1, H'.
    - apply Hval2, H'.
    - split; [apply (Hval1 u v H1)|apply (Hval2 v w H2)]. }
  assert (Hsub1 : forall u v, related ps u v = true -> R u v = true).
  { intros u v H. unfold R. rewrite H. reflexivity. }
  assert (Hsub2 : forall u v, related qs u v = true -> R u v = true).
  { intros u v H. unfold R. rewrite H, orb_true_r. reflexivity. }
  assert (Hcomp : forall u v w, related ps u v = true -> related qs v w = true ->
                                R u w = true).
  { intros u v w H1 H2. unfold R.
    assert (compose ps qs u w = true) as -> by (apply compose_iff; eauto).
    apply orb_true_r. }
  assert (Hstep1 : forall u v, related ps u v = true ->
            fst (eq_body h (oracle (related ps)) u v []) = Ret (VBool true)).
  { intros u v H. destruct (Hval1 u v H) as [Hu Hv].
    apply (step_mono h Hh (fun x y => related ps x y || never x y)); try assumption.
    - intros x y Hxy. rewrite orb_false_r in Hxy. exact Hxy.
    - apply Hcl1, H. }
  assert (Hstep2 : forall u v, related qs u v = true ->
            fst (eq_body h (oracle (related qs)) u v []) = Ret (VBool true)).
  { intros u v H. destruct (Hval2 u v H) as [Hu Hv].
    apply (step_mono h Hh (fun x y => related qs x y || never x y)); try assumption.
    - intros x y Hxy. rewrite orb_false_r in Hxy. exact Hxy.
    - apply Hcl2, H. }
  assert (Hcl : closed h never R).
  { intros u w H. destruct (Hval u w H) as [Hu Hw].
    apply (step_mono h Hh R); try assumption.
    { intros x y Hxy. rewrite Hxy. reflexivity. }
    destruct (HR u w H) as [[H'|H']|[v [H1 H2]]].
    - apply (step_mono h Hh (related ps)); auto.
    - apply (step_mono h Hh (related qs)); auto.
    - destruct (Hval1 u v H1) as [_ Hv].
      apply (step_trans h Hh (related ps) (related qs) R u v w); auto. }
  destruct (eq_total h Hh fuel a c [] Ha Hc Hroom) as [r E].
  rewrite E. f_equal. f_equal.
  apply (eq_complete h Hh R Hcl Hval fuel a c [] (VBool r)).
  - apply (Hcomp a b c Hrel1 Hrel2).
  - rewrite E. reflexivity.
Qed.

Lemma eq_transitive_witness :
  eq Examples.recursive_objects 10 (VRef 0) (VRef 2) [] = (Ret (VBool true), []).
Proof.
  apply (eq_transitive Examples.recursive_objects (VRef 0) (VRef 1) (VRef 2) 10);
    try reflexivity.
  simpl. lia.
Defined.

(** *** [camelize], [underscore], [capitalize] *)

(** The repository's tests of the three functions. *)
Example test_strings :
  map camelize_string
      ["foo_bar"; "foo_bar_baz"; "foo_Bar_Baz"; "foobar"; "Foobar"; "Foo_bar"]
    = ["fooBar"; "fooBarBaz"; "fooBarBaz"; "foobar"; "Foobar"; "FooBar"] /\
  map underscore_string ["FooBar"; "fooBar"; "fooBarBaz"; "fooBar_Baz"; "Foo"]
    = ["foo_bar"; "foo_bar"; "foo_bar_baz"; "foo_bar_baz"; "foo"] /\
  map capitalize [VString "foo"; VString "fooBar"; VString "FOO"; VString "Foo"]
    = map (fun s => Ret (VString s)) ["Foo"; "FooBar"; "FOO"; "Foo"].
Proof. repeat split. Qed.

Lemma downcase_plain (c : ascii) :
  (Ascii.eqb c "-" || space c) = false -> plain_char (downcase c) = true.
Proof. each_ascii c. Qed.

Lemma plain_downcase (c : ascii) : plain_char c = true -> downcase c = c.
Proof. each_ascii c. Qed.

Lemma plain_not_upper (c : ascii) : plain_char c = true -> upper c = false.
Proof. each_ascii c. Qed.

Lemma plain_not_separator (c : ascii) :
  plain_char c = true -> (Ascii.eqb c "-" || space c) = false.
Proof. each_ascii c. Qed.

Lemma underscore_plain_chars (b : bool) (s : string) :
  all_chars plain_char (toLowerCase (join_words b s)) = true.
Proof.
  revert b. induction s as [|c s IH]; intros b; simpl; [reflexivity|].
  destruct (Ascii.eqb c "-" || space c) eqn:Hc.
  - destruct b; simpl; rewrite ?IH; reflexivity.
  - simpl. rewrite (downcase_plain c Hc), IH. reflexivity.
Qed.

Lemma separate_words_plain (s : string) :
  all_chars plain_char s = true -> separate_words s = s.
Proof.
  induction s as [|c s IH]; simpl; [reflexivity|].
  intros H. apply andb_prop in H. destruct H as [Hc Hs].
  destruct s as [|d s']; [reflexivity|].
  simpl in Hs. apply andb_prop in Hs. destruct Hs as [Hd Hs'].
  rewrite (plain_not_upper d Hd), andb_false_r.
  rewrite IH; [reflexivity|]. simpl. rewrite Hd, Hs'. reflexivity.
Qed.

Lemma join_words_plain (s : string) :
  all_chars plain_char s = true -> join_words false s = s.
Proof.
  induction s as [|c s IH]; simpl; [reflexivity|].
  intros H. apply andb_prop in H. destruct H as [Hc Hs].
  rewrite (plain_not_separator c Hc), (IH Hs). reflexivity.
Qed.

Lemma toLowerCase_plain (s : string) :
  all_chars plain_char s = true -> toLowerCase s = s.
Proof.
  induction s as [|c s IH]; simpl; [reflexivity|].
  intros H. apply andb_prop in H. destruct H as [Hc Hs].
  rewrite (plain_downcase c Hc), (IH Hs). reflexivity.
Qed.

(** X12. [underscore] gives a string without capitals, hyphens and white
    space; a string without them it returns as it is; so it is idempotent.
    A value that is not a string is returned as it is. *)
Theorem underscore_normal_form (v : value) :
  (forall s, underscore v = VString s -> all_chars plain_char s = true) /\
  (forall s, all_chars plain_char s = true -> underscore (VString s) = VString s) /\
  underscore (underscore v) = underscore v.
Proof.
  assert (Hfix : forall s, all_chars plain_char s = true ->
                           underscore (VString s) = VString s).
  { intros s Hs. unfold underscore, underscore_string.
    rewrite (separate_words_plain s Hs), (join_words_plain s Hs),
      (toLowerCase_plain s Hs). reflexivity. }
  split; [|split; [exact Hfix|]].
  - intros s. destruct v as [| |b|x|str|id|f|l]; try discriminate.
    cbn [underscore]. intros [= <-]. apply underscore_plain_chars.
  - destruct v as [| |b|x|str|id|f|l]; try reflexivity.
    cbn [underscore]. apply Hfix, underscore_plain_chars.
Qed.

Lemma alnum_facts (c : ascii) :
  alnum c = true ->
  (Ascii.eqb c "-" || Ascii.eqb c "_") = false /\ upper c = false /\
  (Ascii.eqb c "-" || space c) = false /\ downcase c = c /\ Ascii.eqb c "_" = false.
Proof. each_ascii c; repeat split. Qed.

Lemma lower_facts (c : ascii) :
  lower c = true ->
  word c = true /\ upper (upcase c) = true /\ alnum (upcase c) = false /\
  (Ascii.eqb (upcase c) "-" || space (upcase c)) = false /\ downcase (upcase c) = c.
Proof. each_ascii c; repeat split. Qed.

Lemma upper_facts (c : ascii) :
  upper c = true ->
  word (downcase c) = true /\ upcase (downcase c) = c /\ alnum c = false /\
  (Ascii.eqb c "-" || space c) = false /\
  lower (downcase c) = true.
Proof. each_ascii c; repeat split. Qed.

Lemma camelize_string_cons (c : ascii) (s : string) :
  (Ascii.eqb c "-" || Ascii.eqb c "_") = false ->
  camelize_string (String c s) = String c (camelize_string s).
Proof. intros Hc. simpl. rewrite Hc. destruct s; reflexivity. Qed.

Lemma camelize_string_match (d : ascii) (s : string) :
  word d = true ->
  camelize_string (String "_" (String d s)) = String (upcase d) (camelize_string s).
Proof. intros Hd. cbn [camelize_string]. rewrite Hd. reflexivity. Qed.

Lemma camelize_string_step (c d : ascii) (s : string) :
  camelize_string (String c (String d s)) =
  if (Ascii.eqb c "-" || Ascii.eqb c "_") && word d
  then String (upcase d) (camelize_string s)
  else String c (camelize_string (String d s)).
Proof. reflexivity. Qed.

(** [underscore] on a string that does not start with a hyphen or white
    space: the first character, an underscore if a word ends there, and the
    rest. *)
Lemma underscore_string_cons (c : ascii) (s : string) :
  (Ascii.eqb c "-" || space c) = false ->
  underscore_string (String c s) =
  String (downcase c)
    (if alnum c && starts_upper s then String "_" (underscore_string s)
     else underscore_string s).
Proof.
  intros Hc. unfold underscore_string. destruct s as [|d s].
  - simpl. rewrite Hc, andb_false_r. reflexivity.
  - cbn [separate_words starts_upper]. fold (alnum c).
    destruct (alnum c && upper d); cbn [join_words toLowerCase]; rewrite Hc;
      reflexivity.
Qed.

Lemma snake_round_trip (t : string) :
  (snake Inside t = true -> forall c, alnum c = true ->
     underscore_string (String c (camelize_string t)) = String c t) /\
  (snake Fresh t = true -> forall c, lower c = true ->
     underscore_string (String (upcase c) (camelize_string t)) = String c t) /\
  (snake AfterUnderscore t = true -> forall c, alnum c = true ->
     underscore_string (String c (camelize_string (String "_" t)))
     = String c (String "_" t)).
Proof.
  induction t as [|d t [IHa [IHb IHc]]].
  - repeat split; try discriminate.
    + intros _ c Hc. destruct (alnum_facts c Hc) as [_ [_ [Hj [Hd _]]]].
      simpl camelize_string. rewrite (underscore_string_cons c EmptyString Hj), Hd.
      rewrite andb_false_r. reflexivity.
    + intros _ c Hc. destruct (lower_facts c Hc) as [_ [_ [_ [Hj Hd]]]].
      simpl camelize_string. rewrite (underscore_string_cons _ EmptyString Hj), Hd.
      rewrite andb_false_r. reflexivity.
  - repeat split.
    + (* inside a word *)
      cbn [snake]. intros Hs c Hc.
      destruct (alnum_facts c Hc) as [_ [_ [Hj [Hd _]]]].
      destruct (Ascii.eqb d "_") eqn:Hu.
      * apply Ascii.eqb_eq in Hu. subst d. apply (IHc Hs c Hc).
      * apply andb_prop in Hs. destruct Hs as [Hd' Hs].
        destruct (alnum_facts d Hd') as [Hf [Hup _]].
        rewrite (camelize_string_cons d t Hf), (underscore_string_cons c _ Hj), Hd.
        cbn [starts_upper]. rewrite Hup, andb_false_r.
        rewrite (IHa Hs d Hd'). reflexivity.
    + (* the first character of a word *)
      cbn [snake]. intros Hs c Hc.
      destruct (lower_facts c Hc) as [_ [_ [Hal [Hj Hd]]]].
      apply andb_prop in Hs. destruct Hs as [Hd' Hs].
      destruct (alnum_facts d Hd') as [Hf [Hup _]].
      rewrite (camelize_string_cons d t Hf), (underscore_string_cons _ _ Hj), Hd, Hal.
      cbn [andb]. rewrite (IHa Hs d Hd'). reflexivity.
    + (* after an underscore *)
      cbn [snake]. intros Hs c Hc.
      destruct (alnum_facts c Hc) as [_ [_ [Hj [Hd _]]]].
      apply andb_prop in Hs. destruct Hs as [Hd' Hs].
      destruct (lower_facts d Hd') as [Hw [Hup _]].
      rewrite (camelize_string_match d t Hw), (underscore_string_cons c _ Hj), Hd.
      cbn [starts_upper]. rewrite Hc, Hup. cbn [andb].
      rewrite (IHb Hs d Hd'). reflexivity.
Qed.

Lemma camel_round_trip (t : string) :
  (camel Inside t = true -> forall c, alnum c = true ->
     camelize_string (underscore_string (String c t)) = String c t) /\
  (camel Fresh t = true -> camelize_string (underscore_string t) = t).
Proof.
  induction t as [|d t [IHa IHb]].
  - split; [|reflexivity].
    intros _ c Hc. destruct (alnum_facts c Hc) as [Hf [_ [Hj [Hd _]]]].
    rewrite (underscore_string_cons c EmptyString Hj), Hd, andb_false_r.
    reflexivity.
  - split.
    + cbn [camel]. intros Hs c Hc.
      destruct (alnum_facts c Hc) as [Hf [_ [Hj [Hd _]]]].
      rewrite (underscore_string_cons c _ Hj), Hd, Hc. cbn [starts_upper andb].
      destruct (upper d) eqn:Hup.
      * destruct (upper_facts d Hup) as [Hw [Hud [Hal [Hj' _]]]].
        rewrite (underscore_string_cons d t Hj'), Hal. cbn [andb].
        rewrite (camelize_string_cons c _ Hf), (camelize_string_match _ _ Hw), Hud.
        rewrite (IHb Hs). reflexivity.
      * apply andb_prop in Hs. destruct Hs as [Hd' Hs].
        rewrite (camelize_string_cons c _ Hf), (IHa Hs d Hd'). reflexivity.
    + cbn [camel]. intros Hs. apply andb_prop in Hs. destruct Hs as [Hd' Hs].
      apply (IHa Hs d Hd').
Qed.

Lemma snake_to_camel (t : string) :
  (snake Inside t = true -> camel Inside (camelize_string t) = true) /\
  (snake Fresh t = true -> camel Fresh (camelize_string t) = true) /\
  (snake AfterUnderscore t = true ->
     camel Inside (camelize_string (String "_" t)) = true).
Proof.
  induction t as [|d t [IHa [IHb IHc]]].
  - repeat split; discriminate.
  - repeat split; cbn [snake]; intros Hs.
    + destruct (Ascii.eqb d "_") eqn:Hu.
      * apply Ascii.eqb_eq in Hu. subst d. apply (IHc Hs).
      * apply andb_prop in Hs. destruct Hs as [Hd Hs].
        destruct (alnum_facts d Hd) as [Hf [Hup _]].
        rewrite (camelize_string_cons d t Hf). cbn [camel].
        rewrite Hup, Hd. apply (IHa Hs).
    + apply andb_prop in Hs. destruct Hs as [Hd Hs].
      destruct (alnum_facts d Hd) as [Hf _].
      rewrite (camelize_string_cons d t Hf). cbn [camel].
      rewrite Hd. apply (IHa Hs).
    + apply andb_prop in Hs. destruct Hs as [Hd Hs].
      destruct (lower_facts d Hd) as [Hw [Hup _]].
      rewrite (camelize_string_match d t Hw). cbn [camel].
      rewrite Hup. apply (IHb Hs).
Qed.

Lemma camel_to_snake (t : string) :
  (camel Inside t = true ->
     snake Inside (if starts_upper t then String "_" (underscore_string t)
                   else underscore_string t) = true) /\
  (camel Fresh t = true -> snake Fresh (underscore_string t) = true).
Proof.
  induction t as [|d t [IHa IHb]].
  - split; reflexivity.
  - split; cbn [camel starts_upper]; intros Hs.
    + destruct (upper d) eqn:Hup.
      * destruct (upper_facts d Hup) as [_ [_ [Hal [Hj Hlow]]]].
        rewrite (underscore_string_cons d t Hj), Hal. cbn [andb snake].
        rewrite Hlow. apply (IHb Hs).
      * apply andb_prop in Hs. destruct Hs as [Hd Hs].
        destruct (alnum_facts d Hd) as [_ [_ [Hj [Hdown Hu]]]].
        rewrite (underscore_string_cons d t Hj), Hdown, Hd. cbn [andb snake].
        rewrite Hu, Hd. apply (IHa Hs).
    + apply andb_prop in Hs. destruct Hs as [Hd Hs].
      destruct (alnum_facts d Hd) as [_ [_ [Hj [Hdown Hu]]]].
      rewrite (underscore_string_cons d t Hj), Hdown, Hd. cbn [andb snake].
      rewrite Hd. apply (IHa Hs).
Qed.

(** X13. On a snake_case name [camelize] gives a camelCase name, from which
    [underscore] gives the name back. *)
Theorem camelize_then_underscore (s : string) :
  snake_case s = true ->
  camelCase (camelize_string s) = true /\
  underscore (camelize (VString s)) = VString s.
Proof.
  intros Hs. split; [apply snake_to_camel, Hs|].
  cbn [camelize underscore]. f_equal.
  destruct s as [|c t]; [reflexivity|].
  unfold snake_case in Hs. cbn [snake] in Hs.
  apply andb_prop in Hs. destruct Hs as [Hc Hs].
  destruct (alnum_facts c Hc) as [Hf _].
  rewrite (camelize_string_cons c t Hf).
  apply (proj1 (snake_round_trip t) Hs c Hc).
Qed.

Lemma camelize_then_underscore_witness :
  camelCase (camelize_string "foo_bar_baz") = true /\
  underscore (camelize (VString "foo_bar_baz")) = VString "foo_bar_baz".
Proof. apply (camelize_then_underscore "foo_bar_baz"). reflexivity. Defined.

(** X14. On a camelCase name [underscore] gives a snake_case name, from which
    [camelize] gives the name back. *)
Theorem underscore_then_camelize (s : string) :
  camelCase s = true ->
  snake_case (underscore_string s) = true /\
  camelize (underscore (VString s)) = VString s.
Proof.
  intros Hs. split; [apply camel_to_snake, Hs|].
  cbn [camelize underscore]. f_equal.
  apply (proj2 (camel_round_trip s) Hs).
Qed.

Lemma underscore_then_camelize_witness :
  snake_case (underscore_string "fooBarBaz") = true /\
  camelize (underscore (VString "fooBarBaz")) = VString "fooBarBaz".
Proof. apply (underscore_then_camelize "fooBarBaz"). reflexivity. Defined.

(** Outside these names the round trip can fail. *)
Example round_trip_fails :
  underscore (camelize (VString "a_b_c")) = VString "a_bc" /\
  camelize (underscore (VString "fooBAR")) = VString "fooBar".
Proof. split; reflexivity. Qed.

Lemma camelize_string_length (s : string) :
  (String.length (camelize_string s) <= String.length s) /\
  forall c, String.length (camelize_string (String c s)) <= S (String.length s).
Proof.
  induction s as [|d s [IH1 IH2]].
  - split; [|intros c]; simpl; lia.
  - split; [apply IH2|].
    intros c. rewrite camelize_string_step.
    destruct ((Ascii.eqb c "-" || Ascii.eqb c "_") && word d).
    + cbn [String.length]. lia.
    + specialize (IH2 d). cbn [String.length] in *. lia.
Qed.

Lemma camelize_string_shorter (s : string) :
  (has_match s = true -> String.length (camelize_string s) < String.length s) /\
  forall c, has_match (String c s) = true ->
            String.length (camelize_string (String c s)) < S (String.length s).
Proof.
  induction s as [|d s [IH1 IH2]].
  - split; [|intros c]; discriminate.
  - split; [apply IH2|].
    intros c. rewrite camelize_string_step. cbn [has_match].
    destruct ((Ascii.eqb c "-" || Ascii.eqb c "_") && word d).
    + intros _. pose proof (proj1 (camelize_string_length s)).
      cbn [String.length]. lia.
    + intros H. specialize (IH2 d H). cbn [String.length] in *. lia.
Qed.

Lemma camelize_string_fixed (s : string) :
  (has_match s = false -> camelize_string s = s) /\
  forall c, has_match (String c s) = false ->
            camelize_string (String c s) = String c s.
Proof.
  induction s as [|d s [IH1 IH2]].
  - split; reflexivity.
  - split; [apply IH2|].
    intros c. rewrite camelize_string_step. cbn [has_match].
    destruct ((Ascii.eqb c "-" || Ascii.eqb c "_") && word d); [discriminate|].
    intros H. rewrite (IH2 d H). reflexivity.
Qed.

(** X15. [camelize] changes a string exactly when some hyphen or underscore
    in it is followed by a word character, and it never makes a string
    longer. *)
Theorem camelize_changes (s : string) :
  (camelize (VString s) = VString s <-> has_match s = false) /\
  String.length (camelize_string s) <= String.length s.
Proof.
  split; [|apply camelize_string_length].
  cbn [camelize]. split.
  - intros [= H]. destruct (has_match s) eqn:Hm; [|reflexivity].
    pose proof (proj1 (camelize_string_shorter s) Hm) as Hlt.
    rewrite H in Hlt. lia.
  - intros H. f_equal. apply camelize_string_fixed, H.
Qed.

Lemma upcase_ascii (c : ascii) :
  Nat.ltb (code c) 128 = true ->
  Nat.ltb (code (upcase c)) 128 = true /\ upcase (upcase c) = upcase c.
Proof. each_ascii c; split; reflexivity. Qed.

(** X16. [capitalize] is idempotent and keeps the length of a string. *)
Theorem capitalize_idempotent (v w : value) :
  capitalize v = Ret w ->
  capitalize w = Ret w /\
  forall s, v = VString s ->
    exists s', w = VString s' /\ String.length s' = String.length s.
Proof.
  intros H. destruct v as [| |b|x|[|c rest]|id|f|l];
    try (injection H as <-; split; [reflexivity|intros s; try discriminate]).
  - intros [= <-]. eauto.
  - cbn [capitalize] in H. unfold toUpperCase_unit in *.
    destruct (Nat.ltb (code c) 128) eqn:Hc; [|discriminate].
    simpl in H. injection H as <-.
    destruct (upcase_ascii c Hc) as [Hu Huu]. split.
    + cbn [capitalize]. unfold toUpperCase_unit. rewrite Hu, Huu. reflexivity.
    + intros s [= <-]. eexists. split; reflexivity.
Qed.

Lemma capitalize_idempotent_witness :
  capitalize (VString "Foo") = Ret (VString "Foo") /\
  forall s, VString "foo" = VString s ->
    exists s', VString "Foo" = VString s' /\ String.length s' = String.length s.
Proof. apply (capitalize_idempotent (VString "foo") (VString "Foo")). reflexivity. Defined.

(** *** [getPath] *)

Example test_getPath :
  getPath Samples.builtins Samples.max_arguments (VRef 4) "count" Samples.tagged_items
    = Ret (Build.num 2, Samples.tagged_items) /\
  getPath Samples.builtins Samples.max_arguments (VRef 4) "items.length" Samples.tagged_items
    = Ret (Build.num 3, Samples.tagged_items) /\
  getPath Samples.builtins Samples.max_arguments (VRef 4) "items.name" Samples.tagged_items
    = Ret (VRef 6, Samples.tagged_items ++ [Build.array [VString "a"; VString "b"]]) /\
  getPath Samples.builtins Samples.max_arguments (VRef 4) "items.tags" Samples.tagged_items
    = Ret (VRef 6,
           Samples.tagged_items ++ [Build.array [VString "x"; VString "y"; VString "z"]]) /\
  getPath Samples.builtins Samples.max_arguments (VRef 4) "items.tags.length" Samples.tagged_items
    = Ret (Build.num 3,
           Samples.tagged_items ++ [Build.array [VString "x"; VString "y"; VString "z"]]) /\
  getPath Samples.builtins Samples.max_arguments (VRef 4) "missing.name" Samples.tagged_items
    = Ret (VUndefined, Samples.tagged_items) /\
  getPath Samples.builtins Samples.max_arguments (VRef 4) "items.map" Samples.tagged_items = Foreign /\
  getPath Samples.builtins Samples.max_arguments VNull "items" Samples.tagged_items
    = Ret (VUndefined, Samples.tagged_items).
Proof. repeat split. Qed.

Lemma split_cons (path : string) : exists seg segs, split path = seg :: segs.
Proof.
  induction path as [|c rest [seg [segs IH]]]; simpl; [eauto|].
  destruct (Ascii.eqb c "."); [eauto|]. rewrite IH. eauto.
Qed.

Lemma split_app (p q : string) :
  split (p ++ String "." q)%string = split p ++ split q.
Proof.
  induction p as [|c p IH]; simpl; [reflexivity|].
  destruct (Ascii.eqb c "."); [rewrite IH; reflexivity|].
  rewrite IH. destruct (split_cons p) as [seg [segs ->]]. reflexivity.
Qed.

Section PathProperties.
Variable builtin_has : jsclass -> string -> bool.
Variable max_arguments : nat.

Lemma resolve_app (head : string) (tail : list string) (head2 : string)
    (tail2 : list string) (o : value) (h : heap) :
  resolve builtin_has max_arguments head (tail ++ head2 :: tail2) o h =
  bind (resolve builtin_has max_arguments head tail o h) (fun r =>
    if to_boolean (fst r) then resolve builtin_has max_arguments head2 tail2 (fst r) (snd r)
    else Ret (VUndefined, snd r)).
Proof.
  revert head o h. induction tail as [|t ts IH]; intros head o h; simpl;
    (destruct (strict_eq o VNull || strict_eq o VUndefined); [reflexivity|]);
    destruct (segment builtin_has max_arguments h head o) as [[o' h']| | |]; try reflexivity.
  simpl. destruct (to_boolean o'); [apply IH|reflexivity].
Qed.

(** X17. Paths compose: [getPath(o, p + "." + q)] is [getPath(v, q)] for the
    value [v] of [getPath(o, p)], run in the heap the first call leaves, when
    [v] is truthy, and [undefined] otherwise. *)
Theorem getPath_compose (o : value) (p q : string) (h : heap) :
  getPath builtin_has max_arguments o (p ++ String "." q)%string h =
  bind (getPath builtin_has max_arguments o p h) (fun r =>
    if to_boolean (fst r) then getPath builtin_has max_arguments (fst r) q (snd r)
    else Ret (VUndefined, snd r)).
Proof.
  unfold getPath, _getPath. rewrite split_app.
  destruct (split_cons p) as [hp [tp ->]], (split_cons q) as [hq [tq ->]].
  apply (resolve_app hp tp hq tq).
Qed.

Lemma segment_grows (h : heap) (head : string) (o v : value) (h' : heap) :
  segment builtin_has max_arguments h head o = Ret (v, h') ->
  h' = h \/ exists vs, h' = h ++ [Build.array vs].
Proof.
  unfold segment. intros H.
  destruct (isArray h o).
  - destruct (has_property builtin_has h o head) as [[]| | |]; simpl in H;
      try discriminate.
    + destruct (read builtin_has h o head); simpl in H; try discriminate.
      injection H as _ <-. auto.
    + destruct (reduce builtin_has max_arguments h head o) as [acc| | |]; simpl in H;
        try discriminate.
      injection H as _ <-. eauto.
  - destruct (read builtin_has h o head); simpl in H; try discriminate.
    injection H as _ <-. auto.
Qed.

Lemma resolve_grows (head : string) (tail : list string) (o : value) (h : heap)
    (v : value) (h' : heap) :
  resolve builtin_has max_arguments head tail o h = Ret (v, h') ->
  exists added, h' = h ++ added /\ Forall built added /\
                List.length added <= S (List.length tail).
Proof.
  revert head o h. induction tail as [|t ts IH]; intros head o h; simpl;
    (destruct (strict_eq o VNull || strict_eq o VUndefined);
     [intros [= _ <-]; exists []; rewrite app_nil_r; simpl; auto with arith|]);
    destruct (segment builtin_has max_arguments h head o) as [[o1 h1]| | |] eqn:Hs;
    simpl; try discriminate;
    apply segment_grows in Hs.
  - intros [= _ <-]. destruct Hs as [->|[vs ->]].
    + exists []. rewrite app_nil_r. simpl. auto.
    + exists [Build.array vs]. repeat split; [|simpl; lia].
      constructor; [exists vs; reflexivity|constructor].
  - assert (Hstep : forall added0, h1 = h ++ added0 -> Forall built added0 ->
               List.length added0 <= 1 ->
               (if to_boolean o1 then resolve builtin_has max_arguments t ts o1 h1
                else Ret (VUndefined, h1)) = Ret (v, h') ->
               exists added, h' = h ++ added /\ Forall built added /\
                             List.length added <= S (S (List.length ts))).
    { intros added0 -> Hb Hlen H. destruct (to_boolean o1).
      - destruct (IH _ _ _ H) as [added [-> [Ha Hl]]].
        exists (added0 ++ added). rewrite app_assoc. repeat split.
        + apply Forall_app. auto.
        + rewrite length_app. lia.
      - injection H as _ <-. exists added0. repeat split; [assumption|lia]. }
    destruct Hs as [->|[vs ->]].
    + apply (Hstep []); [rewrite app_nil_r; reflexivity|constructor|simpl; lia].
    + apply (Hstep [Build.array vs]); [reflexivity| |simpl; lia].
      constructor; [exists vs; reflexivity|constructor].
Qed.

(** X18. [getPath] only adds to the heap: what it leaves is the heap it
    found followed by arrays it has built, at most one for each segment of
    the path; the objects that were there are as they were. *)
Theorem getPath_grows (o : value) (path : string) (h : heap) (v : value) (h' : heap) :
  getPath builtin_has max_arguments o path h = Ret (v, h') ->
  (exists added, h' = h ++ added /\ Forall built added /\
                 List.length added <= List.length (split path)) /\
  forall l obj, lookup h l = Some obj -> lookup h' l = Some obj.
Proof.
  unfold getPath, _getPath. intros H.
  destruct (split_cons path) as [seg [segs E]]. rewrite E in *. simpl in H.
  destruct (resolve_grows seg segs o h v h' H) as [added [-> [Hb Hl]]].
  split; [exists added; simpl; auto|].
  intros l obj Hl'. unfold lookup in *.
  rewrite nth_error_app1; [exact Hl'|].
  apply nth_error_Some. congruence.
Qed.

(** [read] agrees with the [get] of the equality model wherever it
    returns. *)
Lemma read_get (h : heap) (v : value) (key : string) (x : value) :
  read builtin_has h v key = Ret x -> get h v key = x.
Proof.
  assert (Hb : forall c,
            match builtin_get c key with
            | VUndefined => if builtin_has c key then Foreign else Ret VUndefined
            | y => Ret y
            end = Ret x -> builtin_get c key = x).
  { intros c. destruct (builtin_get c key); try (intros [= <-]; reflexivity).
    destruct (builtin_has c key); [discriminate|]. intros [= <-]. reflexivity. }
  unfold read. destruct v as [| |b|y|str|id|f|l]; simpl; try discriminate;
    try apply Hb.
  - destruct (assoc key _) as [p|]; [intros [= <-]; reflexivity|apply Hb].
  - generalize (List.length h). intros n. revert l.
    induction n as [|n IH]; intros l; simpl; [discriminate|].
    destruct (lookup h l) as [o|]; [|discriminate].
    destruct (assoc key (own_props o)) as [p|]; [intros [= <-]; reflexivity|].
    destruct (o_proto o); [intros [= <-]; reflexivity|apply Hb|apply IH].
Qed.

Lemma find_ret (h : heap) (v : value) (key : string) :
  strict_eq v VNull || strict_eq v VUndefined = false ->
  exists sl, find h v key = Ret sl.
Proof. destruct v; try discriminate; simpl; eauto. Qed.

Lemma read_unraised (h : heap) (v : value) (key : string) :
  strict_eq v VNull || strict_eq v VUndefined = false ->
  unraised (read builtin_has h v key).
Proof.
  intros Hv e. unfold read. destruct (find_ret h v key Hv) as [sl ->]. simpl.
  destruct sl as [x|c| |]; try discriminate.
  destruct (builtin_get c key); try discriminate.
  destruct (builtin_has c key); discriminate.
Qed.

Lemma truthy_not_null (v : value) :
  to_boolean v = true -> strict_eq v VNull || strict_eq v VUndefined = false.
Proof. destruct v; try discriminate; reflexivity. Qed.

Lemma isArray_not_null (h : heap) (v : value) :
  isArray h v = true -> strict_eq v VNull || strict_eq v VUndefined = false.
Proof. destruct v; try discriminate; reflexivity. Qed.

Lemma has_property_unraised (h : heap) (v : value) (key : string) :
  isArray h v = true -> unraised (has_property builtin_has h v key).
Proof.
  intros Hv e. destruct (isArray_ref h v Hv) as [l [-> _]]. simpl.
  destruct (find_from h (List.length h) l key); discriminate.
Qed.

Lemma read_all_unraised (h : heap) (y : value) (keys : list string) :
  isArray h y = true -> unraised (read_all builtin_has h y keys).
Proof.
  intros Hy. induction keys as [|k keys IH]; intros e; simpl; [discriminate|].
  pose proof (read_unraised h y k (isArray_not_null h y Hy)) as Hr.
  destruct (read builtin_has h y k) as [v|e'| |]; simpl; try discriminate.
  - destruct (read_all builtin_has h y keys) as [vs|e'| |]; simpl; try discriminate.
    exfalso. apply (IH e'). reflexivity.
  - exfalso. apply (Hr e'). reflexivity.
Qed.

(** What makes the function given to [reduce] raise: [push.apply] with more
    arguments than the engine takes. *)
Lemma gather_raises (h : heap) (head : string) (acc : list value) (x : value)
    (e : string) :
  gather builtin_has max_arguments h head acc x = Throw e ->
  e = RangeError /\
  exists y, read builtin_has h x head = Ret y /\ isArray h y = true /\
            max_arguments < array_length h y.
Proof.
  unfold gather. destruct (to_boolean x) eqn:Hx; [|discriminate].
  cbn [negb].
  pose proof (read_unraised h x head (truthy_not_null x Hx)) as Hr.
  destruct (read builtin_has h x head) as [y|e0| |]; simpl; try discriminate.
  - destruct (isArray h y) eqn:Hy; [|discriminate].
    destruct (Nat.ltb max_arguments (array_length h y)) eqn:Hl.
    + intros [= <-]. split; [reflexivity|]. exists y.
      apply Nat.ltb_lt in Hl. auto.
    + pose proof (read_all_unraised h y (map index_key (seq 0 (array_length h y))) Hy)
        as Ha.
      destruct (read_all _ _ _ _) as [ys|e1| |]; simpl; try discriminate.
      intros _. exfalso. apply (Ha e1). reflexivity.
  - intros _. exfalso. apply (Hr e0). reflexivity.
Qed.

Lemma reduce_loop_raises (h : heap) (head : string) (o : value) (ks : list nat)
    (acc : list value) :
  isArray h o = true ->
  raises_only_RangeError (reduce_loop builtin_has max_arguments h head o ks acc).
Proof.
  intros Ho. revert acc. induction ks as [|k ks IH]; intros acc e; simpl;
    [discriminate|].
  pose proof (has_property_unraised h o (index_key k) Ho) as Hp.
  destruct (has_property builtin_has h o (index_key k)) as [[]|e0| |]; simpl;
    try discriminate.
  - pose proof (read_unraised h o (index_key k) (isArray_not_null h o Ho)) as Hr.
    destruct (read builtin_has h o (index_key k)) as [x|e0| |]; simpl;
      try discriminate.
    + destruct (gather builtin_has max_arguments h head acc x) as [acc'|e0| |] eqn:Hg;
        simpl; try discriminate.
      * apply IH.
      * intros [= <-]. apply (gather_raises h head acc x e0 Hg).
    + intros _. exfalso. apply (Hr e0). reflexivity.
  - apply IH.
  - intros _. exfalso. apply (Hp e0). reflexivity.
Qed.

Lemma find_reduce (h : heap) (o : value) :
  forallb inherits_reduce h = true -> isArray h o = true ->
  find h o "reduce" = Ret (Builtin CArray).
Proof.
  intros Hh Ho. destruct o as [| | | | | | |l]; try discriminate Ho.
  simpl in *. destruct (lookup h l) as [[i p ps]|] eqn:Hl; [|discriminate].
  destruct i; try discriminate.
  assert (Hin : In (mkObject (IArray len) p ps) h) by (eapply nth_error_In; exact Hl).
  rewrite forallb_forall in Hh. specialize (Hh _ Hin).
  unfold inherits_reduce in Hh. simpl in Hh.
  destruct h as [|o0 h0]; [destruct l; discriminate Hl|].
  cbn [List.length find_from]. rewrite Hl. unfold own_props. simpl.
  destruct p; try discriminate Hh.
  destruct (assoc "reduce" ps); [discriminate Hh|]. reflexivity.
Qed.

Lemma segment_raises (h : heap) (head : string) (o : value) :
  forallb inherits_reduce h = true ->
  strict_eq o VNull || strict_eq o VUndefined = false ->
  raises_only_RangeError (segment builtin_has max_arguments h head o).
Proof.
  intros Hh Ho e. unfold segment.
  pose proof (read_unraised h o head Ho) as Hr.
  assert (Hread : bind (read builtin_has h o head) (fun v => Ret (v, h)) = Throw e ->
                  e = RangeError).
  { destruct (read builtin_has h o head) as [v|e0| |]; simpl; try discriminate.
    intros _. exfalso. apply (Hr e0). reflexivity. }
  destruct (isArray h o) eqn:Ha; [|exact Hread].
  pose proof (has_property_unraised h o head Ha) as Hp.
  destruct (has_property builtin_has h o head) as [[]|e0| |]; simpl; try discriminate.
  - exact Hread.
  - unfold reduce. rewrite (find_reduce h o Hh Ha). simpl.
    pose proof (reduce_loop_raises h head o (seq 0 (array_length h o)) [] Ha) as Hl.
    destruct (reduce_loop _ _ _ _ _ _ _) as [acc|e0| |]; simpl; try discriminate.
    intros [= <-]. apply (Hl e0). reflexivity.
  - intros _. exfalso. apply (Hp e0). reflexivity.
Qed.

Lemma elements_no_reduce (vs : list value) (i : nat) :
  assoc "reduce" (Build.elements i vs) = None.
Proof.
  revert i. induction vs as [|v vs IH]; intros i; simpl; [reflexivity|].
  destruct (String.eqb (index_key i) "reduce") eqn:E; [|apply IH].
  apply String.eqb_eq in E. pose proof (index_key_digits i) as Hd.
  rewrite E in Hd. discriminate Hd.
Qed.

Lemma segment_inherits (h : heap) (head : string) (o v : value) (h' : heap) :
  forallb inherits_reduce h = true ->
  segment builtin_has max_arguments h head o = Ret (v, h') ->
  forallb inherits_reduce h' = true.
Proof.
  intros Hh Hs. destruct (segment_grows h head o v h' Hs) as [->|[vs ->]];
    [exact Hh|].
  rewrite forallb_app, Hh. simpl. unfold inherits_reduce. simpl.
  rewrite elements_no_reduce. reflexivity.
Qed.

Lemma resolve_raises (head : string) (tail : list string) (o : value) (h : heap) :
  forallb inherits_reduce h = true ->
  raises_only_RangeError (resolve builtin_has max_arguments head tail o h).
Proof.
  revert head o h. induction tail as [|t ts IH]; intros head o h Hh e; simpl;
    (destruct (strict_eq o VNull || strict_eq o VUndefined) eqn:Ho; [discriminate|]);
    pose proof (segment_raises h head o Hh Ho) as Hs;
    destruct (segment builtin_has max_arguments h head o) as [[o1 h1]|e0| |] eqn:E;
    simpl; try discriminate;
    try (intros [= <-]; apply (Hs e0); reflexivity).
  destruct (to_boolean o1); [|discriminate].
  apply IH. apply (segment_inherits h head o o1 h1 Hh E).
Qed.

(** X19. Where every array inherits [reduce] from [Array.prototype], the
    only exception [getPath] ends with is a [RangeError]: its guards keep it
    from reading a property of [null] or [undefined] and from calling what is
    no function, so it raises no [TypeError].  The function it gives to
    [reduce] raises in one case only, a [RangeError]: when
    [acc.push.apply(acc, y)] is given an array [y] that has more elements
    than the engine takes as arguments. *)
Theorem getPath_raises_only_RangeError (o : value) (path : string) (h : heap) :
  (forallb inherits_reduce h = true ->
   forall e, getPath builtin_has max_arguments o path h = Throw e -> e = RangeError) /\
  (forall head acc x e,
     gather builtin_has max_arguments h head acc x = Throw e ->
     e = RangeError /\
     exists y, read builtin_has h x head = Ret y /\ isArray h y = true /\
               max_arguments < array_length h y).
Proof.
  split.
  - intros Hh. apply resolve_raises, Hh.
  - intros head acc x. apply gather_raises.
Qed.

End PathProperties.

Lemma getPath_grows_witness :
  (exists added,
     Samples.tagged_items ++ [Build.array [VString "x"; VString "y"; VString "z"]]
     = Samples.tagged_items ++ added /\
     Forall built added /\ List.length added <= List.length (split "items.tags")) /\
  forall l obj, lookup Samples.tagged_items l = Some obj ->
    lookup (Samples.tagged_items ++ [Build.array [VString "x"; VString "y"; VString "z"]]) l
    = Some obj.
Proof.
  apply (getPath_grows Samples.builtins Samples.max_arguments (VRef 4) "items.tags"
           Samples.tagged_items (VRef 6)).
  reflexivity.
Defined.

Lemma getPath_raises_only_RangeError_witness :
  getPath Samples.builtins Samples.max_arguments (VRef 4) "items.tags.length"
    Samples.tagged_items <> Throw TypeError /\
  exists y, read Samples.builtins Samples.tagged_items (VRef 0) "tags" = Ret y /\
            isArray Samples.tagged_items y = true /\
            1 < array_length Samples.tagged_items y.
Proof.
  split.
  - intros H.
    destruct (getPath_raises_only_RangeError Samples.builtins Samples.max_arguments
                (VRef 4) "items.tags.length" Samples.tagged_items) as [H1 _].
    apply (H1 eq_refl) in H. discriminate H.
  - destruct (getPath_raises_only_RangeError Samples.builtins 1
                (VRef 4) "items.tags" Samples.tagged_items) as [_ H2].
    destruct (H2 "tags" [] (VRef 0) RangeError) as [_ H]; [reflexivity|exact H].
Defined.

(** An engine that takes one argument only: gathering [tags], the first
    array of two raises. *)
Example getPath_raises_RangeError :
  getPath Samples.builtins 1 (VRef 4) "items.tags" Samples.tagged_items = Throw RangeError /\
  getPath Samples.builtins 2 (VRef 4) "items.tags" Samples.tagged_items
    = Ret (VRef 6,
           Samples.tagged_items ++ [Build.array [VString "x"; VString "y"; VString "z"]]).
Proof. split; reflexivity. Qed.

(** An array with a property named [reduce] of its own: [o.reduce] is not a
    function. *)
Example getPath_raises :
  getPath Samples.builtins Samples.max_arguments (VRef 0) "x" Samples.shadowed_reduce
  = Throw TypeError.
Proof. reflexivity. Qed.
